(** * A1349: heterogeneous-aware EEVDF scheduler (sched_ext policy and agent)

    Shallow embedding of the BPF scheduler core (the heterogeneous
    [scx_eevdf.bpf.c]), of the classical EEVDF policy it extends, and of the
    capacity-refresh pass of the userspace agent.

    Machine integers are [Z] with the wrap-around written out ([wrap64],
    [wrap32], [to_s64]).  Every C division goes through [udiv], which fails
    on a zero divisor, so handlers live in the [option] monad. *)

From Stdlib Require Import ZArith Lia Bool List Sorted.
From stdpp Require Import base option list gmap.

Local Open Scope Z_scope.

(** ** Machine integers *)

Definition U64_MAX : Z := 2^64 - 1.          (* ~0ULL *)
Definition U32_MAX : Z := 2^32 - 1.          (* 0xffffffffULL *)

Definition wrap64 (x : Z) : Z := x mod 2^64. (* arithmetic on u64 *)
Definition wrap32 (x : Z) : Z := x mod 2^32. (* cast to u32 *)

(** The cast [(s64)x]: two's complement reading of the low 64 bits. *)
Definition to_s64 (x : Z) : Z :=
  if wrap64 x <? 2^63 then wrap64 x else wrap64 x - 2^64.

Definition s64_add (a b : Z) : Z := to_s64 (a + b).
Definition s64_sub (a b : Z) : Z := to_s64 (a - b).
Definition s64_neg (a : Z) : Z := to_s64 (- a).

Definition is_u32 (x : Z) : bool := (0 <=? x) && (x <? 2^32).

(** C division; a zero divisor is the trap. *)
Definition udiv (a b : Z) : option Z :=
  if b =? 0 then None else Some (a / b).

(** ** Constants of the BPF program *)

Definition CAPACITY_SCALE : Z := 1024.
Definition BIG_CAP_PCT : Z := 90.
Definition LAG_BOOST_DIV : Z := 4.
Definition DISPATCH_BATCH_MAX : nat := 8.
Definition INV_SHIFT : Z := 20.
Definition SCALE : Z := 100.

Inductive dsq_id := EEVDF_DSQ_BIG | EEVDF_DSQ_LITTLE.

Global Instance dsq_id_eq_dec : EqDecision dsq_id.
Proof. solve_decision. Defined.

(** ** Data *)

Record eevdf_ctx := {
  vtime_now : Z;      (* u64 *)
  total_weight : Z;   (* u64 *)
  max_capacity : Z;   (* u32 *)
  ctx_pad : Z         (* u32 _pad *)
}.

Record eevdf_task_ctx := {
  weight_cached : Z;  (* u32 *)
  inv_weight : Z      (* u32 *)
}.

(** Task-local storage is created zeroed. *)
Definition tctx_zero : eevdf_task_ctx :=
  {| weight_cached := 0; inv_weight := 0 |}.

(** ** Weight cache *)

Definition refresh_weight_cache (tctx : option eevdf_task_ctx) (weight : Z)
  : option (option eevdf_task_ctx) :=
  match tctx with
  | None => Some None
  | Some t =>
      let weight := if weight =? 0 then 1 else weight in
      if (weight_cached t =? weight) && negb (inv_weight t =? 0)
      then Some (Some t)
      else
        half ← udiv weight 2;
        inv ← udiv (wrap64 (Z.shiftl 1 INV_SHIFT + half)) weight;
        let inv := if inv =? 0 then 1 else inv in
        Some (Some {| weight_cached := weight; inv_weight := wrap32 inv |})
  end.

Definition div_by_weight_cached (val weight : Z) (tctx : option eevdf_task_ctx)
  : option (Z * option eevdf_task_ctx) :=
  let weight := if weight =? 0 then 1 else weight in
  tctx ← refresh_weight_cache tctx weight;
  match tctx with
  | Some t =>
      if negb (inv_weight t =? 0) && (val <=? U32_MAX)
      then Some (Z.shiftr (wrap64 (wrap32 val * inv_weight t)) INV_SHIFT, tctx)
      else q ← udiv val weight; Some (q, tctx)
  | None => q ← udiv val weight; Some (q, tctx)
  end.

(** The reciprocal the cache stores for [w], as [refresh_weight_cache]
    computes it on a fresh context. *)
Definition inv_of (w : Z) : Z :=
  let inv := wrap64 (Z.shiftl 1 INV_SHIFT + w / 2) / w in
  wrap32 (if inv =? 0 then 1 else inv).

(** A context is coherent when it is fresh or holds the reciprocal of the
    weight it caches: the only writer is [refresh_weight_cache]. *)
Definition tctx_coherent (t : eevdf_task_ctx) : Prop :=
  inv_weight t = 0 \/
  (weight_cached t <> 0 /\ inv_weight t = inv_of (weight_cached t)).


(** ** Tasks, queues and the state the handlers run on *)

(** The fields of [struct task_struct] the scheduler reads or writes. *)
Record task_struct := {
  pid : Z;
  scx_weight : Z;      (* p->scx.weight, u32 *)
  scx_slice : Z;       (* p->scx.slice, u64 *)
  scx_dsq_vtime : Z;   (* p->scx.dsq_vtime, u64 *)
  task_cpu : Z         (* scx_bpf_task_cpu(p), s32 *)
}.

Definition set_dsq_vtime (p : task_struct) (v : Z) : task_struct :=
  {| pid := pid p; scx_weight := scx_weight p; scx_slice := scx_slice p;
     scx_dsq_vtime := v; task_cpu := task_cpu p |}.

(** An entry of a dispatch queue: the task, its slice and its sort key. *)
Record dsq_entry := { e_pid : Z; e_slice : Z; e_vtime : Z }.

(** BPF array maps are lists (the length is [max_entries]): a lookup out of
    range fails and an update out of range changes nothing.  Task storage is
    keyed by the task.  [latency_hist] and [stats] exist only in a build
    with [EEVDF_TELEMETRY]; the default build, embedded here, never
    touches them. *)
Record sched_state := {
  global_data : list eevdf_ctx;             (* ARRAY, max_entries 1 *)
  cpu_capacity : list Z;                    (* ARRAY, max_entries 512, u32 *)
  task_ctx_map : gmap Z eevdf_task_ctx;     (* TASK_STORAGE *)
  latency_hist : list Z;
  stats : list Z;
  storage_avail : bool;   (* whether bpf_task_storage_get can allocate *)
  dsq_big : list dsq_entry;
  dsq_little : list dsq_entry;
  dsq_local : list dsq_entry                (* SCX_DSQ_LOCAL of the CPU *)
}.

Definition set_global_data (g : list eevdf_ctx) (s : sched_state) : sched_state :=
  {| global_data := g; cpu_capacity := cpu_capacity s;
     task_ctx_map := task_ctx_map s; latency_hist := latency_hist s;
     stats := stats s; storage_avail := storage_avail s;
     dsq_big := dsq_big s; dsq_little := dsq_little s; dsq_local := dsq_local s |}.

Definition set_cpu_capacity (c : list Z) (s : sched_state) : sched_state :=
  {| global_data := global_data s; cpu_capacity := c;
     task_ctx_map := task_ctx_map s; latency_hist := latency_hist s;
     stats := stats s; storage_avail := storage_avail s;
     dsq_big := dsq_big s; dsq_little := dsq_little s; dsq_local := dsq_local s |}.

Definition set_task_ctx_map (m : gmap Z eevdf_task_ctx) (s : sched_state) : sched_state :=
  {| global_data := global_data s; cpu_capacity := cpu_capacity s;
     task_ctx_map := m; latency_hist := latency_hist s;
     stats := stats s; storage_avail := storage_avail s;
     dsq_big := dsq_big s; dsq_little := dsq_little s; dsq_local := dsq_local s |}.

Definition set_dsqs (b l loc : list dsq_entry) (s : sched_state) : sched_state :=
  {| global_data := global_data s; cpu_capacity := cpu_capacity s;
     task_ctx_map := task_ctx_map s; latency_hist := latency_hist s;
     stats := stats s; storage_avail := storage_avail s;
     dsq_big := b; dsq_little := l; dsq_local := loc |}.

Definition dsq_of (id : dsq_id) (s : sched_state) : list dsq_entry :=
  match id with EEVDF_DSQ_BIG => dsq_big s | EEVDF_DSQ_LITTLE => dsq_little s end.

Definition set_dsq (id : dsq_id) (q : list dsq_entry) (s : sched_state) : sched_state :=
  match id with
  | EEVDF_DSQ_BIG => set_dsqs q (dsq_little s) (dsq_local s) s
  | EEVDF_DSQ_LITTLE => set_dsqs (dsq_big s) q (dsq_local s) s
  end.

(** ** Runtime primitives

    The sched_ext runtime is not part of the repository; its primitives are
    embedded as the spec describes them. *)

(** Modelled from the spec: the runtime's [insert_vtime] primitive keeps a
    named queue sorted by the key, a tie going behind the entries already
    queued. *)
Fixpoint insert_by_vtime (e : dsq_entry) (q : list dsq_entry) : list dsq_entry :=
  match q with
  | [] => [e]
  | x :: q' =>
      if e_vtime e <? e_vtime x then e :: x :: q' else x :: insert_by_vtime e q'
  end.

Definition scx_bpf_dsq_insert_vtime (p : task_struct) (id : dsq_id)
    (slice vtime enq_flags : Z) (s : sched_state) : sched_state :=
  set_dsq id
    (insert_by_vtime {| e_pid := pid p; e_slice := slice; e_vtime := vtime |}
       (dsq_of id s)) s.

(** Modelled from the spec: insertion into the CPU-local queue is FIFO. *)
Definition scx_bpf_dsq_insert_local (p : task_struct) (slice enq_flags : Z)
    (s : sched_state) : sched_state :=
  set_dsqs (dsq_big s) (dsq_little s)
    (dsq_local s ++ [{| e_pid := pid p; e_slice := slice; e_vtime := 0 |}]) s.

(** Modelled from the spec: the runtime's move primitive takes the
    minimum-key entry of a named queue to the CPU-local queue and reports
    whether it moved one. *)
Definition scx_bpf_dsq_move_to_local (id : dsq_id) (s : sched_state)
  : bool * sched_state :=
  match dsq_of id s with
  | [] => (false, s)
  | e :: q =>
      let s := set_dsq id q s in
      (true, set_dsqs (dsq_big s) (dsq_little s) (dsq_local s ++ [e]) s)
  end.

(** [time_before(a, b)] of the sched_ext common header included by the BPF
    programs (the header is not in the repository): the wrap-safe comparison
    [(s64)(a - b) < 0] on u64 time stamps. *)
Definition time_before (a b : Z) : bool := to_s64 (wrap64 (a - b)) <? 0.

(** ** Helpers of the heterogeneous scheduler *)

Definition get_ctx (s : sched_state) : option eevdf_ctx :=
  global_data s !! 0%nat.

(** A store through the pointer [get_ctx] returned. *)
Definition put_ctx (g : eevdf_ctx) (s : sched_state) : sched_state :=
  set_global_data (<[0%nat := g]> (global_data s)) s.

Definition get_cpu_cap (s : sched_state) (cpu : Z) : Z :=
  match cpu_capacity s !! Z.to_nat cpu with
  | Some cap => if cap =? 0 then CAPACITY_SCALE else cap
  | None => CAPACITY_SCALE
  end.

Definition get_task_ctx (p : task_struct) (create : bool) (s : sched_state)
  : option eevdf_task_ctx * sched_state :=
  match task_ctx_map s !! pid p with
  | Some t => (Some t, s)
  | None =>
      if create && storage_avail s
      then (Some tctx_zero, set_task_ctx_map (<[pid p := tctx_zero]> (task_ctx_map s)) s)
      else (None, s)
  end.

(** A store through the pointer [get_task_ctx] returned. *)
Definition put_task_ctx (p : task_struct) (tctx : option eevdf_task_ctx)
    (s : sched_state) : sched_state :=
  match tctx with
  | Some t => set_task_ctx_map (<[pid p := t]> (task_ctx_map s)) s
  | None => s
  end.

Definition with_vtime_now (g : eevdf_ctx) (v : Z) : eevdf_ctx :=
  {| vtime_now := v; total_weight := total_weight g;
     max_capacity := max_capacity g; ctx_pad := ctx_pad g |}.

Definition with_total_weight (g : eevdf_ctx) (w : Z) : eevdf_ctx :=
  {| vtime_now := vtime_now g; total_weight := w;
     max_capacity := max_capacity g; ctx_pad := ctx_pad g |}.

Definition with_max_capacity (g : eevdf_ctx) (c : Z) : eevdf_ctx :=
  {| vtime_now := vtime_now g; total_weight := total_weight g;
     max_capacity := c; ctx_pad := ctx_pad g |}.

Definition class_dsq_id (cap max_cap : Z) : dsq_id :=
  let max_cap := if max_cap =? 0 then CAPACITY_SCALE else max_cap in
  if wrap64 (cap * 100) >=? wrap64 (max_cap * BIG_CAP_PCT)
  then EEVDF_DSQ_BIG else EEVDF_DSQ_LITTLE.

Definition abs_s64_to_u64 (v : Z) : Z :=
  if v >=? 0 then wrap64 v
  else wrap64 (wrap64 (s64_neg (s64_add v 1)) + 1).

Definition div_signed_u64 (num den : Z) : option Z :=
  if den =? 0 then Some 0
  else
    abs_q ← udiv (abs_s64_to_u64 num) den;
    if num <? 0 then Some (s64_neg (to_s64 abs_q)) else Some (to_s64 abs_q).

Definition add_signed_vtime (gdata : eevdf_ctx) (delta : Z) : eevdf_ctx :=
  if delta >=? 0 then
    let add := wrap64 delta in
    if vtime_now gdata >? wrap64 (U64_MAX - add)
    then with_vtime_now gdata U64_MAX
    else with_vtime_now gdata (wrap64 (vtime_now gdata + add))
  else
    let sub := abs_s64_to_u64 delta in
    if vtime_now gdata >? sub
    then with_vtime_now gdata (wrap64 (vtime_now gdata - sub))
    else with_vtime_now gdata 0.

(** [max_cap] as every handler derives it from [gdata]. *)
Definition max_cap_of (gdata : option eevdf_ctx) : Z :=
  match gdata with
  | Some g => if max_capacity g =? 0 then CAPACITY_SCALE else max_capacity g
  | None => CAPACITY_SCALE
  end.

(** ** The event handlers of the heterogeneous scheduler *)

(** What the runtime answers during [select_cpu]. *)
Record cpu_pick := {
  dfl_cpu : Z;        (* scx_bpf_select_cpu_dfl: the CPU, s32 *)
  dfl_idle : bool;    (* ... and whether it is idle *)
  any_idle_cpu : Z    (* scx_bpf_pick_idle_cpu(p->cpus_ptr, 0), s32 *)
}.

Section Handlers.

(** [SCX_SLICE_DFL] is a constant of the runtime (20 ms in the kernel). *)
Variable SCX_SLICE_DFL : Z.

Definition desired_dsq_for_task (p : task_struct) (gdata : option eevdf_ctx)
    (max_cap : Z) (s : sched_state) : option dsq_id :=
  q_max ← udiv (wrap64 (max_cap * SCX_SLICE_DFL)) CAPACITY_SCALE;
  quarter ← udiv q_max LAG_BOOST_DIV;
  let lag_boost := wrap64 (quarter + 1) in
  match gdata with
  | None => Some EEVDF_DSQ_BIG
  | Some g =>
      let lag := s64_sub (to_s64 (vtime_now g)) (to_s64 (scx_dsq_vtime p)) in
      if lag >? to_s64 lag_boost then Some EEVDF_DSQ_BIG
      else if lag <? s64_neg (to_s64 lag_boost) then Some EEVDF_DSQ_LITTLE
      else
        (* Near-neutral lag follows CPU class chosen by default picker. *)
        Some (class_dsq_id (get_cpu_cap s (wrap32 (task_cpu p))) max_cap)
  end.

Definition eevdf_select_cpu (p : task_struct) (prev_cpu wake_flags : Z)
    (rt : cpu_pick) (s : sched_state) : option (Z * sched_state) :=
  let is_idle := dfl_idle rt in
  let cpu := dfl_cpu rt in
  let gdata := get_ctx s in
  let max_cap := max_cap_of gdata in
  let cpu_cap := if cpu >=? 0 then get_cpu_cap s (wrap32 cpu) else CAPACITY_SCALE in
  let selected_dsq := class_dsq_id cpu_cap max_cap in
  desired_dsq ← desired_dsq_for_task p gdata max_cap s;
  let '(cpu, is_idle, selected_dsq) :=
    if negb is_idle && negb (bool_decide (desired_dsq = selected_dsq)) then
      let idle_cpu := any_idle_cpu rt in
      if idle_cpu >=? 0 then
        let idle_dsq := class_dsq_id (get_cpu_cap s (wrap32 idle_cpu)) max_cap in
        if bool_decide (idle_dsq = desired_dsq)
        then (idle_cpu, true, idle_dsq)
        else (cpu, is_idle, selected_dsq)
      else (cpu, is_idle, selected_dsq)
    else (cpu, is_idle, selected_dsq) in
  if is_idle && bool_decide (desired_dsq = selected_dsq)
  then
    (* Keep locality fast-path only when CPU class matches desired class. *)
    Some (cpu, scx_bpf_dsq_insert_local p SCX_SLICE_DFL 0 s)
  else Some (cpu, s).

Definition eevdf_enqueue (p : task_struct) (enq_flags : Z) (s : sched_state)
  : option (task_struct * sched_state) :=
  (* stat_inc(1) does nothing without EEVDF_TELEMETRY *)
  match get_ctx s with
  | None => Some (p, s)
  | Some gdata =>
      let v_now := vtime_now gdata in
      let ve := scx_dsq_vtime p in
      let '(tctx, s) := get_task_ctx p true s in
      (* Work quantum in virtual-time units: Q_max = rho_max * slice / CAPACITY_SCALE *)
      let max_cap := max_cap_of (Some gdata) in
      q_max ← udiv (wrap64 (max_cap * SCX_SLICE_DFL)) CAPACITY_SCALE;
      let min_ve := if v_now >? q_max then wrap64 (v_now - q_max) else 0 in
      (* Clamp: prevent more than one max-quantum of lag *)
      let ve := if time_before ve min_ve then min_ve else ve in
      let weight := if scx_weight p =? 0 then 1 else scx_weight p in
      tctx ← refresh_weight_cache tctx weight;
      (* Virtual deadline: vd = ve + Q_max/w_i *)
      '(d, tctx) ← div_by_weight_cached (wrap64 (q_max * SCALE)) weight tctx;
      let vd := wrap64 (ve + d) in
      let p := set_dsq_vtime p ve in
      let s := put_task_ctx p tctx s in
      dsq ← desired_dsq_for_task p (Some gdata) max_cap s;
      Some (p, scx_bpf_dsq_insert_vtime p dsq SCX_SLICE_DFL vd enq_flags s)
  end.

(** The loop of [eevdf_dispatch]: [n] bounds the values [i] may still take
    ([i < DISPATCH_BATCH_MAX]); the first component counts the iterations
    that reached the move attempts. *)
Fixpoint dispatch_loop (local_dsq other_dsq : dsq_id) (slots i : Z) (n : nat)
    (s : sched_state) : nat * sched_state :=
  match n with
  | O => (O, s)
  | S n' =>
      if i >=? slots then (O, s)
      else
        let '(moved, s) := scx_bpf_dsq_move_to_local local_dsq s in
        if moved then
          let '(k, s) := dispatch_loop local_dsq other_dsq slots (i + 1) n' s in
          (S k, s)
        else
          let '(moved, s) := scx_bpf_dsq_move_to_local other_dsq s in
          if moved then
            let '(k, s) := dispatch_loop local_dsq other_dsq slots (i + 1) n' s in
            (S k, s)
          else (1%nat, s)
  end.

(** [nr_slots] is what [scx_bpf_dispatch_nr_slots()] answers (u32); the
    handler ignores its [prev] argument. *)
Definition eevdf_dispatch (cpu : Z) (nr_slots : Z) (s : sched_state)
  : nat * sched_state :=
  let gdata := get_ctx s in
  let max_cap := max_cap_of gdata in
  let cap := get_cpu_cap s (wrap32 cpu) in
  let local_dsq := class_dsq_id cap max_cap in
  let other_dsq :=
    if bool_decide (local_dsq = EEVDF_DSQ_BIG) then EEVDF_DSQ_LITTLE else EEVDF_DSQ_BIG in
  let slots := nr_slots in
  let slots := if slots =? 0 then 1 else slots in
  let slots := if slots >? Z.of_nat DISPATCH_BATCH_MAX then Z.of_nat DISPATCH_BATCH_MAX else slots in
  dispatch_loop local_dsq other_dsq slots 0 DISPATCH_BATCH_MAX s.

Definition eevdf_running (p : task_struct) (s : sched_state)
  : option (task_struct * sched_state) :=
  match get_ctx s with
  | None => Some (p, s)
  | Some gdata =>
      if time_before (vtime_now gdata) (scx_dsq_vtime p)
      then Some (p, put_ctx (with_vtime_now gdata (scx_dsq_vtime p)) s)
      else Some (p, s)
  end.

(** [cpu] is what [bpf_get_smp_processor_id()] answers. *)
Definition eevdf_stopping (p : task_struct) (runnable : bool) (cpu : Z)
    (s : sched_state) : option (task_struct * sched_state) :=
  let cap := get_cpu_cap s cpu in
  let gdata := get_ctx s in
  let '(tctx, s) := get_task_ctx p false s in
  let consumed := wrap64 (SCX_SLICE_DFL - scx_slice p) in
  let weight := if scx_weight p =? 0 then 1 else scx_weight p in
  (* Service measured in A1349 virtual-time units. *)
  svc_vtime ← udiv (wrap64 (wrap64 (consumed * cap) * SCALE)) CAPACITY_SCALE;
  '(d, tctx) ← div_by_weight_cached svc_vtime weight tctx;
  let p := set_dsq_vtime p (wrap64 (scx_dsq_vtime p + d)) in
  let s := put_task_ctx p tctx s in
  (* Approximate dV = C/W by adding delivered service over active weight. *)
  match gdata with
  | Some g =>
      if total_weight g =? 0 then Some (p, s)
      else
        dv ← udiv svc_vtime (total_weight g);
        Some (p, put_ctx (with_vtime_now g (wrap64 (vtime_now g + dv))) s)
  | None => Some (p, s)
  end.

Definition eevdf_set_weight (p : task_struct) (new_weight : Z) (s : sched_state)
  : option (task_struct * sched_state) :=
  match get_ctx s with
  | None => Some (p, s)
  | Some gdata =>
      let old_weight := scx_weight p in
      let old_sum := total_weight gdata in
      let old_weight := if old_weight =? 0 then 1 else old_weight in
      let new_weight := if new_weight =? 0 then 1 else new_weight in
      let '(tctx, s) := get_task_ctx p true s in
      tctx ← refresh_weight_cache tctx new_weight;
      let s := put_task_ctx p tctx s in
      let gdata :=
        if total_weight gdata >=? old_weight
        then with_total_weight gdata (wrap64 (total_weight gdata - old_weight))
        else gdata in
      let gdata := with_total_weight gdata (wrap64 (total_weight gdata + new_weight)) in
      let new_sum := total_weight gdata in
      if (old_sum =? 0) || (new_sum =? 0) then Some (p, put_ctx gdata s)
      else
        let lag := s64_sub (to_s64 (vtime_now gdata)) (to_s64 (scx_dsq_vtime p)) in
        a ← div_signed_u64 lag old_sum;
        b ← div_signed_u64 lag new_sum;
        let diff := s64_sub a b in
        Some (p, put_ctx (add_signed_vtime gdata diff) s)
  end.

Definition eevdf_enable (p : task_struct) (s : sched_state)
  : option (task_struct * sched_state) :=
  match get_ctx s with
  | None => Some (p, s)
  | Some gdata =>
      let weight := if scx_weight p =? 0 then 1 else scx_weight p in
      (* New tasks don't have a meaningful service history yet. *)
      let p := if scx_dsq_vtime p =? 0 then set_dsq_vtime p (vtime_now gdata) else p in
      let lag := s64_sub (to_s64 (vtime_now gdata)) (to_s64 (scx_dsq_vtime p)) in
      let new_sum := wrap64 (total_weight gdata + weight) in
      gdata ←
        (if new_sum =? 0 then Some gdata
         else q ← div_signed_u64 lag new_sum;
              Some (add_signed_vtime gdata (s64_neg q)));
      Some (p, put_ctx (with_total_weight gdata new_sum) s)
  end.

Definition eevdf_disable (p : task_struct) (s : sched_state)
  : option (task_struct * sched_state) :=
  match get_ctx s with
  | None => Some (p, s)
  | Some gdata =>
      let weight := if scx_weight p =? 0 then 1 else scx_weight p in
      let lag := s64_sub (to_s64 (vtime_now gdata)) (to_s64 (scx_dsq_vtime p)) in
      let new_sum :=
        if total_weight gdata >=? weight
        then wrap64 (total_weight gdata - weight) else 0 in
      let gdata := with_total_weight gdata new_sum in
      gdata ←
        (if new_sum =? 0 then Some gdata
         else q ← div_signed_u64 lag new_sum;
              Some (add_signed_vtime gdata q));
      let s := put_ctx gdata s in
      (* bpf_task_storage_delete(&task_ctx_map, p) *)
      Some (p, set_task_ctx_map (delete (pid p) (task_ctx_map s)) s)
  end.

(** [ret_big] and [ret_little] are what [scx_bpf_create_dsq] answers. *)
Definition eevdf_init (ret_big ret_little : Z) (s : sched_state)
  : Z * sched_state :=
  let s :=
    match get_ctx s with
    | Some gdata =>
        if max_capacity gdata =? 0
        then put_ctx (with_max_capacity gdata CAPACITY_SCALE) s else s
    | None => s
    end in
  if negb (ret_big =? 0) then (ret_big, s) else (ret_little, s).

(** The callbacks the runtime may issue on a task, with what the runtime
    supplies to each. *)
Inductive handler :=
| H_select_cpu (prev_cpu wake_flags : Z) (rt : cpu_pick)
| H_enqueue (enq_flags : Z)
| H_dispatch (cpu nr_slots : Z)
| H_running
| H_stopping (runnable : bool) (cpu : Z)
| H_set_weight (new_weight : Z)
| H_enable
| H_disable
| H_init (ret_big ret_little : Z).

Definition run_handler (h : handler) (p : task_struct) (s : sched_state)
  : option (task_struct * sched_state) :=
  match h with
  | H_select_cpu prev_cpu wake_flags rt =>
      r ← eevdf_select_cpu p prev_cpu wake_flags rt s; Some (p, r.2)
  | H_enqueue enq_flags => eevdf_enqueue p enq_flags s
  | H_dispatch cpu nr_slots => Some (p, (eevdf_dispatch cpu nr_slots s).2)
  | H_running => eevdf_running p s
  | H_stopping runnable cpu => eevdf_stopping p runnable cpu s
  | H_set_weight new_weight => eevdf_set_weight p new_weight s
  | H_enable => eevdf_enable p s
  | H_disable => eevdf_disable p s
  | H_init ret_big ret_little => Some (p, (eevdf_init ret_big ret_little s).2)
  end.

End Handlers.

(** ** The classical EEVDF policy the scheduler extends *)

Module Classic.

Record eevdf_ctx := {
  vtime_now : Z;      (* u64 *)
  total_weight : Z    (* u64 *)
}.

Record sched_state := {
  global_data : list eevdf_ctx;   (* ARRAY, max_entries 1 *)
  stats : list Z;                 (* PERCPU_ARRAY, max_entries 2, this CPU's slots *)
  shared_dsq : list dsq_entry     (* SHARED_DSQ *)
}.

Definition get_ctx (s : sched_state) : option eevdf_ctx :=
  global_data s !! 0%nat.

Definition stat_inc (idx : Z) (s : sched_state) : sched_state :=
  match stats s !! Z.to_nat idx with
  | Some cnt =>
      {| global_data := global_data s;
         stats := <[Z.to_nat idx := wrap64 (cnt + 1)]> (stats s);
         shared_dsq := shared_dsq s |}
  | None => s
  end.

Definition scx_bpf_dsq_insert_vtime (p : task_struct) (slice vtime enq_flags : Z)
    (s : sched_state) : sched_state :=
  {| global_data := global_data s; stats := stats s;
     shared_dsq :=
       insert_by_vtime {| e_pid := pid p; e_slice := slice; e_vtime := vtime |}
         (shared_dsq s) |}.

Section Handlers.

Variable SCX_SLICE_DFL : Z.

Definition eevdf_enqueue (p : task_struct) (enq_flags : Z) (s : sched_state)
  : option (task_struct * sched_state) :=
  let s := stat_inc 1 s in
  match get_ctx s with
  | None => Some (p, s)
  | Some gdata =>
      let slice := SCX_SLICE_DFL in
      let v_now := vtime_now gdata in
      let ve := scx_dsq_vtime p in
      let ve := if ve <? wrap64 (v_now - slice) then wrap64 (v_now - slice) else ve in
      let weight := if scx_weight p =? 0 then 1 else scx_weight p in
      d ← udiv (wrap64 (slice * SCALE)) weight;
      let vd := wrap64 (ve + d) in
      let p := set_dsq_vtime p ve in
      Some (p, scx_bpf_dsq_insert_vtime p slice vd enq_flags s)
  end.

(** A store through the pointer [get_ctx] returned. *)
Definition put_ctx (g : eevdf_ctx) (s : sched_state) : sched_state :=
  {| global_data := <[0%nat := g]> (global_data s); stats := stats s;
     shared_dsq := shared_dsq s |}.

Definition with_vtime_now (g : eevdf_ctx) (v : Z) : eevdf_ctx :=
  {| vtime_now := v; total_weight := total_weight g |}.

Definition with_total_weight (g : eevdf_ctx) (w : Z) : eevdf_ctx :=
  {| vtime_now := vtime_now g; total_weight := w |}.

Definition eevdf_running (p : task_struct) (s : sched_state)
  : option (task_struct * sched_state) :=
  match get_ctx s with
  | None => Some (p, s)
  | Some gdata =>
      if scx_dsq_vtime p >? vtime_now gdata then
        if scx_dsq_vtime p >? vtime_now gdata
        then Some (p, put_ctx (with_vtime_now gdata (scx_dsq_vtime p)) s)
        else Some (p, s)
      else Some (p, s)
  end.

Definition eevdf_stopping (p : task_struct) (runnable : bool) (s : sched_state)
  : option (task_struct * sched_state) :=
  let consumed := wrap64 (SCX_SLICE_DFL - scx_slice p) in
  let weight := if scx_weight p =? 0 then 1 else scx_weight p in
  d ← udiv (wrap64 (consumed * SCALE)) weight;
  Some (set_dsq_vtime p (wrap64 (scx_dsq_vtime p + d)), s).

Definition eevdf_set_weight (p : task_struct) (new_weight : Z) (s : sched_state)
  : option (task_struct * sched_state) :=
  match get_ctx s with
  | None => Some (p, s)
  | Some gdata =>
      let old_weight := scx_weight p in
      let old_sum := total_weight gdata in
      let gdata :=
        if total_weight gdata >=? old_weight
        then with_total_weight gdata (wrap64 (total_weight gdata - old_weight))
        else gdata in
      let gdata := with_total_weight gdata (wrap64 (total_weight gdata + new_weight)) in
      let new_sum := total_weight gdata in
      if (old_sum =? 0) || (new_sum =? 0) || (old_weight =? 0)
      then Some (p, put_ctx gdata s)
      else
        let lag := s64_sub (to_s64 (vtime_now gdata)) (to_s64 (scx_dsq_vtime p)) in
        let abs_lag := wrap64 (if lag <? 0 then s64_neg lag else lag) in
        let sign := if lag <? 0 then -1 else 1 in
        q_old ← udiv abs_lag old_sum;
        q_new ← udiv abs_lag new_sum;
        let adjust_old := to_s64 (to_s64 q_old * sign) in
        let adjust_new := to_s64 (to_s64 q_new * sign) in
        let diff := s64_sub adjust_old adjust_new in
        if diff >=? 0
        then Some (p, put_ctx (with_vtime_now gdata
                                 (wrap64 (vtime_now gdata + wrap64 diff))) s)
        else Some (p, put_ctx (with_vtime_now gdata
                                 (wrap64 (vtime_now gdata - wrap64 (s64_neg diff)))) s)
  end.

Definition eevdf_enable (p : task_struct) (s : sched_state)
  : option (task_struct * sched_state) :=
  match get_ctx s with
  | None => Some (p, s)
  | Some gdata =>
      let p := set_dsq_vtime p (vtime_now gdata) in
      Some (p, put_ctx (with_total_weight gdata
                          (wrap64 (total_weight gdata + scx_weight p))) s)
  end.

Definition eevdf_disable (p : task_struct) (s : sched_state)
  : option (task_struct * sched_state) :=
  match get_ctx s with
  | None => Some (p, s)
  | Some gdata =>
      if total_weight gdata >=? scx_weight p
      then Some (p, put_ctx (with_total_weight gdata
                               (wrap64 (total_weight gdata - scx_weight p))) s)
      else Some (p, s)
  end.

End Handlers.

End Classic.

(** ** The capacity-refresh pass of the userspace agent *)

(** What the agent finds at [/sys/devices/system/cpu/cpuN/cpu_capacity]:
    no file, or a file from which [fscanf("%u")] converts a value or
    nothing. *)
Inductive sysfs_file :=
| NoFile
| Scanned (converted : option Z).

Definition read_capacity (f : sysfs_file) : Z :=
  match f with
  | NoFile => 1024                     (* default for homogeneous *)
  | Scanned None => 1024
  | Scanned (Some cap) => wrap32 cap
  end.

(** One iteration of the loop over the possible CPUs; the accumulator is
    [(max_cap, changed, maps)]. *)
Definition refresh_one_cpu (sysfs : Z -> sysfs_file)
    (acc : Z * bool * sched_state) (cpu : Z) : Z * bool * sched_state :=
  let '(max_cap, changed, s) := acc in
  let cap := read_capacity (sysfs cpu) in
  let key := wrap32 cpu in
  let '(changed, s) :=
    match cpu_capacity s !! Z.to_nat key with
    | Some old_cap =>
        if old_cap =? cap then (changed, s)
        else (true, set_cpu_capacity (<[Z.to_nat key := cap]> (cpu_capacity s)) s)
    | None =>
        (true, set_cpu_capacity (<[Z.to_nat key := cap]> (cpu_capacity s)) s)
    end in
  let max_cap := if cap >? max_cap then cap else max_cap in
  (max_cap, changed, s).

Definition ctx_zero : eevdf_ctx :=
  {| vtime_now := 0; total_weight := 0; max_capacity := 0; ctx_pad := 0 |}.

(** [ncpu] is what [libbpf_num_possible_cpus()] answers (int).  The
    [printf] is not embedded. *)
Definition refresh_cpu_capacities (sysfs : Z -> sysfs_file) (ncpu : Z)
    (force_log : bool) (s : sched_state) : bool * sched_state :=
  let '(max_cap, changed, s) :=
    fold_left (refresh_one_cpu sysfs) (seqZ 0 ncpu) (0, false, s) in
  let max_cap := if max_cap =? 0 then 1024 else max_cap in
  (* Write max_capacity into global_data[0] *)
  let ctx := match global_data s !! 0%nat with Some c => c | None => ctx_zero end in
  if negb (max_capacity ctx =? max_cap)
  then (true, set_global_data (<[0%nat := with_max_capacity ctx max_cap]> (global_data s)) s)
  else (changed, s).

(** ** Quantities the statements below name *)

(** [Q_max] as [eevdf_enqueue] and [desired_dsq_for_task] compute it. *)
Definition q_max_of (slice max_cap : Z) : Z :=
  wrap64 (max_cap * slice) / CAPACITY_SCALE.

(** The lag floor [min_ve] of [eevdf_enqueue]. *)
Definition min_ve_of (v_now q_max : Z) : Z :=
  if v_now >? q_max then wrap64 (v_now - q_max) else 0.

(** The lag [(s64)V - (s64)v_e] the handlers compute. *)
Definition lag_of (g : eevdf_ctx) (p : task_struct) : Z :=
  s64_sub (to_s64 (vtime_now g)) (to_s64 (scx_dsq_vtime p)).

Definition clamp_weight (w : Z) : Z := if w =? 0 then 1 else w.

(** The value of [SCX_SLICE_DFL] in the kernel: 20 ms in nanoseconds. *)
Definition SLICE_20MS : Z := 20000000.

Definition mk_task (w slice ve cpu : Z) : task_struct :=
  {| pid := 1; scx_weight := w; scx_slice := slice; scx_dsq_vtime := ve;
     task_cpu := cpu |}.

Definition mk_ctx (v w max_cap : Z) : eevdf_ctx :=
  {| vtime_now := v; total_weight := w; max_capacity := max_cap; ctx_pad := 0 |}.

(** A state with the given context, per-CPU capacities and queues, and no
    task storage yet. *)
Definition mk_state (g : eevdf_ctx) (caps : list Z) (big little : list dsq_entry)
  : sched_state :=
  {| global_data := [g]; cpu_capacity := caps; task_ctx_map := ∅;
     latency_hist := []; stats := []; storage_avail := true;
     dsq_big := big; dsq_little := little; dsq_local := [] |}.

(** The clamp [eevdf_enqueue] applies to the task's virtual time. *)
Definition clamp_ve (v_now q_max ve : Z) : Z :=
  if time_before ve (min_ve_of v_now q_max) then min_ve_of v_now q_max else ve.

(** The class [desired_dsq_for_task] answers when the context is there. *)
Definition desired_class (slice : Z) (g : eevdf_ctx) (p : task_struct)
    (max_cap : Z) (s : sched_state) : dsq_id :=
  let lag_boost := q_max_of slice max_cap / LAG_BOOST_DIV + 1 in
  if lag_of g p >? lag_boost then EEVDF_DSQ_BIG
  else if lag_of g p <? - lag_boost then EEVDF_DSQ_LITTLE
  else class_dsq_id (get_cpu_cap s (wrap32 (task_cpu p))) max_cap.

(** The deadline offset [eevdf_enqueue] adds to the clamped virtual time:
    the cache refresh followed by the cached division. *)
Definition enqueue_offset (val weight : Z) (tctx : option eevdf_task_ctx)
  : option (Z * option eevdf_task_ctx) :=
  tctx ← refresh_weight_cache tctx weight;
  div_by_weight_cached val weight tctx.

(** A task two's-complement-far behind the clock: [V = 2^63 + Q_max + 10]
    with [Q_max = SLICE_20MS], and [v_e = 5]. *)
Definition far_behind_ctx : eevdf_ctx := mk_ctx (2^63 + SLICE_20MS + 10) 1 1024.
Definition far_behind_task : task_struct := mk_task 1 0 5 0.
Definition far_behind_state : sched_state := mk_state far_behind_ctx [] [] [].

Definition other_dsq (id : dsq_id) : dsq_id :=
  match id with
  | EEVDF_DSQ_BIG => EEVDF_DSQ_LITTLE
  | EEVDF_DSQ_LITTLE => EEVDF_DSQ_BIG
  end.

(** [s'] is [s] with the task inserted into queue [id] under key [vd]; the
    other named queue is as it was. *)
Definition inserted_into (id : dsq_id) (p : task_struct) (slice vd : Z)
    (s s' : sched_state) : Prop :=
  dsq_of id s' =
    insert_by_vtime {| e_pid := pid p; e_slice := slice; e_vtime := vd |} (dsq_of id s) /\
  dsq_of (other_dsq id) s' = dsq_of (other_dsq id) s.

(** The class of a CPU of capacity [cap] as the spec words it. *)
Definition class_of_capacity (cap max_cap : Z) : dsq_id :=
  if BIG_CAP_PCT * max_cap <=? 100 * cap then EEVDF_DSQ_BIG else EEVDF_DSQ_LITTLE.

(** Scenario S3 of the spec: [W = 10], [V = 1000000], [v_e = 500000],
    [w_old = 2]. *)
Definition S3_ctx : eevdf_ctx := mk_ctx 1000000 10 1024.
Definition S3_task : task_struct := mk_task 2 0 500000 0.
Definition S3_state : sched_state := mk_state S3_ctx [] [] [].

(** The same task when the weight sum is below the task's own weight. *)
Definition low_sum_ctx : eevdf_ctx := mk_ctx 1000000 1 1024.
Definition low_sum_state : sched_state := mk_state low_sum_ctx [] [] [].

(** What a handler leaves in [global_data[0]], as the pair [(V, W)]. *)
Definition VW_after (r : option (task_struct * sched_state)) : option (Z * Z) :=
  r ≫= λ r, (λ g, (vtime_now g, total_weight g)) <$> get_ctx r.2.

(** The saturating sum [add_signed_vtime] implements. *)
Definition sat_u64 (x : Z) : Z := Z.min U64_MAX (Z.max 0 x).

(** The total weight [eevdf_set_weight] stores. *)
Definition set_weight_sum (W w_old w_new : Z) : Z :=
  wrap64 ((if W >=? w_old then wrap64 (W - w_old) else W) + w_new).

(** Signed truncated quotient, [sign(l) * (|l| / W)]. *)
Definition signed_quot (l W : Z) : Z := Z.sgn l * (Z.abs l / W).

(** The number of loop iterations [eevdf_dispatch] allows itself. *)
Definition dispatch_budget (nr_slots : Z) : nat :=
  Z.to_nat (Z.min (Z.max nr_slots 1) (Z.of_nat DISPATCH_BATCH_MAX)).

Definition entry_a : dsq_entry := {| e_pid := 7; e_slice := SLICE_20MS; e_vtime := 100 |}.
Definition entry_b : dsq_entry := {| e_pid := 8; e_slice := SLICE_20MS; e_vtime := 200 |}.

(** One CPU of full capacity, so of class BIG. *)
Definition big_cpu_state (big little : list dsq_entry) : sched_state :=
  mk_state (mk_ctx 0 0 1024) [1024] big little.

(** What the refresh pass must leave alone: everything but the capacity
    table and [global_data]. *)
Definition agent_frame (s s' : sched_state) : Prop :=
  task_ctx_map s' = task_ctx_map s /\ latency_hist s' = latency_hist s /\
  stats s' = stats s /\ storage_avail s' = storage_avail s /\
  dsq_big s' = dsq_big s /\ dsq_little s' = dsq_little s /\
  dsq_local s' = dsq_local s.

(** The service [eevdf_stopping] accounts, in virtual-time units. *)
Definition svc_vtime_of (slice : Z) (p : task_struct) (cap : Z) : Z :=
  wrap64 (wrap64 (wrap64 (slice - scx_slice p) * cap) * SCALE) / CAPACITY_SCALE.

(** The weight sums [eevdf_enable] and [eevdf_disable] store. *)
Definition enable_sum (W w : Z) : Z := wrap64 (W + w).
Definition disable_sum (W w : Z) : Z := if W >=? w then wrap64 (W - w) else 0.

(** The task as [eevdf_enable] leaves it. *)
Definition enabled_task (g : eevdf_ctx) (p : task_struct) : task_struct :=
  if scx_dsq_vtime p =? 0 then set_dsq_vtime p (vtime_now g) else p.

(** What a handler leaves in the task's [dsq_vtime]. *)
Definition ve_after (r : option (task_struct * sched_state)) : option Z :=
  (λ r, scx_dsq_vtime r.1) <$> r.

(** Scenario S4 of the spec: [W = 5], [V = 100], [v_e = 120], [w = 2]. *)
Definition S4_task : task_struct := mk_task 2 0 120 0.
Definition S4_state : sched_state := mk_state (mk_ctx 100 5 1024) [] [] [].

(** A task of weight 1 ahead of the clock by 100 whose weight is raised. *)
Definition ahead_task : task_struct := mk_task 1 0 1100 0.
Definition ahead_state : sched_state := mk_state (mk_ctx 1000 1 1024) [] [] [].

(** A clock at the top of the u64 range, and one past [2^63]. *)
Definition top_state : sched_state := mk_state (mk_ctx U64_MAX 1 1024) [] [] [].
Definition past_half_state : sched_state := mk_state (mk_ctx (2^63 + 5) 1 1024) [] [] [].
Definition fresh_task : task_struct := mk_task 1 0 0 0.

(** A task whose virtual time is at the top of the u64 range. *)
Definition top_task : task_struct := mk_task 1 0 U64_MAX 0.
Definition zero_state : sched_state := mk_state (mk_ctx 0 1 1024) [] [] [].

(** How far each handler may move [vtime_now]: [g], [p] before the call,
    [g'], [p'] after it. *)
Definition vtime_now_moves (slice : Z) (h : handler) (s : sched_state)
    (g : eevdf_ctx) (p : task_struct) (g' : eevdf_ctx) (p' : task_struct) : Prop :=
  let V := vtime_now g in
  let V' := vtime_now g' in
  match h with
  | H_select_cpu _ _ _ | H_enqueue _ | H_dispatch _ _ | H_init _ _ => V' = V
  | H_running => V - scx_dsq_vtime p < 2^63 -> V <= V'
  | H_stopping _ cpu =>
      V + svc_vtime_of slice p (get_cpu_cap s cpu) / total_weight g <= U64_MAX ->
      V <= V'
  | H_disable => V - V' <= Z.abs (lag_of g p) / total_weight g'
  | H_enable => V - V' <= Z.abs (lag_of g p') / total_weight g'
  | H_set_weight _ =>
      V - V' <= Z.max (Z.abs (lag_of g p) / total_weight g)
                      (Z.abs (lag_of g p) / total_weight g')
  end.

(** How each handler may move the task's [dsq_vtime]: [p] before the call,
    [p'] after it, [s] the state before. *)
Definition dsq_vtime_moves (slice : Z) (h : handler) (s : sched_state)
    (p p' : task_struct) : Prop :=
  let ve := scx_dsq_vtime p in
  let ve' := scx_dsq_vtime p' in
  match h with
  | H_enqueue _ =>
      match get_ctx s with
      | Some g =>
          let floor := min_ve_of (vtime_now g) (q_max_of slice (max_cap_of (Some g))) in
          (ve - floor < 2^63 -> ve <= ve') /\
          (- 2^63 <= ve - floor < 2^63 -> ve' = Z.max ve floor)
      | None => ve' = ve
      end
  | H_stopping _ cpu =>
      (* the increment is the quotient the handler computes: the service
         accounted on this CPU over the task's weight, through the cache *)
      exists d tctx',
        div_by_weight_cached (svc_vtime_of slice p (get_cpu_cap s cpu))
          (clamp_weight (scx_weight p)) (get_task_ctx p false s).1
          = Some (d, tctx') /\
        0 <= d /\ ve' = wrap64 (ve + d) /\
        (ve + d <= U64_MAX -> ve' = ve + d /\ ve <= ve')
  | H_enable =>
      match get_ctx s with
      | Some g => ((ve = 0 /\ ve' = vtime_now g) \/ (ve <> 0 /\ ve' = ve)) /\ ve <= ve'
      | None => ve' = ve
      end
  | H_select_cpu _ _ _ | H_dispatch _ _ | H_running | H_set_weight _
  | H_disable | H_init _ _ => ve' = ve
  end.

(** ** Comparing the heterogeneous and the classical enqueue *)

(** [eevdf_enqueue] stores [ve'] in the task and inserts it under key [vd]. *)
Definition het_enqueues (slice : Z) (p : task_struct) (fl : Z) (s : sched_state)
    (ve' vd : Z) : Prop :=
  exists dsq s1,
    eevdf_enqueue slice p fl s =
      Some (set_dsq_vtime p ve',
            scx_bpf_dsq_insert_vtime (set_dsq_vtime p ve') dsq slice vd fl s1).

Definition classic_enqueues (slice : Z) (p : task_struct) (fl : Z)
    (c : Classic.sched_state) (ve' vd : Z) : Prop :=
  Classic.eevdf_enqueue slice p fl c =
    Some (set_dsq_vtime p ve',
          Classic.scx_bpf_dsq_insert_vtime (set_dsq_vtime p ve') slice vd fl
            (Classic.stat_inc 1 c)).

(** The deadline offset of the heterogeneous enqueue on a coherent context:
    the reciprocal quotient on the fast path, the exact one beyond it. *)
Definition het_offset (val w : Z) : Z :=
  if val <=? U32_MAX then val * inv_of w / 2^20 else val / w.

(** The keys queued after an enqueue into empty queues. *)
Definition het_keys (r : option (task_struct * sched_state)) : option (list Z) :=
  (λ r, e_vtime <$> (dsq_big r.2 ++ dsq_little r.2)) <$> r.

Definition classic_keys (r : option (task_struct * Classic.sched_state))
  : option (list Z) :=
  (λ r, e_vtime <$> Classic.shared_dsq r.2) <$> r.

(** Homogeneous states, every capacity [CAPACITY_SCALE], at clock [v]. *)
Definition homog_state (v : Z) : sched_state :=
  mk_state (mk_ctx v 3 1024) [1024; 1024] [] [].

Definition classic_state (v : Z) : Classic.sched_state :=
  {| Classic.global_data := [{| Classic.vtime_now := v; Classic.total_weight := 3 |}];
     Classic.stats := [0; 0]; Classic.shared_dsq := [] |}.

Definition task_A0 : task_struct := mk_task 1 0 0 0.
Definition task_B0 : task_struct :=
  {| pid := 2; scx_weight := 2; scx_slice := 0;
     scx_dsq_vtime := 60 * SLICE_20MS; task_cpu := 0 |}.

Definition task_A1 : task_struct := mk_task 3 0 (20000000000 + 1333333500) 0.
Definition task_B1 : task_struct :=
  {| pid := 2; scx_weight := 1; scx_slice := 0;
     scx_dsq_vtime := 20000000000; task_cpu := 0 |}.

(** A queue in key order. *)
Definition dsq_sorted (q : list dsq_entry) : Prop :=
  StronglySorted (λ a b, e_vtime a <= e_vtime b) q.

(** ** Quantities of the capacity-refresh pass *)

(** The largest capacity the loop has read once it has visited CPUs
    [0 .. n-1]; the accumulator starts at [0]. *)
Fixpoint max_read (sysfs : Z -> sysfs_file) (n : nat) : Z :=
  match n with
  | O => 0
  | S n' =>
      let cap := read_capacity (sysfs (Z.of_nat n')) in
      if cap >? max_read sysfs n' then cap else max_read sysfs n'
  end.

(** Slot [i] of the capacity table once the loop has visited CPUs
    [0 .. n-1], given the table [tbl] it started from: a slot that exists
    and was visited holds what the agent read, any other is as it was. *)
Definition refreshed_entry (sysfs : Z -> sysfs_file) (tbl : list Z) (n i : nat)
  : option Z :=
  if bool_decide (i < n)%nat
  then (λ _, read_capacity (sysfs (Z.of_nat i))) <$> tbl !! i
  else tbl !! i.

(** Whether the table already holds, for each of the CPUs [0 .. n-1], what
    the agent reads for it. *)
Fixpoint table_fresh (sysfs : Z -> sysfs_file) (tbl : list Z) (n : nat) : bool :=
  match n with
  | O => true
  | S n' =>
      table_fresh sysfs tbl n' &&
      bool_decide (tbl !! n' = Some (read_capacity (sysfs (Z.of_nat n'))))
  end.

(** A four-CPU hybrid machine: two cores of capacity 1024, one of 512 and
    one without a sysfs file. *)
Definition hybrid_sysfs (cpu : Z) : sysfs_file :=
  if cpu <? 2 then Scanned (Some 1024)
  else if cpu =? 2 then Scanned (Some 512) else NoFile.

Definition boot_state : sched_state := mk_state (mk_ctx 0 0 0) [0; 0; 0; 0] [] [].

(** ** Comparing the other handlers with the classical ones *)

(** What a classical handler leaves in [global_data[0]], as the pair
    [(V, W)]. *)
Definition classic_VW (r : option (task_struct * Classic.sched_state))
  : option (Z * Z) :=
  r ≫= λ r, (λ g, (Classic.vtime_now g, Classic.total_weight g))
             <$> Classic.get_ctx r.2.

(** The two schedulers hold the same clock and the same weight sum. *)
Definition same_clock (s : sched_state) (c : Classic.sched_state) : Prop :=
  exists g gc,
    get_ctx s = Some g /\ Classic.get_ctx c = Some gc /\
    Classic.vtime_now gc = vtime_now g /\
    Classic.total_weight gc = total_weight g.

(** A classical state with clock [v], weight sum [w] and an empty queue. *)
Definition classic_ctx_state (v w : Z) : Classic.sched_state :=
  {| Classic.global_data := [{| Classic.vtime_now := v; Classic.total_weight := w |}];
     Classic.stats := [0; 0]; Classic.shared_dsq := [] |}.

(** The change [eevdf_set_weight] applies to the clock, before it is
    saturated (here) or wrapped (in the classical scheduler). *)
Definition set_weight_shift (l W W2 : Z) : Z :=
  if (W =? 0) || (W2 =? 0) then 0
  else s64_sub (signed_quot l W) (signed_quot l W2).

(** A task that used 5 ms of its 20 ms slice. *)
Definition ran_5ms_task : task_struct := mk_task 3 (SLICE_20MS - 5000000) 1000 0.

(** ** The latency report of the userspace agent (built with telemetry) *)

Definition LAT_BUCKETS : Z := 64.

(** The per-CPU histogram map as the agent reads it: under each key the
    values of all possible CPUs.  A lookup of a key the map does not hold
    fails. *)
Definition percpu_map := list (list Z).

(** [for (c = 0; c < ncpu; c++) acc += percpu_vals[c]]; the buffer was
    zeroed before the lookup filled it. *)
Definition sum_cpus (ncpu : Z) (percpu_vals : list Z) (acc : Z) : Z :=
  fold_left (λ acc c, wrap64 (acc + default 0 (percpu_vals !! Z.to_nat c)))
    (seqZ 0 ncpu) acc.

(** The first loop of [read_latency_p95]; the accumulator is
    [(buckets, total)]. *)
Definition read_bucket (ncpu : Z) (hist : percpu_map) (acc : list Z * Z) (i : Z)
  : list Z * Z :=
  let '(buckets, total) := acc in
  match hist !! Z.to_nat i with
  | None => (buckets, total)
  | Some percpu_vals =>
      let b := sum_cpus ncpu percpu_vals (default 0 (buckets !! Z.to_nat i)) in
      (<[Z.to_nat i := b]> buckets, wrap64 (total + b))
  end.

(** The second loop: the first bucket at which the running count reaches
    95% of the total; [None] when the loop ends without printing. *)
Fixpoint find_p95 (buckets : list Z) (i cum total : Z) : option Z :=
  match buckets with
  | [] => None
  | b :: rest =>
      let cum := wrap64 (cum + b) in
      if wrap64 (cum * 100) >=? wrap64 (total * 95) then Some i
      else find_p95 rest (i + 1) cum total
  end.

(** What [read_latency_p95] prints: the sample count and, if the second
    loop finds one, the bucket index. *)
Inductive p95_report :=
| NoSamples
| Samples (total : Z) (bucket : option Z).

(** [alloc_ok] is whether [malloc] succeeded; without the buffer nothing is
    printed. *)
Definition read_latency_p95 (alloc_ok : bool) (ncpu : Z) (hist : percpu_map)
  : option p95_report :=
  if negb alloc_ok then None
  else
    let '(buckets, total) :=
      fold_left (read_bucket ncpu hist) (seqZ 0 LAT_BUCKETS)
        (replicate (Z.to_nat LAT_BUCKETS) 0, 0) in
    if total =? 0 then Some NoSamples
    else Some (Samples total (find_p95 buckets 0 0 total)).

(** [reset_latency_hist]: every key is overwritten with [ncpu] zeros. *)
Definition reset_latency_hist (alloc_ok : bool) (ncpu : Z) (hist : percpu_map)
  : percpu_map :=
  if negb alloc_ok then hist
  else
    fold_left (λ h i, <[Z.to_nat i := replicate (Z.to_nat ncpu) 0]> h)
      (seqZ 0 LAT_BUCKETS) hist.

(** The samples of bucket [i] over the CPUs [0 .. ncpu-1], and the samples
    of the buckets [0 .. j]. *)
Definition bucket_count (ncpu : Z) (hist : percpu_map) (i : nat) : Z :=
  match hist !! i with
  | Some vals =>
      foldr Z.add 0 ((λ c, default 0 (vals !! Z.to_nat c)) <$> seqZ 0 ncpu)
  | None => 0
  end.

Definition cum_count (ncpu : Z) (hist : percpu_map) (j : nat) : Z :=
  foldr Z.add 0 (bucket_count ncpu hist <$> seq 0 (S j)).

(** Two CPUs; 90 samples in bucket 10, 8 in bucket 12 and 2 in bucket 20. *)
Definition sample_hist : percpu_map :=
  <[20%nat := [1; 1]]> (<[12%nat := [8; 0]]> (<[10%nat := [40; 50]]>
    (replicate 64 [0; 0]))).

(** ** The latency histograms of the benchmark tracer *)

Definition HIST_BUCKETS : Z := 32.

(** The scan [for (int i = 31; i >= 0; i--)] of [log2_bucket], with [n]
    values of [i] left to try; [bit] stays [0] when no bit is found. *)
Fixpoint log2_scan (val : Z) (n : nat) : Z :=
  match n with
  | O => 0
  | S i =>
      if negb (Z.land val (Z.shiftl 1 (Z.of_nat i)) =? 0) then Z.of_nat i
      else log2_scan val i
  end.

Definition log2_bucket (val : Z) : Z :=
  if val =? 0 then 0
  else
    let bit := log2_scan val 32 in
    if bit <? HIST_BUCKETS then bit else HIST_BUCKETS - 1.

Record hist := {
  bucket : list Z;   (* u64 bucket[HIST_BUCKETS] *)
  count : Z;         (* u64 *)
  total_ns : Z;      (* u64 *)
  min_ns : Z;        (* u64 *)
  max_ns : Z         (* u64 *)
}.

(** [hists] is this CPU's copy of the per-CPU array, one [hist] per
    latency type. *)
Definition record_latency (type delta_ns : Z) (hists : list hist) : list hist :=
  match hists !! Z.to_nat type with
  | None => hists
  | Some h =>
      let slot := log2_bucket delta_ns in
      let bucket :=
        if slot <? HIST_BUCKETS then
          match bucket h !! Z.to_nat slot with
          | Some cnt => <[Z.to_nat slot := wrap64 (cnt + 1)]> (bucket h)
          | None => bucket h
          end
        else bucket h in
      let min_ns :=
        if (min_ns h =? 0) || (delta_ns <? min_ns h) then delta_ns else min_ns h in
      let max_ns := if delta_ns >? max_ns h then delta_ns else max_ns h in
      <[Z.to_nat type :=
          {| bucket := bucket; count := wrap64 (count h + 1);
             total_ns := wrap64 (total_ns h + delta_ns);
             min_ns := min_ns; max_ns := max_ns |}]> hists
  end.

(** A histogram as the map holds it when the tracer is loaded. *)
Definition hist_zero : hist :=
  {| bucket := replicate 32 0; count := 0; total_ns := 0; min_ns := 0; max_ns := 0 |}.

(** Recording a run of samples of one latency type, oldest first. *)
Definition record_all (type : Z) (samples : list Z) (hists : list hist) : list hist :=
  fold_left (λ hs d, record_latency type d hs) samples hists.

(** The least of a run of samples, [0] for the empty run. *)
Definition least_sample (samples : list Z) : Z :=
  match samples with
  | [] => 0
  | d :: rest => foldr Z.min d rest
  end.

(** What the tracer's histogram holds after the samples [ds]. *)
Definition hist_holds (h : hist) (ds : list Z) : Prop :=
  length (bucket h) = 32%nat /\ Forall (Z.le 0) (bucket h) /\
  count h = Z.of_nat (length ds) /\
  foldr Z.add 0 (bucket h) = Z.of_nat (length ds) /\
  total_ns h = wrap64 (foldr Z.add 0 ds) /\
  min_ns h = least_sample ds /\
  max_ns h = foldr Z.max 0 ds.

(** Four empty histograms, one per latency type. *)
Definition fresh_hists : list hist := replicate 4 hist_zero.

(** ** Quantities of [select_cpu] *)

(** The class [eevdf_select_cpu] gives a CPU the runtime names; a negative
    answer (no CPU) is read at full capacity. *)
Definition cpu_class (s : sched_state) (cpu : Z) : dsq_id :=
  class_dsq_id (if cpu >=? 0 then get_cpu_cap s (wrap32 cpu) else CAPACITY_SCALE)
    (max_cap_of (get_ctx s)).

(** One big CPU (0) and one little CPU (1), the clock at 1000; a task far
    ahead of the clock, last run on CPU 0; and a runtime that finds CPU 0
    busy and offers the idle CPU 1. *)
Definition big_little_state : sched_state :=
  mk_state (mk_ctx 1000 1 1024) [1024; 512] [] [].
Definition ahead_of_clock_task : task_struct := mk_task 1 0 (1000 + SLICE_20MS) 0.
Definition busy_pick : cpu_pick :=
  {| dfl_cpu := 0; dfl_idle := false; any_idle_cpu := 1 |}.

(** * Proofs *)

(** ** The integer layer *)

Lemma udiv_Some a b : b <> 0 -> udiv a b = Some (a / b).
Proof. intros Hb. unfold udiv. destruct (Z.eqb_spec b 0); [lia | reflexivity]. Qed.

Lemma wrap64_small x : 0 <= x < 2^64 -> wrap64 x = x.
Proof. intros H. unfold wrap64. apply Z.mod_small. lia. Qed.

Lemma wrap32_small x : 0 <= x < 2^32 -> wrap32 x = x.
Proof. intros H. unfold wrap32. apply Z.mod_small. lia. Qed.

Lemma wrap64_range x : 0 <= wrap64 x < 2^64.
Proof. unfold wrap64. apply Z.mod_pos_bound. lia. Qed.

Lemma is_u32_spec x : is_u32 x = true <-> 0 <= x < 2^32.
Proof. unfold is_u32. rewrite andb_true_iff, Z.leb_le, Z.ltb_lt. tauto. Qed.

Lemma clamp1_nonzero w : (if w =? 0 then 1 else w) <> 0.
Proof. destruct (Z.eqb_spec w 0); lia. Qed.

Lemma div_bounds a b : 0 < b -> b * (a / b) <= a < b * (a / b) + b.
Proof.
  intros Hb. pose proof (Z.mul_div_le a b Hb).
  pose proof (Z.mul_succ_div_gt a b Hb). lia.
Qed.

Lemma to_s64_small x : 0 <= x < 2^63 -> to_s64 x = x.
Proof.
  intros H. unfold to_s64. rewrite wrap64_small by lia.
  destruct (Z.ltb_spec x (2^63)); lia.
Qed.

Lemma to_s64_signed x : - 2^63 <= x < 2^63 -> to_s64 x = x.
Proof.
  intros H. destruct (Z_lt_le_dec x 0) as [Hneg|Hpos]; [| apply to_s64_small; lia].
  unfold to_s64, wrap64.
  replace (x mod 2^64) with (x + 2^64).
  - destruct (Z.ltb_spec (x + 2^64) (2^63)); lia.
  - apply Z.mod_unique with (q := -1); lia.
Qed.

Lemma to_s64_range x : - 2^63 <= to_s64 x < 2^63.
Proof.
  unfold to_s64. pose proof (wrap64_range x).
  destruct (Z.ltb_spec (wrap64 x) (2^63)); lia.
Qed.

Lemma to_s64_high x : 2^63 <= x < 2^64 -> to_s64 x = x - 2^64.
Proof.
  intros H. unfold to_s64. rewrite wrap64_small by lia.
  destruct (Z.ltb_spec x (2^63)); lia.
Qed.

(** ** Weight cache and reciprocal division *)

Lemma inv_of_range w : 1 <= w < 2^32 -> 1 <= inv_of w <= 2^20.
Proof.
  intros Hw. unfold inv_of, INV_SHIFT.
  change (Z.shiftl 1 20) with (2^20).
  pose proof (div_bounds w 2 ltac:(lia)) as Hh.
  rewrite wrap64_small by lia.
  assert (Hhi : (2^20 + w / 2) / w <= 2^20)
    by (apply Z.div_le_upper_bound; lia).
  assert (Hlo : 0 <= (2^20 + w / 2) / w) by (apply Z.div_pos; lia).
  destruct (Z.eqb_spec ((2^20 + w / 2) / w) 0);
    rewrite wrap32_small by lia; lia.
Qed.

Lemma inv_of_eq w : 1 <= w <= 2^20 -> inv_of w = (2^20 + w / 2) / w.
Proof.
  intros Hw. unfold inv_of, INV_SHIFT.
  change (Z.shiftl 1 20) with (2^20).
  pose proof (div_bounds w 2 ltac:(lia)) as Hh.
  rewrite wrap64_small by lia.
  assert (Hlo : 1 <= (2^20 + w / 2) / w) by (apply Z.div_le_lower_bound; lia).
  assert (Hhi : (2^20 + w / 2) / w <= 2^20)
    by (apply Z.div_le_upper_bound; lia).
  destruct (Z.eqb_spec ((2^20 + w / 2) / w) 0); [lia |].
  apply wrap32_small. lia.
Qed.

(** [refresh_weight_cache] never divides by zero; on a context it leaves the
    weight (zero read as one) and an inverse behind. *)
Lemma refresh_weight_cache_Some (t : eevdf_task_ctx) (w : Z) :
  exists t', refresh_weight_cache (Some t) w = Some (Some t') /\
    weight_cached t' = (if w =? 0 then 1 else w) /\
    ((weight_cached t = (if w =? 0 then 1 else w) /\ inv_weight t <> 0 /\ t' = t) \/
     inv_weight t' = inv_of (if w =? 0 then 1 else w)).
Proof.
  unfold refresh_weight_cache.
  set (w1 := if w =? 0 then 1 else w).
  assert (Hw1 : w1 <> 0) by apply clamp1_nonzero.
  destruct (Z.eqb_spec (weight_cached t) w1) as [Heq|Hne]; simpl.
  - destruct (Z.eqb_spec (inv_weight t) 0) as [Hz|Hnz]; simpl.
    + repeat (rewrite udiv_Some by (assumption || lia); simpl).
      eexists. split; [reflexivity |]. split; [reflexivity |]. right. reflexivity.
    + exists t. split; [reflexivity |]. split; [assumption |]. left. auto.
  - repeat (rewrite udiv_Some by (assumption || lia); simpl).
    eexists. split; [reflexivity |]. split; [reflexivity |]. right. reflexivity.
Qed.

Lemma refresh_weight_cache_total (tctx : option eevdf_task_ctx) (w : Z) :
  exists tctx', refresh_weight_cache tctx w = Some tctx' /\
    (tctx = None <-> tctx' = None).
Proof.
  destruct tctx as [t|].
  - destruct (refresh_weight_cache_Some t w) as (t' & H & _).
    exists (Some t'). split; [assumption |]. split; discriminate.
  - exists None. split; [reflexivity | tauto].
Qed.

Lemma refresh_weight_cache_coherent (t : eevdf_task_ctx) (w : Z) :
  tctx_coherent t ->
  exists t', refresh_weight_cache (Some t) w = Some (Some t') /\
    weight_cached t' = (if w =? 0 then 1 else w) /\
    inv_weight t' = inv_of (if w =? 0 then 1 else w).
Proof.
  intros Hc. destruct (refresh_weight_cache_Some t w) as (t' & H & Hw & Hi).
  exists t'. split; [assumption |]. split; [assumption |].
  destruct Hi as [(Hwc & Hnz & ->) | Hi]; [| assumption].
  destruct Hc as [Hz | [_ Hinv]]; [contradiction |]. rewrite Hinv, Hwc. reflexivity.
Qed.

(** Coherence is an invariant of the only writer. *)
Lemma refresh_weight_cache_keeps_coherent (t t' : eevdf_task_ctx) (w : Z) :
  tctx_coherent t -> refresh_weight_cache (Some t) w = Some (Some t') ->
  tctx_coherent t'.
Proof.
  intros Hc Hr.
  destruct (refresh_weight_cache_coherent t w Hc) as (t1 & Hr1 & Hw & Hi).
  rewrite Hr1 in Hr. injection Hr as <-.
  right. rewrite Hw, Hi. split; [apply clamp1_nonzero | reflexivity].
Qed.

Lemma div_by_weight_cached_total (val w : Z) (tctx : option eevdf_task_ctx) :
  exists q tctx', div_by_weight_cached val w tctx = Some (q, tctx') /\
    (tctx = None <-> tctx' = None).
Proof.
  unfold div_by_weight_cached.
  set (w1 := if w =? 0 then 1 else w).
  assert (Hw1 : w1 <> 0) by apply clamp1_nonzero.
  destruct (refresh_weight_cache_total tctx w1) as (tctx' & -> & Hnone). simpl.
  destruct tctx' as [t'|].
  - destruct (negb (inv_weight t' =? 0) && (val <=? U32_MAX)).
    + eauto.
    + rewrite udiv_Some by assumption. simpl. eauto.
  - rewrite udiv_Some by assumption. simpl. eauto.
Qed.

Lemma reciprocal_error w val :
  1 <= w <= 2^20 -> 0 <= val ->
  Z.abs (val * ((2^20 + w / 2) / w) / 2^20 - val / w) <= val / 2^21 + 1.
Proof.
  intros Hw Hval.
  pose proof (div_bounds w 2 ltac:(lia)) as Hh.
  pose proof (div_bounds (2^20 + w / 2) w ltac:(lia)) as HI.
  pose proof (div_bounds (val * ((2^20 + w / 2) / w)) (2^20) ltac:(lia)) as Hq.
  pose proof (div_bounds val w ltac:(lia)) as He.
  pose proof (div_bounds val (2^21) ltac:(lia)) as Hk.
  set (h := w / 2) in *.
  set (I := (2^20 + h) / w) in *.
  set (q := val * I / 2^20) in *.
  set (e := val / w) in *.
  set (k := val / 2^21) in *.
  assert (HwI1 : val * (w * I) <= val * (2^20 + h)) by (apply Z.mul_le_mono_nonneg_l; lia).
  assert (HwI2 : val * (2^20 + h - w + 1) <= val * (w * I)) by (apply Z.mul_le_mono_nonneg_l; lia).
  assert (Hq1 : w * (2^20 * q) <= w * (val * I)) by (apply Z.mul_le_mono_nonneg_l; lia).
  assert (Hq2 : w * (val * I) + w <= w * (2^20 * q + 2^20)) by nia.
  assert (Hvh1 : 2 * (val * h) <= val * w) by nia.
  assert (Hvh2 : val * w <= 2 * (val * h) + val) by nia.
  assert (Hk1 : w * (2^21 * k) <= w * val) by (apply Z.mul_le_mono_nonneg_l; lia).
  assert (Hk2 : w * val + w <= w * (2^21 * k + 2^21)) by nia.
  apply Z.abs_le. split.
  - destruct (Z_le_gt_dec (- (k + 1)) (q - e)) as [|Hc]; [assumption | exfalso].
    assert (w * (q + 1) <= w * (e - k - 1)) by (apply Z.mul_le_mono_nonneg_l; lia).
    nia.
  - destruct (Z_le_gt_dec (q - e) (k + 1)) as [|Hc]; [assumption | exfalso].
    assert (w * (e + k + 2) <= w * q) by (apply Z.mul_le_mono_nonneg_l; lia).
    nia.
Qed.

(** The fast path of [div_by_weight_cached] on a coherent context. *)
Lemma div_by_weight_cached_fast (val w : Z) (t : eevdf_task_ctx) :
  1 <= w < 2^32 -> 0 <= val <= U32_MAX -> tctx_coherent t ->
  exists t', div_by_weight_cached val w (Some t) =
               Some (val * inv_of w / 2^20, Some t') /\
             weight_cached t' = w /\ inv_weight t' = inv_of w.
Proof.
  intros Hw Hval Hc. unfold div_by_weight_cached.
  destruct (Z.eqb_spec w 0) as [|_]; [lia |].
  destruct (refresh_weight_cache_coherent t w Hc) as (t' & -> & Hwc & Hinv).
  destruct (Z.eqb_spec w 0) as [|_]; [lia |]. simpl.
  pose proof (inv_of_range w Hw) as Hr.
  rewrite Hinv.
  destruct (Z.eqb_spec (inv_of w) 0) as [|_]; [lia |].
  destruct (Z.leb_spec val U32_MAX) as [_|]; [| lia]. simpl.
  unfold U32_MAX in Hval.
  exists t'. split; [| auto].
  rewrite wrap32_small by lia.
  rewrite wrap64_small by nia.
  unfold INV_SHIFT. rewrite Z.shiftr_div_pow2 by lia. reflexivity.
Qed.

(** C4, as stated, fails: for weight 3 and the largest value of the fast
    path the reciprocal quotient is 1366 below the exact one. *)
Lemma C4_counterexample :
  1 <= 3 <= 2^20 /\ 0 <= 4294967295 <= 2^32 - 1 /\
  div_by_weight_cached 4294967295 3 (Some tctx_zero)
    = Some (1431654399, Some {| weight_cached := 3; inv_weight := (2^20 + 3 / 2) / 3 |}) /\
  4294967295 * ((2^20 + 3 / 2) / 3) / 2^20 = 1431654399 /\
  4294967295 / 3 = 1431655765 /\
  ~ Z.abs (1431654399 - 4294967295 / 3) <= 1.
Proof.
  repeat split; try lia; try (vm_compute; congruence).
Qed.

(** C4 (amended): for every weight [w] in [1, 2^20] and every [val] in
    [0, 2^32 - 1], on a coherent task context the cached inverse is
    [(2^20 + w/2)/w] and the fast division [(val * w_inv) >> 20] that
    [div_by_weight_cached] returns differs from the exact quotient [val / w]
    by at most [val / 2^21 + 1]: by at most 1 for [val < 2^21] and by at
    most 2048 over the whole range. *)
Theorem C4_reciprocal_error_bound (w val : Z) (t : eevdf_task_ctx) :
  1 <= w <= 2^20 -> 0 <= val <= 2^32 - 1 -> tctx_coherent t ->
  exists q t',
    div_by_weight_cached val w (Some t) = Some (q, Some t') /\
    inv_weight t' = (2^20 + w / 2) / w /\
    q = Z.shiftr (val * inv_weight t') INV_SHIFT /\
    Z.abs (q - val / w) <= val / 2^21 + 1 /\
    Z.abs (q - val / w) <= 2048 /\
    (val < 2^21 -> Z.abs (q - val / w) <= 1).
Proof.
  intros Hw Hval Hc.
  destruct (div_by_weight_cached_fast val w t) as (t' & Hdiv & Hwc & Hinv);
    [lia | unfold U32_MAX; lia | assumption |].
  rewrite inv_of_eq in Hdiv, Hinv by assumption.
  pose proof (reciprocal_error w val Hw ltac:(lia)) as Herr.
  exists (val * ((2^20 + w / 2) / w) / 2^20), t'.
  split; [assumption |]. split; [assumption |].
  split. { rewrite Hinv. unfold INV_SHIFT. rewrite Z.shiftr_div_pow2 by lia. reflexivity. }
  split; [assumption |].
  assert (Hk : 0 <= val / 2^21 <= 2047).
  { split; [apply Z.div_pos; lia |].
    apply Z.lt_succ_r. apply Z.div_lt_upper_bound; lia. }
  split; [lia |].
  intros Hsmall. rewrite (Z.div_small val (2^21)) in Herr by lia. lia.
Qed.

Lemma C4_reciprocal_error_bound_witness :
  exists q t',
    div_by_weight_cached 2000000000 3 (Some tctx_zero) = Some (q, Some t') /\
    inv_weight t' = (2^20 + 3 / 2) / 3 /\
    q = Z.shiftr (2000000000 * inv_weight t') INV_SHIFT /\
    Z.abs (q - 2000000000 / 3) <= 2000000000 / 2^21 + 1 /\
    Z.abs (q - 2000000000 / 3) <= 2048 /\
    (2000000000 < 2^21 -> Z.abs (q - 2000000000 / 3) <= 1).
Proof.
  apply (C4_reciprocal_error_bound 3 2000000000 tctx_zero).
  - lia.
  - lia.
  - left. reflexivity.
Defined.

(** ** Signed lag, signed division, saturating update *)

Lemma to_s64_add_mul x k : to_s64 (x + k * 2^64) = to_s64 x.
Proof. unfold to_s64, wrap64. rewrite Z_mod_plus_full. reflexivity. Qed.

Lemma to_s64_cases x :
  0 <= x < 2^64 -> to_s64 x = x \/ to_s64 x = x - 1 * 2^64.
Proof.
  intros H. destruct (Z_lt_le_dec x (2^63)).
  - left. apply to_s64_small. lia.
  - right. rewrite to_s64_high by lia. lia.
Qed.

Lemma s64_sub_casts a b :
  0 <= a < 2^64 -> 0 <= b < 2^64 ->
  s64_sub (to_s64 a) (to_s64 b) = to_s64 (a - b).
Proof.
  intros Ha Hb. unfold s64_sub.
  destruct (to_s64_cases a Ha) as [-> | ->], (to_s64_cases b Hb) as [-> | ->].
  - reflexivity.
  - replace (a - (b - 1 * 2^64)) with (a - b + 1 * 2^64) by lia.
    apply to_s64_add_mul.
  - replace (a - 1 * 2^64 - b) with (a - b + (-1) * 2^64) by lia.
    apply to_s64_add_mul.
  - replace (a - 1 * 2^64 - (b - 1 * 2^64)) with (a - b) by lia. reflexivity.
Qed.

Lemma lag_of_eq g p :
  0 <= vtime_now g < 2^64 -> 0 <= scx_dsq_vtime p < 2^64 ->
  lag_of g p = to_s64 (vtime_now g - scx_dsq_vtime p).
Proof. intros. unfold lag_of. apply s64_sub_casts; assumption. Qed.

Lemma lag_of_exact g p :
  0 <= vtime_now g < 2^64 -> 0 <= scx_dsq_vtime p < 2^64 ->
  - 2^63 <= vtime_now g - scx_dsq_vtime p < 2^63 ->
  lag_of g p = vtime_now g - scx_dsq_vtime p.
Proof. intros. rewrite lag_of_eq by assumption. apply to_s64_signed. assumption. Qed.

Lemma lag_of_range g p : - 2^63 <= lag_of g p < 2^63.
Proof. unfold lag_of, s64_sub. apply to_s64_range. Qed.

Lemma abs_s64_to_u64_eq v : - 2^63 <= v < 2^63 -> abs_s64_to_u64 v = Z.abs v.
Proof.
  intros Hv. unfold abs_s64_to_u64.
  destruct (Z.geb_spec v 0).
  - rewrite wrap64_small by lia. lia.
  - unfold s64_add, s64_neg. rewrite (to_s64_signed (v + 1)) by lia.
    rewrite (to_s64_signed (- (v + 1))) by lia.
    rewrite (wrap64_small (- (v + 1))) by lia.
    rewrite wrap64_small by lia. lia.
Qed.

Lemma s64_neg_abs q : - 2^63 <= q < 2^63 -> Z.abs (s64_neg q) = Z.abs q.
Proof.
  intros Hq. unfold s64_neg.
  destruct (Z.eq_dec q (- 2^63)) as [-> | Hne].
  - vm_compute. reflexivity.
  - rewrite to_s64_signed by lia. lia.
Qed.

Lemma s64_neg_range q : - 2^63 <= s64_neg q < 2^63.
Proof. apply to_s64_range. Qed.

(** [div_signed_u64] never divides by zero and truncates toward zero. *)
Lemma div_signed_u64_eq num den :
  - 2^63 <= num < 2^63 -> 0 <= den < 2^64 ->
  div_signed_u64 num den =
    Some (if den =? 0 then 0 else Z.sgn num * (Z.abs num / den)).
Proof.
  intros Hn Hd. unfold div_signed_u64.
  destruct (Z.eqb_spec den 0) as [|Hnz]; [reflexivity |].
  rewrite udiv_Some by assumption. simpl.
  rewrite abs_s64_to_u64_eq by assumption.
  assert (Hq : 0 <= Z.abs num / den <= Z.abs num).
  { split; [apply Z.div_pos; lia |].
    apply Z.div_le_upper_bound; [lia |]. nia. }
  destruct (Z.ltb_spec num 0).
  - f_equal. unfold s64_neg.
    destruct (Z.eq_dec (Z.abs num / den) (2^63)) as [He | Hne].
    + rewrite He. vm_compute (to_s64 (- to_s64 (2^63))). lia.
    + rewrite (to_s64_small (Z.abs num / den)) by lia.
      rewrite to_s64_signed by lia. lia.
  - f_equal. rewrite to_s64_small by lia.
    destruct (Z.eq_dec num 0) as [-> | ?]; [reflexivity |].
    rewrite Z.sgn_pos by lia. lia.
Qed.

Lemma div_signed_u64_total num den : is_Some (div_signed_u64 num den).
Proof.
  unfold div_signed_u64. destruct (Z.eqb_spec den 0); [eauto |].
  rewrite udiv_Some by assumption. simpl. destruct (num <? 0); eauto.
Qed.

(** [add_signed_vtime] is the saturating sum on u64 and touches nothing
    else. *)
Lemma add_signed_vtime_eq g delta :
  0 <= vtime_now g < 2^64 -> - 2^63 <= delta < 2^63 ->
  add_signed_vtime g delta =
    with_vtime_now g (Z.min U64_MAX (Z.max 0 (vtime_now g + delta))).
Proof.
  intros HV Hd. unfold add_signed_vtime, U64_MAX.
  destruct (Z.geb_spec delta 0).
  - rewrite (wrap64_small delta) by lia.
    rewrite (wrap64_small (2^64 - 1 - delta)) by lia.
    destruct (Z.gtb_spec (vtime_now g) (2^64 - 1 - delta)).
    + f_equal. lia.
    + rewrite wrap64_small by lia. f_equal. lia.
  - rewrite abs_s64_to_u64_eq by assumption.
    destruct (Z.gtb_spec (vtime_now g) (Z.abs delta)).
    + rewrite wrap64_small by lia. f_equal. lia.
    + f_equal. lia.
Qed.

(** ** State plumbing *)

Lemma get_task_ctx_frame p create s :
  let s' := (get_task_ctx p create s).2 in
  global_data s' = global_data s /\ cpu_capacity s' = cpu_capacity s /\
  dsq_big s' = dsq_big s /\ dsq_little s' = dsq_little s /\
  dsq_local s' = dsq_local s /\ latency_hist s' = latency_hist s /\
  stats s' = stats s.
Proof.
  unfold get_task_ctx. destruct (task_ctx_map s !! pid p); simpl; [tauto |].
  destruct (create && storage_avail s); simpl; tauto.
Qed.

Lemma put_task_ctx_frame p tctx s :
  let s' := put_task_ctx p tctx s in
  global_data s' = global_data s /\ cpu_capacity s' = cpu_capacity s /\
  dsq_big s' = dsq_big s /\ dsq_little s' = dsq_little s /\
  dsq_local s' = dsq_local s /\ latency_hist s' = latency_hist s /\
  stats s' = stats s.
Proof. unfold put_task_ctx. destruct tctx; simpl; tauto. Qed.

Lemma get_ctx_get_task_ctx p create s :
  get_ctx (get_task_ctx p create s).2 = get_ctx s.
Proof. unfold get_ctx. destruct (get_task_ctx_frame p create s) as (-> & _). reflexivity. Qed.

Lemma get_ctx_put_task_ctx p tctx s : get_ctx (put_task_ctx p tctx s) = get_ctx s.
Proof. unfold get_ctx. destruct (put_task_ctx_frame p tctx s) as (-> & _). reflexivity. Qed.

Lemma get_ctx_put_ctx g s : is_Some (get_ctx s) -> get_ctx (put_ctx g s) = Some g.
Proof.
  unfold get_ctx, put_ctx. simpl. intros [g0 H].
  destruct (global_data s); [discriminate | reflexivity].
Qed.

Lemma get_ctx_insert_vtime p id slice v fl s :
  get_ctx (scx_bpf_dsq_insert_vtime p id slice v fl s) = get_ctx s.
Proof. destruct id; reflexivity. Qed.

Lemma get_ctx_move_to_local id s :
  get_ctx (scx_bpf_dsq_move_to_local id s).2 = get_ctx s.
Proof.
  unfold scx_bpf_dsq_move_to_local. destruct id; simpl.
  - destruct (dsq_big s); reflexivity.
  - destruct (dsq_little s); reflexivity.
Qed.

Lemma get_cpu_cap_range s cpu :
  Forall (fun c => is_u32 c = true) (cpu_capacity s) ->
  1 <= get_cpu_cap s cpu < 2^32.
Proof.
  intros Hall. unfold get_cpu_cap, CAPACITY_SCALE.
  destruct (cpu_capacity s !! Z.to_nat cpu) as [c|] eqn:E; [| lia].
  pose proof (Forall_lookup_1 _ _ _ _ Hall E) as Hc. simpl in Hc.
  apply is_u32_spec in Hc.
  destruct (Z.eqb_spec c 0); lia.
Qed.

Lemma max_cap_of_range g :
  0 <= max_capacity g < 2^32 -> 1 <= max_cap_of (Some g) < 2^32.
Proof.
  intros H. unfold max_cap_of, CAPACITY_SCALE.
  destruct (Z.eqb_spec (max_capacity g) 0); lia.
Qed.

Lemma q_max_of_range slice mc : 0 <= q_max_of slice mc < 2^54.
Proof.
  unfold q_max_of, CAPACITY_SCALE. pose proof (wrap64_range (mc * slice)).
  split; [apply Z.div_pos; lia | apply Z.div_lt_upper_bound; lia].
Qed.

Lemma q_max_of_exact slice mc :
  0 <= slice < 2^32 -> 0 <= mc < 2^32 ->
  q_max_of slice mc = mc * slice / CAPACITY_SCALE.
Proof. intros Hs Hm. unfold q_max_of. rewrite wrap64_small by nia. reflexivity. Qed.

Lemma min_ve_of_eq V Q :
  0 <= V < 2^64 -> 0 <= Q -> min_ve_of V Q = Z.max 0 (V - Q).
Proof.
  intros HV HQ. unfold min_ve_of. destruct (Z.gtb_spec V Q).
  - rewrite wrap64_small by lia. lia.
  - lia.
Qed.

(** [time_before] agrees with [<] within its window of [2^63]. *)
Lemma time_before_lt a b :
  0 <= a < 2^64 -> 0 <= b < 2^64 -> - 2^63 <= a - b < 2^63 ->
  time_before a b = (a <? b).
Proof.
  intros Ha Hb Hw. unfold time_before.
  replace (to_s64 (wrap64 (a - b))) with (to_s64 (a - b))
    by (unfold to_s64, wrap64; rewrite Z.mod_mod by lia; reflexivity).
  rewrite to_s64_signed by lia.
  destruct (Z.ltb_spec (a - b) 0), (Z.ltb_spec a b); lia || reflexivity.
Qed.

Lemma time_before_true a b :
  0 <= a < 2^64 -> 0 <= b < 2^64 ->
  time_before a b = true <-> (- 2^63 <= a - b < 0 \/ 2^63 <= a - b).
Proof.
  intros Ha Hb. unfold time_before.
  replace (to_s64 (wrap64 (a - b))) with (to_s64 (a - b))
    by (unfold to_s64, wrap64; rewrite Z.mod_mod by lia; reflexivity).
  rewrite Z.ltb_lt.
  destruct (Z_lt_le_dec (a - b) (- 2^63)).
  - replace (a - b) with ((a - b + 2^64) + (-1) * 2^64) by lia.
    rewrite to_s64_add_mul, to_s64_small by lia. lia.
  - destruct (Z_lt_le_dec (a - b) (2^63)).
    + rewrite to_s64_signed by lia. lia.
    + rewrite to_s64_high by lia. lia.
Qed.

(** ** The handlers, one by one *)

Tactic Notation "simpl_bind" :=
  cbn [mbind option_bind mret option_ret fst snd].
Tactic Notation "simpl_bind" "in" hyp(H) :=
  cbn [mbind option_bind mret option_ret fst snd] in H.

Lemma desired_dsq_for_task_eq slice p g mc s :
  desired_dsq_for_task slice p (Some g) mc s = Some (desired_class slice g p mc s).
Proof.
  unfold desired_dsq_for_task, desired_class, CAPACITY_SCALE, LAG_BOOST_DIV.
  rewrite udiv_Some by lia. simpl_bind. rewrite udiv_Some by lia. simpl_bind.
  fold (lag_of g p). change (wrap64 (mc * slice) / 1024) with (q_max_of slice mc).
  pose proof (q_max_of_range slice mc) as HQ.
  assert (Hq : 0 <= q_max_of slice mc / 4 < 2^52)
    by (split; [apply Z.div_pos; lia | apply Z.div_lt_upper_bound; lia]).
  rewrite wrap64_small by lia. rewrite to_s64_small by lia.
  unfold s64_neg. rewrite to_s64_signed by lia.
  destruct (lag_of g p >? _); [reflexivity |].
  destruct (lag_of g p <? _); reflexivity.
Qed.

Lemma desired_dsq_for_task_total slice p gdata mc s :
  is_Some (desired_dsq_for_task slice p gdata mc s).
Proof.
  destruct gdata as [g|]; [rewrite desired_dsq_for_task_eq; eauto |].
  unfold desired_dsq_for_task, CAPACITY_SCALE, LAG_BOOST_DIV.
  rewrite udiv_Some by lia. simpl_bind. rewrite udiv_Some by lia. simpl_bind. eauto.
Qed.

Lemma desired_class_frame slice g p mc s s' :
  cpu_capacity s' = cpu_capacity s ->
  desired_class slice g p mc s' = desired_class slice g p mc s.
Proof. intros H. unfold desired_class, get_cpu_cap. rewrite H. reflexivity. Qed.

Lemma enqueue_offset_total val w tctx :
  exists d tctx', enqueue_offset val w tctx = Some (d, tctx').
Proof.
  unfold enqueue_offset.
  destruct (refresh_weight_cache_total tctx w) as (t1 & -> & _). simpl_bind.
  destruct (div_by_weight_cached_total val w t1) as (d & t2 & -> & _). eauto.
Qed.

(** What [eevdf_enqueue] does when the context is there. *)
Lemma eevdf_enqueue_spec slice p fl s g :
  get_ctx s = Some g ->
  let mc := max_cap_of (Some g) in
  let Q := q_max_of slice mc in
  let p' := set_dsq_vtime p (clamp_ve (vtime_now g) Q (scx_dsq_vtime p)) in
  exists d tctx' s1,
    enqueue_offset (wrap64 (Q * SCALE)) (clamp_weight (scx_weight p))
      (get_task_ctx p true s).1 = Some (d, tctx') /\
    s1 = put_task_ctx p' tctx' (get_task_ctx p true s).2 /\
    eevdf_enqueue slice p fl s =
      Some (p', scx_bpf_dsq_insert_vtime p' (desired_class slice g p' mc s) slice
                  (wrap64 (scx_dsq_vtime p' + d)) fl s1).
Proof.
  intros Hg mc Q p'. unfold eevdf_enqueue. rewrite Hg.
  destruct (get_task_ctx p true s) as [tctx s0] eqn:Htc. cbn [fst snd].
  fold mc. unfold CAPACITY_SCALE at 1. rewrite udiv_Some by lia. simpl_bind.
  change (wrap64 (mc * slice) / 1024) with Q.
  fold (min_ve_of (vtime_now g) Q). fold (clamp_ve (vtime_now g) Q (scx_dsq_vtime p)).
  fold (clamp_weight (scx_weight p)). fold p'.
  destruct (enqueue_offset_total (wrap64 (Q * SCALE)) (clamp_weight (scx_weight p)) tctx)
    as (d & tctx' & Hoff).
  exists d, tctx', (put_task_ctx p' tctx' s0).
  split; [assumption |]. split; [reflexivity |].
  unfold enqueue_offset in Hoff.
  destruct (refresh_weight_cache tctx (clamp_weight (scx_weight p))) as [t1|];
    [| discriminate]. simpl_bind. simpl_bind in Hoff.
  rewrite Hoff. simpl_bind.
  rewrite desired_dsq_for_task_eq. simpl_bind.
  f_equal. f_equal. f_equal.
  apply desired_class_frame.
  destruct (put_task_ctx_frame p' tctx' s0) as (_ & -> & _).
  pose proof (get_task_ctx_frame p true s) as Hf. rewrite Htc in Hf.
  simpl in Hf. tauto.
Qed.

Lemma clamp_ve_cases V Q ve :
  0 <= V < 2^64 -> 0 <= Q -> 0 <= ve < 2^64 ->
  let floor := Z.max 0 (V - Q) in
  (clamp_ve V Q ve = floor /\ (- 2^63 <= ve - floor < 0 \/ 2^63 <= ve - floor)) \/
  (clamp_ve V Q ve = ve /\ (0 <= ve - floor < 2^63 \/ ve - floor < - 2^63)).
Proof.
  intros HV HQ Hve floor. unfold clamp_ve. rewrite min_ve_of_eq by assumption.
  fold floor. assert (Hfl : 0 <= floor < 2^64) by (unfold floor; lia).
  pose proof (time_before_true ve floor Hve Hfl) as Htb.
  destruct (time_before ve floor).
  - left. split; [reflexivity |]. apply Htb. reflexivity.
  - right. split; [reflexivity |].
    destruct (Z_lt_le_dec (ve - floor) (- 2^63)); [right; assumption |].
    left. destruct (Z_lt_le_dec (ve - floor) 0).
    + assert (true = false) by (symmetry; apply Htb; lia). discriminate.
    + destruct (Z_lt_le_dec (ve - floor) (2^63)); [lia |].
      assert (true = false) by (symmetry; apply Htb; lia). discriminate.
Qed.

Lemma insert_vtime_inserted_into id p slice vd fl s s1 :
  dsq_big s1 = dsq_big s -> dsq_little s1 = dsq_little s ->
  inserted_into id p slice vd s (scx_bpf_dsq_insert_vtime p id slice vd fl s1).
Proof.
  intros Hb Hl. unfold inserted_into, scx_bpf_dsq_insert_vtime.
  destruct id; simpl; rewrite ?Hb, ?Hl; split; reflexivity.
Qed.

(** C3, as stated, fails: with [V = 2^63 + Q_max + 10] and [v_e = 5] the
    wrap-safe comparison does not see [v_e] as before the floor, the task
    keeps [v_e = 5], and [V - v_e] exceeds [Q_max]. *)
Lemma C3_counterexample :
  (fun r => scx_dsq_vtime r.1) <$>
    eevdf_enqueue SLICE_20MS far_behind_task 0 far_behind_state = Some 5 /\
  get_ctx far_behind_state = Some far_behind_ctx /\
  5 < vtime_now far_behind_ctx - 1024 * SLICE_20MS / CAPACITY_SCALE /\
  ~ vtime_now far_behind_ctx - 5 <= 1024 * SLICE_20MS / CAPACITY_SCALE.
Proof.
  split; [vm_compute; reflexivity |].
  split; [reflexivity |].
  split; vm_compute; congruence.
Qed.

(** C3 (amended): for every task and global state in which [v_e] is not more
    than [2^63] below the floor [max(0, V - Q_max)] (the window of the
    wrap-safe comparison [time_before]), after [enqueue] returns
    [V - v_e <= Q_max], with [V] read at entry and
    [Q_max = rho_max * SLICE / CAP_SCALE]; a [v_e] below the floor is raised
    to exactly the floor; and the clamp comes before the deadline: the task
    is inserted, into the queue of its desired class and nowhere else,
    under the key [v_e' + d] modulo [2^64], where [v_e'] is the clamped
    virtual time the task now holds and [d] is the offset the weight cache
    computes for [Q_max * 100] and the task's weight. *)
Theorem C3_enqueue_lag_bounded
    (slice : Z) (p : task_struct) (fl : Z) (s : sched_state) (g : eevdf_ctx) :
  0 <= slice < 2^32 ->
  get_ctx s = Some g ->
  0 <= vtime_now g < 2^64 -> 0 <= max_capacity g < 2^32 ->
  0 <= scx_dsq_vtime p < 2^64 ->
  let Q := max_cap_of (Some g) * slice / CAPACITY_SCALE in
  let floor := Z.max 0 (vtime_now g - Q) in
  floor - scx_dsq_vtime p <= 2^63 ->
  exists p' s',
    eevdf_enqueue slice p fl s = Some (p', s') /\
    vtime_now g - scx_dsq_vtime p' <= Q /\
    (scx_dsq_vtime p < floor -> scx_dsq_vtime p' = floor) /\
    (exists d tctx',
        enqueue_offset (wrap64 (Q * SCALE)) (clamp_weight (scx_weight p))
          (get_task_ctx p true s).1 = Some (d, tctx') /\
        inserted_into (desired_class slice g p' (max_cap_of (Some g)) s) p' slice
          (wrap64 (scx_dsq_vtime p' + d)) s s').
Proof.
  intros Hs Hg HV Hmc Hve Q floor Hwin.
  destruct (eevdf_enqueue_spec slice p fl s g Hg) as (d & tctx' & s1 & Hoff & Hs1 & Henq).
  pose proof (max_cap_of_range g Hmc) as Hmcr.
  rewrite q_max_of_exact in Henq, Hoff by lia. fold Q in Henq, Hoff.
  assert (HQ : 0 <= Q) by (apply Z.div_pos; [nia | unfold CAPACITY_SCALE; lia]).
  assert (Hframe : dsq_big s1 = dsq_big s /\ dsq_little s1 = dsq_little s).
  { rewrite Hs1.
    match goal with
    | |- context [put_task_ctx ?a ?b ?c] =>
        destruct (put_task_ctx_frame a b c) as (_ & _ & -> & -> & _)
    end.
    destruct (get_task_ctx_frame p true s) as (_ & _ & -> & -> & _). tauto. }
  destruct Hframe as [Hb Hl].
  set (p' := set_dsq_vtime p (clamp_ve (vtime_now g) Q (scx_dsq_vtime p))) in *.
  assert (Hins : inserted_into (desired_class slice g p' (max_cap_of (Some g)) s) p' slice
                   (wrap64 (scx_dsq_vtime p' + d)) s
                   (scx_bpf_dsq_insert_vtime p'
                      (desired_class slice g p' (max_cap_of (Some g)) s) slice
                      (wrap64 (scx_dsq_vtime p' + d)) fl s1))
    by (apply insert_vtime_inserted_into; assumption).
  exists p'. eexists. split; [exact Henq |].
  subst p'. cbn [scx_dsq_vtime set_dsq_vtime] in *.
  destruct (clamp_ve_cases (vtime_now g) Q (scx_dsq_vtime p) HV HQ Hve)
    as [[Hcl Hc] | [Hcl Hc]]; fold floor in Hc, Hcl; rewrite Hcl in *.
  - split; [unfold floor; lia |]. split; [reflexivity |].
    exists d, tctx'. split; [exact Hoff | exact Hins].
  - split; [unfold floor in *; lia |]. split; [lia |].
    exists d, tctx'. split; [exact Hoff | exact Hins].
Qed.

Lemma C3_enqueue_lag_bounded_witness :
  let p := mk_task 4 0 0 0 in
  let g := mk_ctx (10 * SLICE_20MS) 4 1024 in
  let s := mk_state g [] [] [] in
  let Q := 1024 * SLICE_20MS / CAPACITY_SCALE in
  exists p' s',
    eevdf_enqueue SLICE_20MS p 0 s = Some (p', s') /\
    10 * SLICE_20MS - scx_dsq_vtime p' <= Q /\
    (0 < Z.max 0 (10 * SLICE_20MS - Q) ->
     scx_dsq_vtime p' = Z.max 0 (10 * SLICE_20MS - Q)) /\
    (exists d tctx',
        enqueue_offset (wrap64 (Q * SCALE)) (clamp_weight 4)
          (get_task_ctx p true s).1 = Some (d, tctx') /\
        inserted_into (desired_class SLICE_20MS g p' 1024 s) p' SLICE_20MS
          (wrap64 (scx_dsq_vtime p' + d)) s s').
Proof.
  apply (C3_enqueue_lag_bounded SLICE_20MS (mk_task 4 0 0 0) 0
           (mk_state (mk_ctx (10 * SLICE_20MS) 4 1024) [] [] [])
           (mk_ctx (10 * SLICE_20MS) 4 1024)).
  - vm_compute. split; [discriminate | reflexivity].
  - reflexivity.
  - vm_compute. split; [discriminate | reflexivity].
  - vm_compute. split; [discriminate | reflexivity].
  - vm_compute. split; [discriminate | reflexivity].
  - vm_compute. discriminate.
Defined.

Lemma class_dsq_id_eq cap mc :
  0 <= cap < 2^32 -> 1 <= mc < 2^32 ->
  class_dsq_id cap mc = class_of_capacity cap mc.
Proof.
  intros Hc Hm. unfold class_dsq_id, class_of_capacity, CAPACITY_SCALE, BIG_CAP_PCT.
  destruct (Z.eqb_spec mc 0); [lia |].
  rewrite !wrap64_small by lia.
  destruct (Z.geb_spec (cap * 100) (mc * 90)), (Z.leb_spec (90 * mc) (100 * cap));
    lia || reflexivity.
Qed.

(** C6, as stated, fails: in the state of the C3 counterexample the lag
    after the clamp is [2^63 + Q_max + 5], far above [Q_max/4 + 1], yet the
    signed lag the code computes is negative and the task goes to LITTLE. *)
Lemma C6_counterexample :
  (fun r => (scx_dsq_vtime r.1, dsq_big r.2, dsq_little r.2)) <$>
    eevdf_enqueue SLICE_20MS far_behind_task 0 far_behind_state
  = Some (5, [], [{| e_pid := 1; e_slice := SLICE_20MS; e_vtime := 2000000005 |}]) /\
  vtime_now far_behind_ctx - 5 > 1024 * SLICE_20MS / CAPACITY_SCALE / 4 + 1.
Proof.
  split; [vm_compute; reflexivity | vm_compute; reflexivity].
Qed.

(** C6 (amended): with [l = V - v_e(p)] computed after the lag clamp and
    [Q_max = rho_max * SLICE / CAP_SCALE], whenever [l < 2^63] (so that the
    signed 64-bit lag the code computes is [l]): if [l > Q_max/4 + 1] then
    [enqueue] inserts [p] into BIG; if [l < -(Q_max/4 + 1)] into LITTLE;
    otherwise into the queue of the class of the task's current CPU (BIG iff
    [100 * rho_c >= 90 * rho_max]). *)
Theorem C6_enqueue_class_routing
    (slice : Z) (p : task_struct) (fl : Z) (s : sched_state) (g : eevdf_ctx) :
  0 <= slice < 2^32 ->
  get_ctx s = Some g ->
  0 <= vtime_now g < 2^64 -> 0 <= max_capacity g < 2^32 ->
  0 <= scx_dsq_vtime p < 2^64 ->
  Forall (fun c => is_u32 c = true) (cpu_capacity s) ->
  let rho_max := max_cap_of (Some g) in
  let Q := rho_max * slice / CAPACITY_SCALE in
  let rho_c := get_cpu_cap s (wrap32 (task_cpu p)) in
  exists p' s' vd,
    eevdf_enqueue slice p fl s = Some (p', s') /\
    let l := vtime_now g - scx_dsq_vtime p' in
    (l < 2^63 ->
     (l > Q / 4 + 1 -> inserted_into EEVDF_DSQ_BIG p' slice vd s s') /\
     (l < - (Q / 4 + 1) -> inserted_into EEVDF_DSQ_LITTLE p' slice vd s s') /\
     (- (Q / 4 + 1) <= l <= Q / 4 + 1 ->
      inserted_into (class_of_capacity rho_c rho_max) p' slice vd s s')).
Proof.
  intros Hs Hg HV Hmc Hve Hcaps rho_max Q rho_c.
  destruct (eevdf_enqueue_spec slice p fl s g Hg) as (d & tctx' & s1 & _ & Hs1 & Henq).
  pose proof (max_cap_of_range g Hmc) as Hmcr. fold rho_max in Hmcr, Henq.
  rewrite q_max_of_exact in Henq by lia. fold Q in Henq.
  assert (HQ : 0 <= Q) by (apply Z.div_pos; [nia | unfold CAPACITY_SCALE; lia]).
  set (p' := set_dsq_vtime p (clamp_ve (vtime_now g) Q (scx_dsq_vtime p))) in *.
  exists p'. eexists. exists (wrap64 (scx_dsq_vtime p' + d)).
  split; [exact Henq |]. intros l Hl.
  assert (Hframe : dsq_big s1 = dsq_big s /\ dsq_little s1 = dsq_little s).
  { rewrite Hs1.
    match goal with
    | |- context [put_task_ctx ?a ?b ?c] =>
        destruct (put_task_ctx_frame a b c) as (_ & _ & -> & -> & _)
    end.
    destruct (get_task_ctx_frame p true s) as (_ & _ & -> & -> & _). tauto. }
  destruct Hframe as [Hb Hlt].
  assert (Hve' : 0 <= scx_dsq_vtime p' < 2^64 /\ - 2^63 <= l).
  { subst l p'. cbn [scx_dsq_vtime set_dsq_vtime] in *.
    destruct (clamp_ve_cases (vtime_now g) Q (scx_dsq_vtime p) HV HQ Hve)
      as [[-> Hc] | [-> Hc]]; lia. }
  destruct Hve' as [Hve' Hlo].
  assert (Hlag : lag_of g p' = l) by (apply lag_of_exact; subst l; lia).
  unfold desired_class in *. rewrite Hlag. rewrite q_max_of_exact by lia.
  fold Q. unfold LAG_BOOST_DIV.
  replace (task_cpu p') with (task_cpu p) by reflexivity. fold rho_c.
  pose proof (get_cpu_cap_range s (wrap32 (task_cpu p)) Hcaps) as Hrc.
  fold rho_c in Hrc. rewrite class_dsq_id_eq by lia.
  assert (Hq4 : 0 <= Q / 4) by (apply Z.div_pos; lia).
  split; [| split]; intros Hcase.
  - destruct (Z.gtb_spec l (Q / 4 + 1)); [| lia].
    apply insert_vtime_inserted_into; assumption.
  - destruct (Z.gtb_spec l (Q / 4 + 1)); [lia |].
    destruct (Z.ltb_spec l (- (Q / 4 + 1))); [| lia].
    apply insert_vtime_inserted_into; assumption.
  - destruct (Z.gtb_spec l (Q / 4 + 1)); [lia |].
    destruct (Z.ltb_spec l (- (Q / 4 + 1))); [lia |].
    apply insert_vtime_inserted_into; assumption.
Qed.

Lemma C6_enqueue_class_routing_witness :
  let p := mk_task 4 0 0 1 in
  let g := mk_ctx (10 * SLICE_20MS) 4 1024 in
  let s := mk_state g [1024; 512] [] [] in
  let Q := 1024 * SLICE_20MS / CAPACITY_SCALE in
  exists p' s' vd,
    eevdf_enqueue SLICE_20MS p 0 s = Some (p', s') /\
    let l := 10 * SLICE_20MS - scx_dsq_vtime p' in
    (l < 2^63 ->
     (l > Q / 4 + 1 -> inserted_into EEVDF_DSQ_BIG p' SLICE_20MS vd s s') /\
     (l < - (Q / 4 + 1) -> inserted_into EEVDF_DSQ_LITTLE p' SLICE_20MS vd s s') /\
     (- (Q / 4 + 1) <= l <= Q / 4 + 1 ->
      inserted_into (class_of_capacity 512 1024) p' SLICE_20MS vd s s')).
Proof.
  intros p g s Q.
  apply (C6_enqueue_class_routing SLICE_20MS p 0 s g).
  - vm_compute. split; [discriminate | reflexivity].
  - reflexivity.
  - vm_compute. split; [discriminate | reflexivity].
  - vm_compute. split; [discriminate | reflexivity].
  - vm_compute. split; [discriminate | reflexivity].
  - repeat constructor.
Defined.

Lemma signed_quot_range l W :
  - 2^63 <= l < 2^63 -> 0 < W -> Z.abs (signed_quot l W) <= Z.abs l / W <= Z.abs l.
Proof.
  intros Hl HW. unfold signed_quot.
  assert (Hq : 0 <= Z.abs l / W <= Z.abs l).
  { split; [apply Z.div_pos; lia |]. apply Z.div_le_upper_bound; [lia | nia]. }
  split; [| lia]. rewrite Z.abs_mul. rewrite (Z.abs_eq (Z.abs l / W)) by lia.
  destruct (Z.sgn_spec l) as [[_ ->] | [[_ ->] | [_ ->]]]; simpl; lia.
Qed.

(** What [eevdf_set_weight] leaves in the context. *)
Lemma eevdf_set_weight_spec p nw s g :
  get_ctx s = Some g ->
  0 <= vtime_now g < 2^64 -> 0 <= total_weight g < 2^64 ->
  let W := total_weight g in
  let W2 := set_weight_sum W (clamp_weight (scx_weight p)) (clamp_weight nw) in
  let l := lag_of g p in
  let diff := s64_sub (signed_quot l W) (signed_quot l W2) in
  exists s',
    eevdf_set_weight p nw s = Some (p, s') /\
    get_ctx s' =
      Some (if (W =? 0) || (W2 =? 0) then with_total_weight g W2
            else with_vtime_now (with_total_weight g W2)
                   (sat_u64 (vtime_now g + diff))).
Proof.
  intros Hg HV HW W W2 l diff. unfold eevdf_set_weight. rewrite Hg.
  destruct (get_task_ctx p true s) as [tctx s0] eqn:Htc.
  fold (clamp_weight (scx_weight p)). fold (clamp_weight nw).
  destruct (refresh_weight_cache_total tctx (clamp_weight nw)) as (t1 & -> & _).
  simpl_bind.
  assert (Hs0 : is_Some (get_ctx (put_task_ctx p t1 s0))).
  { rewrite get_ctx_put_task_ctx.
    pose proof (get_ctx_get_task_ctx p true s) as Hf. rewrite Htc in Hf.
    simpl in Hf. rewrite Hf, Hg. eauto. }
  assert (HW2 : total_weight
                  (with_total_weight
                     (if total_weight g >=? clamp_weight (scx_weight p)
                      then with_total_weight g (wrap64 (total_weight g - clamp_weight (scx_weight p)))
                      else g)
                     (wrap64
                        (total_weight
                           (if total_weight g >=? clamp_weight (scx_weight p)
                            then with_total_weight g (wrap64 (total_weight g - clamp_weight (scx_weight p)))
                            else g) + clamp_weight nw))) = W2).
  { unfold W2, set_weight_sum, W.
    destruct (total_weight g >=? clamp_weight (scx_weight p)); reflexivity. }
  rewrite HW2.
  set (g2 := with_total_weight _ _) in *.
  assert (Hg2 : g2 = with_total_weight g W2).
  { subst g2. unfold W2, set_weight_sum, W.
    destruct (total_weight g >=? clamp_weight (scx_weight p)); reflexivity. }
  fold W.
  destruct ((W =? 0) || (W2 =? 0)) eqn:Hz.
  - eexists. split; [reflexivity |]. rewrite get_ctx_put_ctx by assumption.
    rewrite Hg2. reflexivity.
  - apply orb_false_iff in Hz. destruct Hz as [HWz HW2z].
    apply Z.eqb_neq in HWz, HW2z.
    assert (HW2r : 0 <= W2 < 2^64) by apply wrap64_range.
    replace (vtime_now g2) with (vtime_now g) by (rewrite Hg2; reflexivity).
    fold (lag_of g p). fold l.
    pose proof (lag_of_range g p) as Hl. fold l in Hl.
    rewrite !div_signed_u64_eq by (assumption || (unfold W; lia)).
    destruct (Z.eqb_spec W 0) as [|_]; [contradiction |].
    destruct (Z.eqb_spec W2 0) as [|_]; [contradiction |].
    simpl_bind. fold (signed_quot l W). fold (signed_quot l W2). fold diff.
    eexists. split; [reflexivity |]. rewrite get_ctx_put_ctx by assumption.
    rewrite add_signed_vtime_eq.
    + rewrite Hg2. reflexivity.
    + rewrite Hg2. assumption.
    + apply to_s64_range.
Qed.

Lemma signed_quot_sign l W :
  0 < W -> (0 <= l -> 0 <= signed_quot l W <= l) /\
           (l <= 0 -> l <= signed_quot l W <= 0).
Proof.
  intros HW. unfold signed_quot.
  assert (Hq : 0 <= Z.abs l / W <= Z.abs l).
  { split; [apply Z.div_pos; lia |]. apply Z.div_le_upper_bound; [lia | nia]. }
  destruct (Z.sgn_spec l) as [[? ->] | [[? ->] | [? ->]]]; lia.
Qed.

(** C2, as stated, fails: with [W_old = 1] below the task's weight
    [w_old = 2] and [w_new = 8], both [W_old] and
    [W_new = W_old - w_old + w_new = 7] are positive, yet the guarded
    subtraction is skipped and the handler stores [W = 9] (and reindexes
    [V] with 9).  A zero [w_old] is read as 1: from [W = 10] the handler
    stores [W = 17], not 18.  And the lag is the signed 64-bit difference:
    with [V = 2^63 + 1000] and [v_e = 0] it is negative and [V] goes down,
    where the formula on [l = V - v_e] takes it up. *)
Lemma C2_counterexample :
  (VW_after (eevdf_set_weight S3_task 8 low_sum_state) = Some (1444445, 9) /\
   get_ctx low_sum_state = Some low_sum_ctx /\
   0 < total_weight low_sum_ctx /\
   0 < total_weight low_sum_ctx - scx_weight S3_task + 8 /\
   total_weight low_sum_ctx - scx_weight S3_task + 8 <> 9) /\
  (VW_after (eevdf_set_weight (mk_task 0 0 500000 0) 8 S3_state)
     = Some (1020589, 17) /\
   10 - 0 + 8 <> 17) /\
  (VW_after (eevdf_set_weight (mk_task 2 0 0 0) 8
               (mk_state (mk_ctx (2^63 + 1000) 10 1024) [] [] []))
     = Some (8877495585472722753, 16) /\
   sat_u64 ((2^63 + 1000) + (signed_quot (2^63 + 1000) 10
                             - signed_quot (2^63 + 1000) 16))
     = 9569248488236830938).
Proof.
  repeat split; try (vm_compute; reflexivity); vm_compute; congruence.
Qed.

(** C2 (amended): [set_weight(p, w_new)], with a zero weight read as 1, with
    [w_old <= W_old = G.W] (the guard of the subtraction), with
    [W_new = W_old - w_old + w_new] below [2^64] and the lag
    [l = G.V - v_e(p)] within the signed 64-bit range, has [W_old] and
    [W_new] positive, sets [G.W := W_new] and adds
    [sign(l) * (|l| / W_old) - sign(l) * (|l| / W_new)] to [G.V] with
    saturating arithmetic, divisions truncating; in particular, from
    [W = 10], [V = 1000000], [v_e(p) = 500000], [w_old = 2], [w_new = 8] it
    leaves [V = 1018750] and [W = 16]. *)
Theorem C2_set_weight_reindex
    (p : task_struct) (nw : Z) (s : sched_state) (g : eevdf_ctx) :
  get_ctx s = Some g ->
  0 <= vtime_now g < 2^64 -> 0 <= total_weight g < 2^64 ->
  0 <= scx_dsq_vtime p < 2^64 ->
  0 <= scx_weight p < 2^32 -> 0 <= nw < 2^32 ->
  let w_old := clamp_weight (scx_weight p) in
  let w_new := clamp_weight nw in
  let W_old := total_weight g in
  let W_new := W_old - w_old + w_new in
  let l := vtime_now g - scx_dsq_vtime p in
  w_old <= W_old -> W_new < 2^64 -> Z.abs l < 2^63 ->
  (exists s' g',
      eevdf_set_weight p nw s = Some (p, s') /\
      get_ctx s' = Some g' /\
      0 < W_old /\ 0 < W_new /\
      total_weight g' = W_new /\
      vtime_now g' =
        sat_u64 (vtime_now g + (signed_quot l W_old - signed_quot l W_new))) /\
  VW_after (eevdf_set_weight S3_task 8 S3_state) = Some (1018750, 16).
Proof.
  intros Hg HV HW Hve Hwo Hwn w_old w_new W_old W_new l Hle Hnew Hl.
  split; [| vm_compute; reflexivity].
  destruct (eevdf_set_weight_spec p nw s g Hg HV HW) as (s' & Hrun & Hctx).
  assert (Hwo1 : 1 <= w_old) by (unfold w_old, clamp_weight; destruct (Z.eqb_spec (scx_weight p) 0); lia).
  assert (Hwn1 : 1 <= w_new) by (unfold w_new, clamp_weight; destruct (Z.eqb_spec nw 0); lia).
  fold w_old w_new W_old in Hctx.
  assert (HW2 : set_weight_sum W_old w_old w_new = W_new).
  { unfold set_weight_sum. destruct (Z.geb_spec W_old w_old); [| lia].
    rewrite (wrap64_small (W_old - w_old)) by (unfold W_old in *; lia).
    apply wrap64_small. unfold W_new, W_old in *. lia. }
  rewrite HW2 in Hctx.
  destruct (Z.eqb_spec W_old 0) as [|_]; [lia |].
  destruct (Z.eqb_spec W_new 0) as [|_]; [unfold W_new in *; lia |].
  cbn [orb] in Hctx.
  rewrite lag_of_exact in Hctx by (assumption || lia). fold l in Hctx.
  assert (HWo : 0 < W_old) by lia.
  assert (HWn : 0 < W_new) by (unfold W_new; lia).
  assert (Hd : s64_sub (signed_quot l W_old) (signed_quot l W_new)
               = signed_quot l W_old - signed_quot l W_new).
  { unfold s64_sub. apply to_s64_signed.
    destruct (signed_quot_sign l W_old HWo), (signed_quot_sign l W_new HWn).
    destruct (Z_le_gt_dec 0 l); lia. }
  rewrite Hd in Hctx.
  eexists s', _. split; [exact Hrun |]. split; [exact Hctx |].
  split; [assumption |]. split; [assumption |]. split; reflexivity.
Qed.

Lemma C2_set_weight_reindex_witness :
  (exists s' g',
      eevdf_set_weight S3_task 8 S3_state = Some (S3_task, s') /\
      get_ctx s' = Some g' /\
      0 < 10 /\ 0 < 10 - 2 + 8 /\
      total_weight g' = 10 - 2 + 8 /\
      vtime_now g' =
        sat_u64 (1000000 + (signed_quot (1000000 - 500000) 10
                            - signed_quot (1000000 - 500000) (10 - 2 + 8)))) /\
  VW_after (eevdf_set_weight S3_task 8 S3_state) = Some (1018750, 16).
Proof.
  apply (C2_set_weight_reindex S3_task 8 S3_state S3_ctx).
  - reflexivity.
  - vm_compute. split; [discriminate | reflexivity].
  - vm_compute. split; [discriminate | reflexivity].
  - vm_compute. split; [discriminate | reflexivity].
  - vm_compute. split; [discriminate | reflexivity].
  - vm_compute. split; [discriminate | reflexivity].
  - vm_compute. discriminate.
  - vm_compute. reflexivity.
  - vm_compute. reflexivity.
Defined.

(** ** Dispatch *)

(** [insert_by_vtime] keeps a queue in key order, so the entry the move
    primitive takes, the head, carries the minimum key. *)
Lemma insert_by_vtime_Forall (P : dsq_entry -> Prop) e q :
  P e -> Forall P q -> Forall P (insert_by_vtime e q).
Proof.
  intros He Hq. induction Hq as [|x q Hx Hq IH]; cbn [insert_by_vtime].
  - repeat constructor. assumption.
  - destruct (e_vtime e <? e_vtime x); repeat constructor; assumption.
Qed.

Lemma insert_by_vtime_sorted e q :
  dsq_sorted q -> dsq_sorted (insert_by_vtime e q).
Proof.
  unfold dsq_sorted. intros Hq.
  induction Hq as [|x q Hq IH Hx]; cbn [insert_by_vtime].
  - repeat constructor.
  - destruct (Z.ltb_spec (e_vtime e) (e_vtime x)).
    + constructor; [constructor; assumption |].
      constructor; [lia |].
      eapply Forall_impl; [exact Hx |]. cbn. intros y Hy. lia.
    + constructor; [assumption |].
      apply insert_by_vtime_Forall; [lia | assumption].
Qed.

Lemma dsq_sorted_head_min e q :
  dsq_sorted (e :: q) -> Forall (fun x => e_vtime e <= e_vtime x) q.
Proof. unfold dsq_sorted. intros H. inversion H; assumption. Qed.

Lemma move_to_local_cases (id : dsq_id) (s : sched_state) :
  (dsq_of id s = [] /\ scx_bpf_dsq_move_to_local id s = (false, s)) \/
  (exists e q s1,
      dsq_of id s = e :: q /\ scx_bpf_dsq_move_to_local id s = (true, s1) /\
      dsq_of id s1 = q /\ dsq_of (other_dsq id) s1 = dsq_of (other_dsq id) s /\
      dsq_local s1 = dsq_local s ++ [e] /\
      global_data s1 = global_data s /\ cpu_capacity s1 = cpu_capacity s /\
      task_ctx_map s1 = task_ctx_map s).
Proof.
  unfold scx_bpf_dsq_move_to_local.
  destruct (dsq_of id s) as [|e q] eqn:Hq; [left; tauto | right].
  exists e, q. eexists. split; [reflexivity |]. split; [reflexivity |].
  destruct id; simpl; tauto.
Qed.

(** The loop takes [k] entries, the queue of the CPU's own class first, where
    [k] is the smaller of the iterations left and the entries available; it
    runs one more, failing, iteration when the queues run dry first. *)
Lemma dispatch_loop_spec (local : dsq_id) (slots i : Z) (n : nat)
    (s : sched_state) (iters : nat) (s' : sched_state) :
  dispatch_loop local (other_dsq local) slots i n s = (iters, s') ->
  let r := Nat.min n (Z.to_nat (slots - i)) in
  let avail := dsq_of local s ++ dsq_of (other_dsq local) s in
  let k := Nat.min r (length avail) in
  iters = (if (k <? r)%nat then S k else k) /\
  dsq_local s' = dsq_local s ++ take k avail /\
  dsq_of local s' = drop k (dsq_of local s) /\
  dsq_of (other_dsq local) s' =
    drop (k - length (dsq_of local s)) (dsq_of (other_dsq local) s) /\
  global_data s' = global_data s /\ cpu_capacity s' = cpu_capacity s /\
  task_ctx_map s' = task_ctx_map s.
Proof.
  revert i s iters s'. induction n as [|n IH]; intros i s iters s' Hrun; cbn zeta.
  - injection Hrun as <- <-. simpl. rewrite app_nil_r. tauto.
  - cbn [dispatch_loop] in Hrun.
    destruct (Z.geb_spec i slots) as [Hge|Hlt].
    + injection Hrun as <- <-.
      replace (Z.to_nat (slots - i)) with 0%nat by lia.
      rewrite Nat.min_0_r. simpl. rewrite app_nil_r. tauto.
    + replace (Z.to_nat (slots - i)) with (S (Z.to_nat (slots - (i + 1)))) by lia.
      rewrite <- Nat.succ_min_distr.
      set (r' := Nat.min n (Z.to_nat (slots - (i + 1)))).
      destruct (move_to_local_cases local s)
        as [[HL Hm] | (e & L & s1 & HL & Hm & HL1 & HO1 & Hloc & Hg1 & Hc1 & Ht1)];
        rewrite Hm in Hrun.
      * destruct (move_to_local_cases (other_dsq local) s)
          as [[HO Hm2] | (e & O & s1 & HO & Hm2 & HO1 & HL1 & Hloc & Hg1 & Hc1 & Ht1)];
          rewrite Hm2 in Hrun.
        -- injection Hrun as <- <-. rewrite HL, HO. simpl. rewrite app_nil_r. tauto.
        -- destruct (dispatch_loop local (other_dsq local) slots (i + 1) n s1)
             as [k1 s2] eqn:Hrec.
           injection Hrun as <- <-.
           specialize (IH _ _ _ _ Hrec). cbn zeta in IH. fold r' in IH.
           replace (other_dsq (other_dsq local)) with local in HL1
             by (destruct local; reflexivity).
           rewrite HL1, HO1, Hloc, HL in IH. rewrite HL, HO.
           cbn [app length] in IH |- *.
           destruct IH as (Hk & Hq & Hl & Ho & Hg & Hc & Ht).
           rewrite <- Nat.succ_min_distr. rewrite Hk, Hq, Hl, Ho, Hg, Hc, Ht.
           rewrite <- app_assoc. cbn [app take drop].
           rewrite !Nat.sub_0_r. rewrite !drop_nil.
           split; [| tauto].
           change (S (Nat.min r' (length O)) <? S r')%nat
             with (Nat.min r' (length O) <? r')%nat.
           destruct (_ <? _)%nat; reflexivity.
      * destruct (dispatch_loop local (other_dsq local) slots (i + 1) n s1)
          as [k1 s2] eqn:Hrec.
        injection Hrun as <- <-.
        specialize (IH _ _ _ _ Hrec). cbn zeta in IH. fold r' in IH.
        rewrite HL1, HO1, Hloc in IH. rewrite HL.
        cbn [app length] in IH |- *.
        destruct IH as (Hk & Hq & Hl & Ho & Hg & Hc & Ht).
        rewrite <- Nat.succ_min_distr. rewrite Hk, Hq, Hl, Ho, Hg, Hc, Ht.
        rewrite <- app_assoc. cbn [app take drop length Nat.sub].
        split; [| tauto].
        change (S (Nat.min r' (length (L ++ dsq_of (other_dsq local) s))) <? S r')%nat
          with (Nat.min r' (length (L ++ dsq_of (other_dsq local) s)) <? r')%nat.
        destruct (_ <? _)%nat; reflexivity.
Qed.

Lemma eevdf_dispatch_loop cpu nr_slots s :
  0 <= nr_slots ->
  let local := class_dsq_id (get_cpu_cap s (wrap32 cpu)) (max_cap_of (get_ctx s)) in
  eevdf_dispatch cpu nr_slots s =
    dispatch_loop local (other_dsq local)
      (Z.of_nat (dispatch_budget nr_slots)) 0 DISPATCH_BATCH_MAX s.
Proof.
  intros Hslots local. unfold eevdf_dispatch. fold local.
  replace (if bool_decide (local = EEVDF_DSQ_BIG)
           then EEVDF_DSQ_LITTLE else EEVDF_DSQ_BIG) with (other_dsq local)
    by (destruct local; reflexivity).
  f_equal. unfold dispatch_budget, DISPATCH_BATCH_MAX.
  destruct (Z.eqb_spec nr_slots 0) as [-> | Hnz]; [reflexivity |].
  destruct (Z.gtb_spec nr_slots (Z.of_nat 8)); lia.
Qed.

(** C7, as stated, fails: when the runtime reports no free slot the handler
    raises the count to one, so with [runtime_slots = 0] it performs one
    iteration (and moves a task), not at most [min(0, 8) = 0]. *)
Lemma C7_counterexample :
  (eevdf_dispatch 0 0 (big_cpu_state [entry_a] [])).1 = 1%nat /\
  dsq_local (eevdf_dispatch 0 0 (big_cpu_state [entry_a] [])).2 = [entry_a] /\
  ~ ((eevdf_dispatch 0 0 (big_cpu_state [entry_a] [])).1 <= Z.to_nat (Z.min 0 8))%nat.
Proof.
  split; [vm_compute; reflexivity |]. split; [vm_compute; reflexivity |].
  vm_compute. lia.
Qed.

(** C7 (amended): [dispatch(cpu)] performs at most
    [min(max(runtime_slots, 1), 8)] iterations; in each iteration it first
    attempts to move the minimum-[v_d] task from the queue of the CPU's own
    class into the CPU-local queue, on failure attempts the other class's
    queue, and stops as soon as both attempts fail: it moves the first [k]
    entries of the own-class queue followed by the other class's queue,
    [k] being the smaller of the budget and the number of queued entries,
    and runs [k + 1] iterations when [k] is below the budget, [k]
    otherwise; in particular, when BIG is empty, LITTLE is non-empty and the
    CPU is of class BIG, it promotes the head of LITTLE. *)
Theorem C7_dispatch_batch (cpu nr_slots : Z) (s : sched_state) :
  0 <= nr_slots ->
  let local := class_dsq_id (get_cpu_cap s (wrap32 cpu)) (max_cap_of (get_ctx s)) in
  let other := other_dsq local in
  let budget := dispatch_budget nr_slots in
  let avail := dsq_of local s ++ dsq_of other s in
  let k := Nat.min budget (length avail) in
  let iters := (eevdf_dispatch cpu nr_slots s).1 in
  let s' := (eevdf_dispatch cpu nr_slots s).2 in
  (iters <= budget)%nat /\
  iters = (if (k <? budget)%nat then S k else k) /\
  dsq_local s' = dsq_local s ++ take k avail /\
  dsq_of local s' = drop k (dsq_of local s) /\
  dsq_of other s' = drop (k - length (dsq_of local s)) (dsq_of other s) /\
  (local = EEVDF_DSQ_BIG -> dsq_big s = [] ->
   forall e q, dsq_little s = e :: q ->
     exists rest, dsq_local s' = dsq_local s ++ e :: rest /\
                  dsq_little s' = drop (length rest) q).
Proof.
  intros Hslots local other budget avail k iters s'.
  pose proof (eevdf_dispatch_loop cpu nr_slots s Hslots) as Hrun.
  cbn zeta in Hrun. fold local other budget in Hrun.
  destruct (eevdf_dispatch cpu nr_slots s) as [it st] eqn:Hd.
  subst iters s'. cbn [fst snd].
  symmetry in Hrun.
  pose proof (dispatch_loop_spec local (Z.of_nat budget) 0 DISPATCH_BATCH_MAX s it st Hrun)
    as Hspec.
  cbn zeta in Hspec.
  assert (Hb : Nat.min DISPATCH_BATCH_MAX (Z.to_nat (Z.of_nat budget - 0)) = budget).
  { unfold budget, dispatch_budget, DISPATCH_BATCH_MAX. lia. }
  rewrite Hb in Hspec. fold other avail k in Hspec.
  destruct Hspec as (Hk & Hq & Hl & Ho & _).
  assert (Hkb : (k <= budget)%nat) by (unfold k; lia).
  split. { rewrite Hk. destruct (Nat.ltb_spec k budget); lia. }
  split; [assumption |]. split; [assumption |].
  split; [assumption |]. split; [assumption |].
  intros Hbig Hempty e q Hlittle.
  assert (Hbudget : (1 <= budget)%nat)
    by (unfold budget, dispatch_budget, DISPATCH_BATCH_MAX; lia).
  assert (Hav : avail = e :: q)
    by (unfold avail, other; rewrite Hbig; cbn [dsq_of other_dsq];
        rewrite Hempty, Hlittle; reflexivity).
  assert (HL0 : dsq_of local s = []) by (rewrite Hbig; exact Hempty).
  assert (Hos : dsq_of other st = dsq_little st)
    by (unfold other; rewrite Hbig; reflexivity).
  assert (Hos0 : dsq_of other s = e :: q)
    by (unfold other; rewrite Hbig; exact Hlittle).
  rewrite Hos, Hos0, HL0 in Ho. rewrite Hq, Ho, Hav.
  assert (Hk1 : (1 <= k)%nat) by (unfold k; rewrite Hav; cbn [length]; lia).
  assert (Hk2 : (k <= S (length q))%nat)
    by (unfold k; rewrite Hav; cbn [length]; lia).
  clearbody k. destruct k as [|k0]; [lia |].
  cbn [take length]. exists (take k0 q). split; [reflexivity |].
  rewrite Nat.sub_0_r. cbn [drop].
  rewrite length_take. f_equal. lia.
Qed.

Lemma C7_dispatch_batch_witness :
  let s := big_cpu_state [] [entry_a; entry_b] in
  let local := class_dsq_id (get_cpu_cap s (wrap32 0)) (max_cap_of (get_ctx s)) in
  let other := other_dsq local in
  let budget := dispatch_budget 1 in
  let avail := dsq_of local s ++ dsq_of other s in
  let k := Nat.min budget (length avail) in
  let iters := (eevdf_dispatch 0 1 s).1 in
  let s' := (eevdf_dispatch 0 1 s).2 in
  (iters <= budget)%nat /\
  iters = (if (k <? budget)%nat then S k else k) /\
  dsq_local s' = dsq_local s ++ take k avail /\
  dsq_of local s' = drop k (dsq_of local s) /\
  dsq_of other s' = drop (k - length (dsq_of local s)) (dsq_of other s) /\
  (local = EEVDF_DSQ_BIG -> dsq_big s = [] ->
   forall e q, dsq_little s = e :: q ->
     exists rest, dsq_local s' = dsq_local s ++ e :: rest /\
                  dsq_little s' = drop (length rest) q).
Proof.
  apply (C7_dispatch_batch 0 1 (big_cpu_state [] [entry_a; entry_b])).
  lia.
Defined.

(** ** The agent's capacity refresh *)

Lemma refresh_one_cpu_frame sysfs acc cpu :
  global_data (refresh_one_cpu sysfs acc cpu).2 = global_data acc.2 /\
  agent_frame acc.2 (refresh_one_cpu sysfs acc cpu).2.
Proof.
  destruct acc as [[mc ch] s]. unfold refresh_one_cpu, agent_frame. cbn [snd].
  destruct (cpu_capacity s !! Z.to_nat (wrap32 cpu)) as [old|];
    [destruct (old =? read_capacity (sysfs cpu)) |]; cbn; tauto.
Qed.

Lemma refresh_loop_frame sysfs cpus acc :
  global_data (fold_left (refresh_one_cpu sysfs) cpus acc).2 = global_data acc.2 /\
  agent_frame acc.2 (fold_left (refresh_one_cpu sysfs) cpus acc).2.
Proof.
  revert acc. induction cpus as [|cpu cpus IH]; intros acc; cbn [fold_left].
  - unfold agent_frame. tauto.
  - destruct (IH (refresh_one_cpu sysfs acc cpu)) as (Hg & Hf).
    destruct (refresh_one_cpu_frame sysfs acc cpu) as (Hg1 & Hf1).
    unfold agent_frame in *. rewrite Hg, Hg1.
    destruct Hf as (-> & -> & -> & -> & -> & -> & ->). tauto.
Qed.

(** C8: a capacity-refresh pass leaves the [vtime_now] and [total_weight]
    fields of [global_data[0]] (and its padding) as they were, for every
    sysfs content, CPU count and prior map state: either it does not write
    [global_data] at all, or it writes back the entry it read with only
    [max_capacity] replaced; and it touches no map other than
    [cpu_capacity] and [global_data]. *)
Theorem C8_refresh_keeps_V_and_W
    (sysfs : Z -> sysfs_file) (ncpu : Z) (force_log : bool) (s : sched_state) :
  let s' := (refresh_cpu_capacities sysfs ncpu force_log s).2 in
  vtime_now <$> get_ctx s' = vtime_now <$> get_ctx s /\
  total_weight <$> get_ctx s' = total_weight <$> get_ctx s /\
  ctx_pad <$> get_ctx s' = ctx_pad <$> get_ctx s /\
  (global_data s' = global_data s \/
   exists g max_cap,
     get_ctx s = Some g /\
     global_data s' = <[0%nat := with_max_capacity g max_cap]> (global_data s)) /\
  agent_frame s s'.
Proof.
  unfold refresh_cpu_capacities.
  pose proof (refresh_loop_frame sysfs (seqZ 0 ncpu) (0, false, s)) as [Hg Hf].
  destruct (fold_left (refresh_one_cpu sysfs) (seqZ 0 ncpu) (0, false, s))
    as [[mc ch] s1].
  cbn [snd] in Hg, Hf. rewrite Hg.
  set (mc' := if mc =? 0 then 1024 else mc).
  destruct (global_data s) as [|g gs] eqn:Hgd.
  - (* no entry: the lookup fails and so does the update *)
    cbn [lookup list_lookup]. unfold get_ctx.
    destruct (negb (max_capacity ctx_zero =? mc')); cbn; rewrite ?Hg, ?Hgd;
      (split; [reflexivity |]); (split; [reflexivity |]); (split; [reflexivity |]);
      (split; [left; reflexivity |]); unfold agent_frame in *; cbn; tauto.
  - cbn [lookup list_lookup]. unfold get_ctx.
    destruct (negb (max_capacity g =? mc')); cbn; rewrite ?Hg, ?Hgd; cbn.
    + (split; [reflexivity |]); (split; [reflexivity |]); (split; [reflexivity |]).
      split; [right; exists g, mc'; split; reflexivity |].
      unfold agent_frame in *; cbn; tauto.
    + (split; [reflexivity |]); (split; [reflexivity |]); (split; [reflexivity |]).
      split; [left; reflexivity |]. assumption.
Qed.

(** ** No handler divides by zero *)

Lemma eevdf_select_cpu_total slice p prev_cpu wake_flags rt s :
  is_Some (eevdf_select_cpu slice p prev_cpu wake_flags rt s).
Proof.
  unfold eevdf_select_cpu.
  destruct (desired_dsq_for_task_total slice p (get_ctx s) (max_cap_of (get_ctx s)) s)
    as [d ->]. simpl_bind.
  destruct (negb (dfl_idle rt) && _);
    [destruct (any_idle_cpu rt >=? 0); [destruct (bool_decide _) |] |];
    destruct (_ && _); eauto.
Qed.

Lemma eevdf_enqueue_total slice p fl s : is_Some (eevdf_enqueue slice p fl s).
Proof.
  destruct (get_ctx s) as [g|] eqn:Hg.
  - destruct (eevdf_enqueue_spec slice p fl s g Hg) as (d & t & s1 & _ & _ & ->). eauto.
  - unfold eevdf_enqueue. rewrite Hg. eauto.
Qed.

Lemma eevdf_running_total p s : is_Some (eevdf_running p s).
Proof.
  unfold eevdf_running. destruct (get_ctx s) as [g|]; [| eauto].
  destruct (time_before _ _); eauto.
Qed.

Lemma eevdf_stopping_total slice p runnable cpu s :
  is_Some (eevdf_stopping slice p runnable cpu s).
Proof.
  unfold eevdf_stopping. destruct (get_task_ctx p false s) as [tctx s0].
  unfold CAPACITY_SCALE. rewrite udiv_Some by lia. simpl_bind.
  match goal with
  | |- context [div_by_weight_cached ?v ?w ?t] =>
      destruct (div_by_weight_cached_total v w t) as (d & t' & -> & _)
  end. simpl_bind.
  destruct (get_ctx s) as [g|]; [| eauto].
  destruct (Z.eqb_spec (total_weight g) 0); [eauto |].
  rewrite udiv_Some by assumption. simpl_bind. eauto.
Qed.

Lemma eevdf_set_weight_total p nw s : is_Some (eevdf_set_weight p nw s).
Proof.
  unfold eevdf_set_weight. destruct (get_ctx s) as [g|]; [| eauto].
  destruct (get_task_ctx p true s) as [tctx s0].
  match goal with
  | |- context [refresh_weight_cache ?t ?w] =>
      destruct (refresh_weight_cache_total t w) as (t' & -> & _)
  end. simpl_bind.
  destruct (_ || _); [eauto |].
  match goal with
  | |- context [div_signed_u64 ?a ?b ≫= _] =>
      destruct (div_signed_u64_total a b) as [q1 ->]
  end. simpl_bind.
  match goal with
  | |- context [div_signed_u64 ?a ?b ≫= _] =>
      destruct (div_signed_u64_total a b) as [q2 ->]
  end. simpl_bind. eauto.
Qed.

Lemma eevdf_enable_total p s : is_Some (eevdf_enable p s).
Proof.
  unfold eevdf_enable. destruct (get_ctx s) as [g|]; [| eauto].
  set (ns := wrap64 _). destruct (ns =? 0); simpl_bind; [eauto |].
  match goal with
  | |- context [div_signed_u64 ?a ?b ≫= _] =>
      destruct (div_signed_u64_total a b) as [q1 ->]
  end. simpl_bind. eauto.
Qed.

Lemma eevdf_disable_total p s : is_Some (eevdf_disable p s).
Proof.
  unfold eevdf_disable. destruct (get_ctx s) as [g|]; [| eauto].
  set (ns := if total_weight g >=? _ then _ else _).
  destruct (ns =? 0); simpl_bind; [eauto |].
  match goal with
  | |- context [div_signed_u64 ?a ?b ≫= _] =>
      destruct (div_signed_u64_total a b) as [q1 ->]
  end. simpl_bind. eauto.
Qed.

(** C10: no handler can execute a division with a zero divisor:
    [div_by_weight_cached] reads a zero weight as 1 before any division and
    so always returns, [div_signed_u64] returns 0 on a zero denominator
    without dividing and always returns, and every handler (where
    [eevdf_stopping] divides by [total_weight] only under its non-zero
    guard) runs to completion from every state and for every input of the
    runtime; the divisors being unsigned, non-zero is strictly positive. *)
Theorem C10_no_division_by_zero :
  (forall val weight tctx, is_Some (div_by_weight_cached val weight tctx)) /\
  (forall num, div_signed_u64 num 0 = Some 0) /\
  (forall num den, is_Some (div_signed_u64 num den)) /\
  (forall slice h p s, is_Some (run_handler slice h p s)).
Proof.
  split.
  { intros val w tctx.
    destruct (div_by_weight_cached_total val w tctx) as (q & t & -> & _). eauto. }
  split; [reflexivity |]. split; [apply div_signed_u64_total |].
  intros slice h p s. destruct h; cbn [run_handler].
  - destruct (eevdf_select_cpu_total slice p prev_cpu wake_flags rt s) as [r ->].
    simpl_bind. eauto.
  - apply eevdf_enqueue_total.
  - eauto.
  - apply eevdf_running_total.
  - apply eevdf_stopping_total.
  - apply eevdf_set_weight_total.
  - apply eevdf_enable_total.
  - apply eevdf_disable_total.
  - eauto.
Qed.

(** ** What each handler leaves in the context and in the task *)

Lemma signed_quot_s64 l W :
  - 2^63 <= l < 2^63 -> 0 < W -> - 2^63 <= signed_quot l W < 2^63.
Proof.
  intros Hl HW. destruct (signed_quot_sign l W HW).
  destruct (Z_le_gt_dec 0 l); lia.
Qed.

Lemma eevdf_running_spec p s g :
  get_ctx s = Some g ->
  exists s',
    eevdf_running p s = Some (p, s') /\
    get_ctx s' =
      Some (if time_before (vtime_now g) (scx_dsq_vtime p)
            then with_vtime_now g (scx_dsq_vtime p) else g).
Proof.
  intros Hg. unfold eevdf_running. rewrite Hg.
  destruct (time_before _ _).
  - eexists. split; [reflexivity |]. apply get_ctx_put_ctx. rewrite Hg. eauto.
  - eexists. split; [reflexivity | assumption].
Qed.

Lemma eevdf_stopping_spec slice p runnable cpu s :
  let svc := svc_vtime_of slice p (get_cpu_cap s cpu) in
  exists d tctx' s',
    div_by_weight_cached svc (clamp_weight (scx_weight p))
      (get_task_ctx p false s).1 = Some (d, tctx') /\
    eevdf_stopping slice p runnable cpu s =
      Some (set_dsq_vtime p (wrap64 (scx_dsq_vtime p + d)), s') /\
    get_ctx s' =
      match get_ctx s with
      | Some g =>
          Some (if total_weight g =? 0 then g
                else with_vtime_now g (wrap64 (vtime_now g + svc / total_weight g)))
      | None => None
      end.
Proof.
  intros svc. unfold eevdf_stopping.
  pose proof (get_ctx_get_task_ctx p false s) as Hf.
  destruct (get_task_ctx p false s) as [tctx s0]. cbn [fst snd] in *.
  unfold CAPACITY_SCALE at 1. rewrite udiv_Some by lia. simpl_bind.
  fold (clamp_weight (scx_weight p)).
  change (wrap64 (wrap64 (wrap64 (slice - scx_slice p) * get_cpu_cap s cpu) * SCALE) / 1024)
    with svc.
  destruct (div_by_weight_cached_total svc (clamp_weight (scx_weight p)) tctx)
    as (d & t' & Hd & _).
  exists d, t'. rewrite Hd. simpl_bind.
  set (p' := set_dsq_vtime p _).
  assert (Hctx : get_ctx (put_task_ctx p' t' s0) = get_ctx s)
    by (rewrite get_ctx_put_task_ctx; assumption).
  destruct (get_ctx s) as [g|] eqn:Hg.
  - destruct (Z.eqb_spec (total_weight g) 0).
    + eexists. split; [reflexivity |]. split; [reflexivity | assumption].
    + rewrite udiv_Some by assumption. simpl_bind.
      eexists. split; [reflexivity |]. split; [reflexivity |].
      apply get_ctx_put_ctx. rewrite Hctx. eauto.
  - eexists. split; [reflexivity |]. split; [reflexivity | assumption].
Qed.

Lemma eevdf_enable_spec p s g :
  get_ctx s = Some g ->
  0 <= vtime_now g < 2^64 ->
  let p' := enabled_task g p in
  let W' := enable_sum (total_weight g) (clamp_weight (scx_weight p)) in
  let l := lag_of g p' in
  exists s',
    eevdf_enable p s = Some (p', s') /\
    get_ctx s' =
      Some (with_total_weight
              (if W' =? 0 then g
               else with_vtime_now g
                      (sat_u64 (vtime_now g + s64_neg (signed_quot l W'))))
              W').
Proof.
  intros Hg HV p' W' l. unfold eevdf_enable. rewrite Hg.
  fold (clamp_weight (scx_weight p)). fold (enabled_task g p). fold p'.
  fold (lag_of g p'). fold l.
  fold (enable_sum (total_weight g) (clamp_weight (scx_weight p))). fold W'.
  assert (HW : 0 <= W' < 2^64) by apply wrap64_range.
  pose proof (lag_of_range g p') as Hl. fold l in Hl.
  destruct (Z.eqb_spec W' 0) as [Hz|Hnz]; simpl_bind.
  - eexists. split; [reflexivity |]. apply get_ctx_put_ctx. rewrite Hg. eauto.
  - rewrite div_signed_u64_eq by assumption.
    destruct (Z.eqb_spec W' 0) as [|_]; [contradiction |]. simpl_bind.
    fold (signed_quot l W').
    rewrite add_signed_vtime_eq by (assumption || apply s64_neg_range).
    eexists. split; [reflexivity |]. apply get_ctx_put_ctx. rewrite Hg. eauto.
Qed.

Lemma eevdf_disable_spec p s g :
  get_ctx s = Some g ->
  0 <= vtime_now g < 2^64 -> 0 <= total_weight g < 2^64 ->
  let W' := disable_sum (total_weight g) (clamp_weight (scx_weight p)) in
  let l := lag_of g p in
  exists s',
    eevdf_disable p s = Some (p, s') /\
    get_ctx s' =
      Some (if W' =? 0 then with_total_weight g W'
            else with_vtime_now (with_total_weight g W')
                   (sat_u64 (vtime_now g + signed_quot l W'))).
Proof.
  intros Hg HV HWr W' l. unfold eevdf_disable. rewrite Hg.
  fold (clamp_weight (scx_weight p)). fold (lag_of g p). fold l.
  fold (disable_sum (total_weight g) (clamp_weight (scx_weight p))). fold W'.
  assert (HW : 0 <= W' < 2^64).
  { unfold W', disable_sum. destruct (_ >=? _); [apply wrap64_range | lia]. }
  pose proof (lag_of_range g p) as Hl. fold l in Hl.
  assert (Hput : forall g', get_ctx
            (set_task_ctx_map (delete (pid p) (task_ctx_map (put_ctx g' s)))
               (put_ctx g' s)) = Some g').
  { intros g'. change (get_ctx (put_ctx g' s) = Some g').
    apply get_ctx_put_ctx. rewrite Hg. eauto. }
  destruct (Z.eqb_spec W' 0) as [Hz|Hnz]; simpl_bind.
  - eexists. split; [reflexivity |]. apply Hput.
  - rewrite div_signed_u64_eq by assumption.
    destruct (Z.eqb_spec W' 0) as [|_]; [contradiction |]. simpl_bind.
    fold (signed_quot l W').
    rewrite add_signed_vtime_eq by (exact HV || (apply signed_quot_s64; lia)).
    eexists. split; [reflexivity |]. apply Hput.
Qed.

Lemma dispatch_loop_frame local other slots i n s :
  global_data (dispatch_loop local other slots i n s).2 = global_data s.
Proof.
  revert i s. induction n as [|n IH]; intros i s; cbn [dispatch_loop]; [reflexivity |].
  destruct (i >=? slots); [reflexivity |].
  pose proof (get_ctx_move_to_local local s) as H1.
  assert (Hg1 : global_data (scx_bpf_dsq_move_to_local local s).2 = global_data s).
  { unfold scx_bpf_dsq_move_to_local. destruct (dsq_of local s); [reflexivity |].
    destruct local; reflexivity. }
  destruct (scx_bpf_dsq_move_to_local local s) as [m s1]. cbn [snd] in Hg1.
  destruct m.
  - specialize (IH (i + 1) s1).
    destruct (dispatch_loop local other slots (i + 1) n s1). cbn [snd] in *. congruence.
  - assert (Hg2 : global_data (scx_bpf_dsq_move_to_local other s1).2 = global_data s1).
    { unfold scx_bpf_dsq_move_to_local. destruct (dsq_of other s1); [reflexivity |].
      destruct other; reflexivity. }
    destruct (scx_bpf_dsq_move_to_local other s1) as [m2 s2]. cbn [snd] in Hg2.
    destruct m2; [| cbn; congruence].
    specialize (IH (i + 1) s2).
    destruct (dispatch_loop local other slots (i + 1) n s2). cbn [snd] in *. congruence.
Qed.

Lemma eevdf_dispatch_frame cpu nr_slots s :
  get_ctx (eevdf_dispatch cpu nr_slots s).2 = get_ctx s.
Proof. unfold get_ctx, eevdf_dispatch. rewrite dispatch_loop_frame. reflexivity. Qed.

Lemma eevdf_select_cpu_frame slice p prev_cpu wake_flags rt s :
  exists r, eevdf_select_cpu slice p prev_cpu wake_flags rt s = Some r /\
            get_ctx r.2 = get_ctx s.
Proof.
  unfold eevdf_select_cpu.
  destruct (desired_dsq_for_task_total slice p (get_ctx s) (max_cap_of (get_ctx s)) s)
    as [d ->]. simpl_bind.
  destruct (negb (dfl_idle rt) && _);
    [destruct (any_idle_cpu rt >=? 0); [destruct (bool_decide _) |] |];
    destruct (_ && _); eexists; split; reflexivity.
Qed.

Lemma eevdf_init_frame ret_big ret_little s g :
  get_ctx s = Some g ->
  exists g', get_ctx (eevdf_init ret_big ret_little s).2 = Some g' /\
             vtime_now g' = vtime_now g.
Proof.
  intros Hg. unfold eevdf_init. rewrite Hg.
  destruct (max_capacity g =? 0).
  - exists (with_max_capacity g CAPACITY_SCALE).
    destruct (negb (ret_big =? 0)); cbn [snd];
      (split; [apply get_ctx_put_ctx; rewrite Hg; eauto | reflexivity]).
  - exists g. destruct (negb (ret_big =? 0)); cbn [snd]; split; auto.
Qed.

Lemma eevdf_enqueue_frame slice p fl s g :
  get_ctx s = Some g ->
  exists p' s', eevdf_enqueue slice p fl s = Some (p', s') /\ get_ctx s' = Some g.
Proof.
  intros Hg.
  destruct (eevdf_enqueue_spec slice p fl s g Hg) as (d & t & s1 & _ & Hs1 & ->).
  eexists _, _. split; [reflexivity |].
  rewrite get_ctx_insert_vtime, Hs1, get_ctx_put_task_ctx, get_ctx_get_task_ctx.
  assumption.
Qed.

Lemma div_nonneg a b : 0 <= a -> 0 <= b -> 0 <= a / b.
Proof.
  intros Ha Hb. destruct (Z.eq_dec b 0) as [-> | Hnz].
  - rewrite Z.div_0_r. lia.
  - apply Z.div_pos; lia.
Qed.

Lemma sat_u64_lower V d : 0 <= V < 2^64 -> V - sat_u64 (V + d) <= Z.abs d.
Proof. intros HV. unfold sat_u64, U64_MAX. lia. Qed.

Lemma s64_sub_same_sign_abs a b :
  - 2^63 <= a < 2^63 -> - 2^63 <= b < 2^63 -> 0 <= a * b ->
  Z.abs (s64_sub a b) <= Z.max (Z.abs a) (Z.abs b).
Proof.
  intros Ha Hb Hab. unfold s64_sub.
  destruct (Z.eq_dec (a - b) (2^63)) as [He | Hne].
  - rewrite He. change (to_s64 (2^63)) with (- 2^63).
    assert (a <= 0 \/ 0 <= b) by nia. lia.
  - assert (Hr : - 2^63 <= a - b < 2^63) by nia.
    rewrite to_s64_signed by assumption. nia.
Qed.

(** C1, as stated, fails.  [disable] is in its never-regress list, yet in
    scenario S4 of the spec ([W = 5], [V = 100], [v_e = 120], [w = 2]) it
    takes [V] from 100 to 94.  [set_weight] may decrease [V] by more than
    [|lag| / W_new]: with [V = 1000], [v_e = 1100], [W_old = 1], weight 1
    raised to 100, [V] drops by 99 while [|lag| / W_new = 1].  [stopping]
    adds to [V] modulo [2^64], and [running] compares with the wrap-safe
    [time_before]: from [V = 2^64 - 1] and from [V = 2^63 + 5] they take
    [V] down. *)
Lemma C1_counterexample :
  (VW_after (eevdf_disable S4_task S4_state) = Some (94, 3) /\ 94 < 100) /\
  (VW_after (eevdf_set_weight ahead_task 100 ahead_state) = Some (901, 100) /\
   lag_of (mk_ctx 1000 1 1024) ahead_task = - 100 /\
   ~ 1000 - 901 <= Z.abs (- 100) / 100) /\
  (VW_after (eevdf_stopping SLICE_20MS fresh_task false 0 top_state)
     = Some (1999999999, 1) /\ 1999999999 < U64_MAX) /\
  (VW_after (eevdf_running fresh_task past_half_state) = Some (0, 1) /\
   0 < 2^63 + 5).
Proof.
  repeat split; try (vm_compute; reflexivity); try (vm_compute; congruence).
Qed.

(** C1 (amended): from every global and task state, [vtime_now] is left as
    it was by [enqueue] and [dispatch] (and by [select_cpu] and [init]);
    [running] does not take it down when [V - v_e < 2^63], the window of the
    wrap-safe comparison; [stopping] does not take it down when
    [V + svc / W] does not exceed [2^64 - 1]; and the corrections are
    bounded: [disable] and [enable] decrease [V] by at most
    [|lag| / W_new], [set_weight] by at most the larger of [|lag| / W_old]
    and [|lag| / W_new], with [lag] the signed 64-bit lag the handler
    computes. *)
Theorem C1_vtime_now_monotone
    (slice : Z) (h : handler) (p : task_struct) (s : sched_state) (g : eevdf_ctx) :
  get_ctx s = Some g ->
  0 <= vtime_now g < 2^64 -> 0 <= total_weight g < 2^64 ->
  0 <= scx_dsq_vtime p < 2^64 ->
  exists p' s' g',
    run_handler slice h p s = Some (p', s') /\
    get_ctx s' = Some g' /\
    vtime_now_moves slice h s g p g' p'.
Proof.
  intros Hg HV HW Hve. destruct h; cbn [run_handler vtime_now_moves].
  - destruct (eevdf_select_cpu_frame slice p prev_cpu wake_flags rt s) as (r & -> & Hr).
    simpl_bind. exists p, r.2, g. rewrite Hr. auto.
  - destruct (eevdf_enqueue_frame slice p enq_flags s g Hg) as (p' & s' & -> & Hs').
    exists p', s', g. auto.
  - exists p, (eevdf_dispatch cpu nr_slots s).2, g.
    rewrite eevdf_dispatch_frame. auto.
  - destruct (eevdf_running_spec p s g Hg) as (s' & -> & Hs').
    eexists p, s', _. split; [reflexivity |]. split; [exact Hs' |].
    intros Hwin.
    pose proof (time_before_true (vtime_now g) (scx_dsq_vtime p) HV Hve) as Htb.
    destruct (time_before (vtime_now g) (scx_dsq_vtime p)); [| lia].
    cbn [vtime_now with_vtime_now].
    assert (Hc : - 2^63 <= vtime_now g - scx_dsq_vtime p < 0 \/
                 2^63 <= vtime_now g - scx_dsq_vtime p) by (apply Htb; reflexivity).
    lia.
  - destruct (eevdf_stopping_spec slice p runnable cpu s) as (d & t & s' & _ & -> & Hs').
    rewrite Hg in Hs'.
    eexists _, s', _. split; [reflexivity |]. split; [exact Hs' |].
    intros Hfit.
    destruct (Z.eqb_spec (total_weight g) 0); [lia |].
    cbn [vtime_now with_vtime_now].
    set (dv := svc_vtime_of slice p (get_cpu_cap s cpu) / total_weight g) in *.
    assert (Hdv : 0 <= dv).
    { apply Z.div_pos; [| lia]. unfold svc_vtime_of, CAPACITY_SCALE.
      apply Z.div_pos; [apply wrap64_range | lia]. }
    rewrite wrap64_small by (unfold U64_MAX in Hfit; lia). lia.
  - destruct (eevdf_set_weight_spec p new_weight s g Hg HV HW) as (s' & -> & Hs').
    eexists p, s', _. split; [reflexivity |]. split; [exact Hs' |].
    set (W2 := set_weight_sum _ _ _) in *.
    assert (HW2 : 0 <= W2 < 2^64) by apply wrap64_range.
    pose proof (lag_of_range g p) as Hl.
    assert (Hq0 : 0 <= Z.abs (lag_of g p) / total_weight g) by (apply div_nonneg; lia).
    destruct (Z.eqb_spec (total_weight g) 0) as [HWz | HWnz]; cbn [orb].
    { cbn [vtime_now total_weight with_total_weight]. lia. }
    destruct (Z.eqb_spec W2 0) as [HW2z | HW2nz].
    { cbn [vtime_now total_weight with_total_weight]. lia. }
    cbn [vtime_now total_weight with_total_weight with_vtime_now].
    set (a := signed_quot (lag_of g p) (total_weight g)).
    set (b := signed_quot (lag_of g p) W2).
    pose proof (signed_quot_range (lag_of g p) (total_weight g) Hl ltac:(lia)) as Ha.
    pose proof (signed_quot_range (lag_of g p) W2 Hl ltac:(lia)) as Hb.
    pose proof (signed_quot_s64 (lag_of g p) (total_weight g) Hl ltac:(lia)) as Har.
    pose proof (signed_quot_s64 (lag_of g p) W2 Hl ltac:(lia)) as Hbr.
    fold a in Ha, Har. fold b in Hb, Hbr.
    assert (Hab : 0 <= a * b).
    { destruct (signed_quot_sign (lag_of g p) (total_weight g) ltac:(lia)) as [Sa1 Sa2].
      destruct (signed_quot_sign (lag_of g p) W2 ltac:(lia)) as [Sb1 Sb2].
      fold a in Sa1, Sa2. fold b in Sb1, Sb2.
      destruct (Z_le_gt_dec 0 (lag_of g p)); nia. }
    pose proof (s64_sub_same_sign_abs a b Har Hbr Hab) as Hd.
    pose proof (sat_u64_lower (vtime_now g) (s64_sub a b) HV). lia.
  - destruct (eevdf_enable_spec p s g Hg HV) as (s' & -> & Hs').
    eexists _, s', _. split; [reflexivity |]. split; [exact Hs' |].
    set (W' := enable_sum _ _) in *.
    assert (HW' : 0 <= W' < 2^64) by apply wrap64_range.
    set (l := lag_of g (enabled_task g p)) in *.
    pose proof (lag_of_range g (enabled_task g p)) as Hl. fold l in Hl.
    destruct (Z.eqb_spec W' 0) as [HWz | HWnz];
      cbn [vtime_now total_weight with_total_weight with_vtime_now].
    { rewrite HWz. rewrite Z.div_0_r. lia. }
    pose proof (signed_quot_range l W' Hl ltac:(lia)) as Hq.
    pose proof (signed_quot_s64 l W' Hl ltac:(lia)) as Hqr.
    pose proof (s64_neg_abs (signed_quot l W') Hqr) as Hn.
    pose proof (sat_u64_lower (vtime_now g) (s64_neg (signed_quot l W')) HV). lia.
  - destruct (eevdf_disable_spec p s g Hg HV HW) as (s' & -> & Hs').
    eexists p, s', _. split; [reflexivity |]. split; [exact Hs' |].
    set (W' := disable_sum _ _) in *.
    assert (HW' : 0 <= W' < 2^64).
    { unfold W', disable_sum. destruct (_ >=? _); [apply wrap64_range | lia]. }
    pose proof (lag_of_range g p) as Hl.
    destruct (Z.eqb_spec W' 0) as [HWz | HWnz];
      cbn [vtime_now total_weight with_total_weight with_vtime_now].
    { rewrite HWz. rewrite Z.div_0_r. lia. }
    pose proof (signed_quot_range (lag_of g p) W' Hl ltac:(lia)) as Hq.
    pose proof (sat_u64_lower (vtime_now g) (signed_quot (lag_of g p) W') HV). lia.
  - destruct (eevdf_init_frame ret_big ret_little s g Hg) as (g' & Hg' & HV').
    exists p, (eevdf_init ret_big ret_little s).2, g'. auto.
Qed.

Lemma C1_vtime_now_monotone_witness :
  exists p' s' g',
    run_handler SLICE_20MS H_disable S4_task S4_state = Some (p', s') /\
    get_ctx s' = Some g' /\
    vtime_now_moves SLICE_20MS H_disable S4_state (mk_ctx 100 5 1024) S4_task g' p'.
Proof.
  apply (C1_vtime_now_monotone SLICE_20MS H_disable S4_task S4_state (mk_ctx 100 5 1024)).
  - reflexivity.
  - vm_compute. split; [discriminate | reflexivity].
  - vm_compute. split; [discriminate | reflexivity].
  - vm_compute. split; [discriminate | reflexivity].
Defined.

(** ** The task's virtual time *)

Lemma div_by_weight_cached_nonneg val w tctx d t' :
  0 <= val -> 0 <= w ->
  div_by_weight_cached val w tctx = Some (d, t') -> 0 <= d.
Proof.
  intros Hval Hw. unfold div_by_weight_cached.
  assert (Hw1 : 0 < (if w =? 0 then 1 else w)) by (destruct (Z.eqb_spec w 0); lia).
  set (w1 := if w =? 0 then 1 else w) in *.
  destruct (refresh_weight_cache_total tctx w1) as (t1 & -> & _). simpl_bind.
  assert (Hslow : forall t, (q ← udiv val w1; Some (q, t)) = Some (d, t') -> 0 <= d).
  { intros t. rewrite udiv_Some by lia. simpl_bind. intros [= <- _].
    apply Z.div_pos; lia. }
  destruct t1 as [t|]; [| apply Hslow].
  destruct (negb (inv_weight t =? 0) && (val <=? U32_MAX)); [| apply Hslow].
  intros [= <- _]. apply Z.shiftr_nonneg. apply wrap64_range.
Qed.

Lemma eevdf_handlers_keep_task slice h p s :
  match h with
  | H_select_cpu _ _ _ | H_dispatch _ _ | H_running | H_set_weight _
  | H_disable | H_init _ _ =>
      exists s', run_handler slice h p s = Some (p, s')
  | _ => True
  end.
Proof.
  destruct h; cbn [run_handler]; try exact I; eauto.
  - destruct (eevdf_select_cpu_total slice p prev_cpu wake_flags rt s) as [r ->].
    simpl_bind. eauto.
  - unfold eevdf_running. destruct (get_ctx s); [destruct (time_before _ _) |]; eauto.
  - pose proof (eevdf_set_weight_total p new_weight s) as [r Hr].
    revert Hr. unfold eevdf_set_weight. destruct (get_ctx s); [| eauto].
    destruct (get_task_ctx p true s) as [tctx s0].
    destruct (refresh_weight_cache tctx _); simpl_bind; [| discriminate].
    destruct (_ || _); [eauto |].
    repeat match goal with
           | |- context [div_signed_u64 ?a ?b] =>
               destruct (div_signed_u64 a b); simpl_bind
           end; try discriminate; eauto.
  - pose proof (eevdf_disable_total p s) as [r Hr].
    revert Hr. unfold eevdf_disable. destruct (get_ctx s) as [g|]; [| eauto].
    set (ns := if total_weight g >=? _ then _ else _).
    destruct (ns =? 0); simpl_bind; [eauto |].
    destruct (div_signed_u64 _ _); simpl_bind; [| discriminate]. eauto.
Qed.

(** C9, as stated, fails: [stopping] adds to [dsq_vtime] modulo [2^64], so
    from [dsq_vtime = 2^64 - 1] a full slice on a full-capacity CPU leaves
    1999999999; and [enqueue] clamps with the wrap-safe [time_before], which
    sees [2^64 - 1] as before the floor 0 and lowers it to 0. *)
Lemma C9_counterexample :
  (ve_after (eevdf_stopping SLICE_20MS top_task false 0 zero_state)
     = Some 1999999999 /\
   scx_dsq_vtime top_task = U64_MAX /\ 1999999999 < U64_MAX) /\
  (ve_after (eevdf_enqueue SLICE_20MS top_task 0 zero_state) = Some 0 /\
   0 < U64_MAX).
Proof.
  repeat split; try (vm_compute; reflexivity).
Qed.

(** C9 (amended): the task's [dsq_vtime] is left as it was by [running],
    [dispatch], [set_weight] and [disable] (and by [select_cpu] and
    [init]); [enable] overwrites it, with the current non-negative [V],
    only when it is 0; [enqueue] does not lower it when it is less than
    [2^63] above the floor [max(0, V - Q_max)], and sets it to
    [max(v_e, floor)] when it is within [2^63] of the floor; [stopping] adds,
    modulo [2^64], the increment it computes, which is the quotient
    [div_by_weight_cached] returns for the service accounted on the CPU
    ([consumed * rho_c * 100 / 1024]) and the task's weight and is never
    negative, so the result is exactly [dsq_vtime + increment], not lower
    than before, when that sum is at most [2^64 - 1].  Under these
    conditions [dsq_vtime] after the call is at least [dsq_vtime] before. *)
Theorem C9_dsq_vtime_monotone
    (slice : Z) (h : handler) (p : task_struct) (s : sched_state) :
  0 <= scx_dsq_vtime p < 2^64 -> 0 <= scx_weight p < 2^32 ->
  (forall g, get_ctx s = Some g -> 0 <= vtime_now g < 2^64) ->
  exists p' s',
    run_handler slice h p s = Some (p', s') /\
    dsq_vtime_moves slice h s p p'.
Proof.
  intros Hve Hw HV.
  pose proof (eevdf_handlers_keep_task slice h p s) as Hkeep.
  destruct h; cbn [dsq_vtime_moves];
    try (lazymatch type of Hkeep with
         | ex _ => destruct Hkeep as [s' ->]; exists p, s'; split; reflexivity
         end).
  - (* enqueue *)
    cbn [run_handler]. destruct (get_ctx s) as [g|] eqn:Hg.
    + destruct (eevdf_enqueue_spec slice p enq_flags s g Hg)
        as (d & t & s1 & _ & _ & ->).
      eexists _, _. split; [reflexivity |]. cbn [scx_dsq_vtime set_dsq_vtime].
      set (Q := q_max_of slice (max_cap_of (Some g))).
      pose proof (q_max_of_range slice (max_cap_of (Some g))) as HQ. fold Q in HQ.
      rewrite min_ve_of_eq by (auto || lia).
      destruct (clamp_ve_cases (vtime_now g) Q (scx_dsq_vtime p) (HV g eq_refl)
                  ltac:(lia) Hve) as [[-> Hc] | [-> Hc]]; lia.
    + unfold eevdf_enqueue. rewrite Hg. eexists _, _. split; reflexivity.
  - (* stopping *)
    cbn [run_handler].
    destruct (eevdf_stopping_spec slice p runnable cpu s) as (d & t & s' & Hd & -> & _).
    eexists _, _. split; [reflexivity |]. cbn [scx_dsq_vtime set_dsq_vtime].
    assert (Hd0 : 0 <= d).
    { eapply div_by_weight_cached_nonneg; [| | exact Hd].
      - unfold svc_vtime_of, CAPACITY_SCALE.
        apply Z.div_pos; [apply wrap64_range | lia].
      - unfold clamp_weight. destruct (Z.eqb_spec (scx_weight p) 0); lia. }
    exists d, t. split; [exact Hd |]. split; [assumption |]. split; [reflexivity |].
    intros Hfit. unfold U64_MAX in Hfit. rewrite wrap64_small by lia. lia.
  - (* enable *)
    cbn [run_handler]. destruct (get_ctx s) as [g|] eqn:Hg.
    + destruct (eevdf_enable_spec p s g Hg (HV g eq_refl)) as (s' & -> & _).
      eexists _, _. split; [reflexivity |]. unfold enabled_task.
      pose proof (HV g eq_refl).
      destruct (Z.eqb_spec (scx_dsq_vtime p) 0) as [Hz | Hnz];
        cbn [scx_dsq_vtime set_dsq_vtime]; lia.
    + unfold eevdf_enable. rewrite Hg. eexists _, _. split; reflexivity.
Qed.

Lemma C9_dsq_vtime_monotone_witness :
  exists p' s',
    run_handler SLICE_20MS (H_stopping false 0) S3_task S3_state = Some (p', s') /\
    dsq_vtime_moves SLICE_20MS (H_stopping false 0) S3_state S3_task p'.
Proof.
  apply (C9_dsq_vtime_monotone SLICE_20MS (H_stopping false 0) S3_task S3_state).
  - vm_compute. split; [discriminate | reflexivity].
  - vm_compute. split; [discriminate | reflexivity].
  - intros g [= <-]. vm_compute. split; [discriminate | reflexivity].
Defined.

(** ** Homogeneous reduction *)

(** Two ways in which the orders differ, all capacities being
    [CAP_SCALE].  At [V = 0]
    (below [SLICE]) the classical floor [V - SLICE] wraps around while the
    heterogeneous one is 0: tasks A ([w = 1], [v_e = 0]) and B ([w = 2],
    [v_e = 60 * SLICE]) get keys ordered A before B by the heterogeneous
    enqueue and B before A by the classical one.  At [V = 2 * 10^10] the
    heterogeneous enqueue divides by the cached reciprocal: tasks of
    weights 3 and 1 get keys ordered one way by it and the other way by the
    classical exact division. *)
Lemma C5_counterexample :
  (het_keys (eevdf_enqueue SLICE_20MS task_A0 0 (homog_state 0)) = Some [2000000000] /\
   het_keys (eevdf_enqueue SLICE_20MS task_B0 0 (homog_state 0)) = Some [2200000000] /\
   classic_keys (Classic.eevdf_enqueue SLICE_20MS task_A0 0 (classic_state 0))
     = Some [1980000000] /\
   classic_keys (Classic.eevdf_enqueue SLICE_20MS task_B0 0 (classic_state 0))
     = Some [980000000] /\
   (2000000000 ?= 2200000000) <> (1980000000 ?= 980000000)) /\
  (het_keys (eevdf_enqueue SLICE_20MS task_A1 0 (homog_state 20000000000))
     = Some [21999999530] /\
   het_keys (eevdf_enqueue SLICE_20MS task_B1 0 (homog_state 20000000000))
     = Some [22000000000] /\
   classic_keys (Classic.eevdf_enqueue SLICE_20MS task_A1 0 (classic_state 20000000000))
     = Some [22000000166] /\
   classic_keys (Classic.eevdf_enqueue SLICE_20MS task_B1 0 (classic_state 20000000000))
     = Some [22000000000] /\
   (21999999530 ?= 22000000000) <> (22000000166 ?= 22000000000)).
Proof.
  repeat split; try (vm_compute; reflexivity); vm_compute; discriminate.
Qed.

(** C5 (the code departs from the claim): every capacity is [CAP_SCALE]
    and both schedulers are at [V = 2 * 10^10] with the same weight sum.
    Task A ([w = 3], [v_e = V + 1333333500]) and task B ([w = 1],
    [v_e = V]) are each enqueued from that state.  The classical enqueue
    divides exactly ([SLICE * 100 / 3 = 666666666]) and keys B before A;
    the heterogeneous enqueue multiplies by the cached 20-bit reciprocal
    ([349525] for [w = 3], giving [666666030]) and keys A before B. *)
Lemma C5_reciprocal_flips_order :
  cpu_capacity (homog_state 20000000000) = [1024; 1024] /\
  max_cap_of (get_ctx (homog_state 20000000000)) = CAPACITY_SCALE /\
  het_keys (eevdf_enqueue SLICE_20MS task_A1 0 (homog_state 20000000000))
    = Some [21999999530] /\
  het_keys (eevdf_enqueue SLICE_20MS task_B1 0 (homog_state 20000000000))
    = Some [22000000000] /\
  classic_keys (Classic.eevdf_enqueue SLICE_20MS task_A1 0 (classic_state 20000000000))
    = Some [22000000166] /\
  classic_keys (Classic.eevdf_enqueue SLICE_20MS task_B1 0 (classic_state 20000000000))
    = Some [22000000000] /\
  (21999999530 ?= 22000000000) = Lt /\ (22000000166 ?= 22000000000) = Gt /\
  inv_of 3 = 349525 /\
  het_offset (SLICE_20MS * SCALE) 3 = 666666030 /\
  SLICE_20MS * SCALE / 3 = 666666666.
Proof.
  repeat split; vm_compute; reflexivity.
Qed.

Lemma div_by_weight_cached_coherent (val w : Z) (t : eevdf_task_ctx) :
  1 <= w < 2^32 -> 0 <= val -> tctx_coherent t ->
  exists t', div_by_weight_cached val w (Some t) = Some (het_offset val w, Some t') /\
             weight_cached t' = w /\ inv_weight t' = inv_of w.
Proof.
  intros Hw Hval Hc. unfold het_offset.
  destruct (Z.leb_spec val U32_MAX) as [Hle | Hgt].
  - apply div_by_weight_cached_fast; auto.
  - unfold div_by_weight_cached.
    destruct (Z.eqb_spec w 0) as [|_]; [lia |].
    destruct (refresh_weight_cache_coherent t w Hc) as (t' & -> & Hwc & Hinv).
    destruct (Z.eqb_spec w 0) as [|_]; [lia |]. simpl_bind.
    destruct (Z.leb_spec val U32_MAX) as [|_]; [lia |].
    rewrite andb_false_r. rewrite udiv_Some by lia. simpl_bind.
    exists t'. auto.
Qed.

Lemma enqueue_offset_coherent (val w : Z) (t : eevdf_task_ctx) :
  1 <= w < 2^32 -> 0 <= val -> tctx_coherent t ->
  exists t', enqueue_offset val w (Some t) = Some (het_offset val w, Some t').
Proof.
  intros Hw Hval Hc. unfold enqueue_offset.
  destruct (refresh_weight_cache_coherent t w Hc) as (t1 & -> & Hwc & Hinv).
  destruct (Z.eqb_spec w 0) as [|_]; [lia |]. simpl_bind.
  assert (Hc1 : tctx_coherent t1) by (right; rewrite Hwc, Hinv; split; [lia | reflexivity]).
  destruct (div_by_weight_cached_coherent val w t1 Hw Hval Hc1) as (t' & -> & _).
  eauto.
Qed.

Lemma het_offset_range val w :
  1 <= w < 2^32 -> 0 <= val -> 0 <= het_offset val w <= val.
Proof.
  intros Hw Hval. unfold het_offset. pose proof (inv_of_range w Hw) as Hi.
  destruct (val <=? U32_MAX).
  - split; [apply Z.div_pos; nia |].
    apply Z.div_le_upper_bound; [lia | nia].
  - split; [apply Z.div_pos; lia |].
    apply Z.div_le_upper_bound; [lia | nia].
Qed.

Lemma get_task_ctx_coherent p s :
  storage_avail s = true ->
  (forall t, task_ctx_map s !! pid p = Some t -> tctx_coherent t) ->
  exists t, (get_task_ctx p true s).1 = Some t /\ tctx_coherent t.
Proof.
  intros Ha Hc. unfold get_task_ctx.
  destruct (task_ctx_map s !! pid p) as [t|]; cbn [fst].
  - exists t. auto.
  - rewrite Ha. cbn [andb fst]. exists tctx_zero. split; [reflexivity |].
    left. reflexivity.
Qed.

Lemma classic_enqueue_spec slice p fl c gc :
  Classic.get_ctx c = Some gc ->
  let V := Classic.vtime_now gc in
  let ve' := if scx_dsq_vtime p <? wrap64 (V - slice)
             then wrap64 (V - slice) else scx_dsq_vtime p in
  classic_enqueues slice p fl c ve'
    (wrap64 (ve' + wrap64 (slice * SCALE) / clamp_weight (scx_weight p))).
Proof.
  intros Hg V ve'. unfold classic_enqueues, Classic.eevdf_enqueue.
  assert (Hg' : Classic.get_ctx (Classic.stat_inc 1 c) = Some gc).
  { unfold Classic.stat_inc. destruct (Classic.stats c !! Z.to_nat 1); assumption. }
  rewrite Hg'. fold V. fold ve'. fold (clamp_weight (scx_weight p)).
  rewrite udiv_Some by apply clamp1_nonzero. simpl_bind. reflexivity.
Qed.

(** The clamp of the heterogeneous enqueue under [rho_max = CAP_SCALE]
    agrees with the classical one once [SLICE <= V] and both times are
    below [2^63]. *)
Lemma clamp_ve_classic slice V ve :
  0 <= slice < 2^32 -> slice <= V < 2^63 -> 0 <= ve < 2^63 ->
  clamp_ve V (q_max_of slice CAPACITY_SCALE) ve =
    (if ve <? wrap64 (V - slice) then wrap64 (V - slice) else ve).
Proof.
  intros Hs HV Hve.
  assert (HQ : q_max_of slice CAPACITY_SCALE = slice).
  { unfold q_max_of, CAPACITY_SCALE. rewrite wrap64_small by lia.
    rewrite Z.mul_comm. apply Z.div_mul. lia. }
  rewrite HQ. unfold clamp_ve. rewrite min_ve_of_eq by lia.
  rewrite (wrap64_small (V - slice)) by lia.
  replace (Z.max 0 (V - slice)) with (V - slice) by lia.
  rewrite time_before_lt by lia. reflexivity.
Qed.

(** How far the offset of the heterogeneous enqueue is from the exact
    quotient the classical enqueue adds. *)
Lemma het_offset_error val w :
  1 <= w <= 2^20 -> 0 <= val ->
  Z.abs (het_offset val w - val / w) <= val / 2^21 + 1.
Proof.
  intros Hw Hval. unfold het_offset. destruct (val <=? U32_MAX).
  - rewrite inv_of_eq by assumption. apply reciprocal_error; assumption.
  - rewrite Z.sub_diag.
    assert (0 <= val / 2^21) by (apply Z.div_pos; lia). lia.
Qed.

Lemma compare_add_r a b d : (a + d ?= b + d) = (a ?= b).
Proof. rewrite (Z.add_comm a), (Z.add_comm b). apply Z.add_compare_mono_l. Qed.

Lemma het_enqueue_homogeneous slice p fl s g :
  0 <= slice < 2^32 ->
  get_ctx s = Some g ->
  max_cap_of (Some g) = CAPACITY_SCALE ->
  slice <= vtime_now g < 2^63 ->
  0 <= scx_dsq_vtime p < 2^63 ->
  0 <= scx_weight p < 2^32 ->
  storage_avail s = true ->
  (forall t, task_ctx_map s !! pid p = Some t -> tctx_coherent t) ->
  let ve' := if scx_dsq_vtime p <? wrap64 (vtime_now g - slice)
             then wrap64 (vtime_now g - slice) else scx_dsq_vtime p in
  het_enqueues slice p fl s ve'
    (ve' + het_offset (slice * SCALE) (clamp_weight (scx_weight p))) /\
  0 <= ve' < 2^63.
Proof.
  intros Hs Hg Hmc HV Hve Hw Ha Hcoh ve'.
  destruct (eevdf_enqueue_spec slice p fl s g Hg) as (d & t' & s1 & Hoff & _ & Henq).
  rewrite Hmc in Hoff, Henq.
  rewrite clamp_ve_classic in Henq by assumption. fold ve' in Henq.
  assert (HQ : q_max_of slice CAPACITY_SCALE = slice).
  { unfold q_max_of, CAPACITY_SCALE. rewrite wrap64_small by lia.
    rewrite Z.mul_comm. apply Z.div_mul. lia. }
  rewrite HQ in Hoff.
  assert (Hval : wrap64 (slice * SCALE) = slice * SCALE)
    by (apply wrap64_small; unfold SCALE; lia).
  rewrite Hval in Hoff.
  assert (Hw1 : 1 <= clamp_weight (scx_weight p) < 2^32)
    by (unfold clamp_weight; destruct (Z.eqb_spec (scx_weight p) 0); lia).
  destruct (get_task_ctx_coherent p s Ha Hcoh) as (t0 & Ht0 & Hc0).
  rewrite Ht0 in Hoff.
  destruct (enqueue_offset_coherent (slice * SCALE) (clamp_weight (scx_weight p)) t0
              Hw1 ltac:(unfold SCALE; lia) Hc0) as (t1 & Hoff').
  rewrite Hoff' in Hoff. injection Hoff as <- <-.
  pose proof (het_offset_range (slice * SCALE) (clamp_weight (scx_weight p))
                Hw1 ltac:(unfold SCALE; lia)) as Hd.
  assert (Hve' : 0 <= ve' < 2^63).
  { unfold ve'. rewrite (wrap64_small (vtime_now g - slice)) by lia.
    destruct (scx_dsq_vtime p <? vtime_now g - slice); lia. }
  split; [| assumption].
  cbn [scx_dsq_vtime set_dsq_vtime] in Henq.
  rewrite wrap64_small in Henq by (unfold SCALE in *; lia).
  unfold het_enqueues. eauto.
Qed.

(** Where the two enqueues do agree: when [rho_max = CAP_SCALE] (as when
    every capacity is [CAP_SCALE]), [SLICE <= V < 2^63] and the tasks'
    virtual times are below [2^63], the heterogeneous enqueue stores the
    same clamped [v_e] as the classical one; and, task contexts being
    available and coherent, for two tasks of the same weight enqueued from
    the same global state the heterogeneous [v_d] keys compare ([<], [=],
    [>]) as the classical keys do, the two offsets being equal. *)
Theorem C5_homogeneous_order
    (slice : Z) (p1 p2 : task_struct) (fl : Z) (s : sched_state)
    (c : Classic.sched_state) (g : eevdf_ctx) (gc : Classic.eevdf_ctx) :
  0 <= slice < 2^32 ->
  get_ctx s = Some g -> Classic.get_ctx c = Some gc ->
  Classic.vtime_now gc = vtime_now g ->
  max_cap_of (Some g) = CAPACITY_SCALE ->
  slice <= vtime_now g < 2^63 ->
  0 <= scx_dsq_vtime p1 < 2^63 -> 0 <= scx_dsq_vtime p2 < 2^63 ->
  0 <= scx_weight p1 < 2^32 -> scx_weight p2 = scx_weight p1 ->
  storage_avail s = true ->
  (forall k t, task_ctx_map s !! k = Some t -> tctx_coherent t) ->
  exists ve1 ve2 vd1 vd2 cvd1 cvd2,
    het_enqueues slice p1 fl s ve1 vd1 /\ het_enqueues slice p2 fl s ve2 vd2 /\
    classic_enqueues slice p1 fl c ve1 cvd1 /\
    classic_enqueues slice p2 fl c ve2 cvd2 /\
    (vd1 ?= vd2) = (cvd1 ?= cvd2).
Proof.
  intros Hs Hg Hgc HVc Hmc HV Hve1 Hve2 Hw1 Hw2 Ha Hcoh.
  assert (Hw2r : 0 <= scx_weight p2 < 2^32) by (rewrite Hw2; assumption).
  destruct (het_enqueue_homogeneous slice p1 fl s g Hs Hg Hmc HV Hve1 Hw1 Ha
              (Hcoh (pid p1))) as [Hh1 Hr1].
  destruct (het_enqueue_homogeneous slice p2 fl s g Hs Hg Hmc HV Hve2 Hw2r Ha
              (Hcoh (pid p2))) as [Hh2 Hr2].
  pose proof (classic_enqueue_spec slice p1 fl c gc Hgc) as Hc1.
  pose proof (classic_enqueue_spec slice p2 fl c gc Hgc) as Hc2.
  cbn zeta in Hc1, Hc2. rewrite HVc in Hc1, Hc2. rewrite Hw2 in *.
  set (w := clamp_weight (scx_weight p1)) in *.
  assert (Hw : 1 <= w < 2^32)
    by (unfold w, clamp_weight; destruct (Z.eqb_spec (scx_weight p1) 0); lia).
  set (ve1 := if scx_dsq_vtime p1 <? _ then _ else _) in *.
  set (ve2 := if scx_dsq_vtime p2 <? _ then _ else _) in *.
  assert (Hval : wrap64 (slice * SCALE) = slice * SCALE)
    by (apply wrap64_small; unfold SCALE; lia).
  rewrite Hval in Hc1, Hc2.
  pose proof (het_offset_range (slice * SCALE) w Hw ltac:(unfold SCALE; lia)) as Hd.
  assert (Hdc : 0 <= slice * SCALE / w <= slice * SCALE).
  { split; [apply Z.div_pos; unfold SCALE; lia |].
    apply Z.div_le_upper_bound; [lia |]. unfold SCALE. nia. }
  rewrite (wrap64_small (ve1 + _)) in Hc1 by (unfold SCALE in *; lia).
  rewrite (wrap64_small (ve2 + _)) in Hc2 by (unfold SCALE in *; lia).
  eexists ve1, ve2, _, _, _, _.
  split; [exact Hh1 |]. split; [exact Hh2 |].
  split; [exact Hc1 |]. split; [exact Hc2 |].
  rewrite !compare_add_r. reflexivity.
Qed.

Lemma C5_homogeneous_order_witness :
  exists ve1 ve2 vd1 vd2 cvd1 cvd2,
    het_enqueues SLICE_20MS (mk_task 1 0 20000000005 0) 0
      (homog_state 20000000000) ve1 vd1 /\
    het_enqueues SLICE_20MS task_B1 0 (homog_state 20000000000) ve2 vd2 /\
    classic_enqueues SLICE_20MS (mk_task 1 0 20000000005 0) 0
      (classic_state 20000000000) ve1 cvd1 /\
    classic_enqueues SLICE_20MS task_B1 0 (classic_state 20000000000) ve2 cvd2 /\
    (vd1 ?= vd2) = (cvd1 ?= cvd2).
Proof.
  apply (C5_homogeneous_order SLICE_20MS (mk_task 1 0 20000000005 0) task_B1 0
           (homog_state 20000000000) (classic_state 20000000000)
           (mk_ctx 20000000000 3 1024)
           {| Classic.vtime_now := 20000000000; Classic.total_weight := 3 |}).
  - vm_compute. split; [discriminate | reflexivity].
  - reflexivity.
  - reflexivity.
  - reflexivity.
  - reflexivity.
  - vm_compute. split; [discriminate | reflexivity].
  - vm_compute. split; [discriminate | reflexivity].
  - vm_compute. split; [discriminate | reflexivity].
  - vm_compute. split; [discriminate | reflexivity].
  - reflexivity.
  - reflexivity.
  - intros k t H. unfold homog_state, mk_state in H. cbn [task_ctx_map] in H.
    rewrite lookup_empty in H. discriminate.
Defined.

(** * Further properties of the scheduler's helpers *)

(** X1: after [refresh_weight_cache] on a task context, for a u32 weight,
    the context caches the weight (zero read as one) with a non-zero
    inverse, so that refreshing again with the same weight changes nothing;
    and a coherent context comes out holding the reciprocal of the
    weight. *)
Theorem X1_refresh_weight_cache_idempotent
    (t t1 : eevdf_task_ctx) (w : Z) :
  0 <= w < 2^32 ->
  refresh_weight_cache (Some t) w = Some (Some t1) ->
  weight_cached t1 = clamp_weight w /\
  inv_weight t1 <> 0 /\
  refresh_weight_cache (Some t1) w = Some (Some t1) /\
  (tctx_coherent t -> inv_weight t1 = inv_of (clamp_weight w)).
Proof.
  intros Hw Hr. unfold clamp_weight.
  destruct (refresh_weight_cache_Some t w) as (t' & Hr' & Hwc & Hcase).
  rewrite Hr' in Hr. injection Hr as <-.
  assert (Hw1 : 1 <= (if w =? 0 then 1 else w) < 2^32)
    by (destruct (Z.eqb_spec w 0); lia).
  pose proof (inv_of_range _ Hw1) as Hinv.
  assert (Hnz : inv_weight t' <> 0).
  { destruct Hcase as [(_ & Hnz & ->) | ->]; [assumption | lia]. }
  split; [assumption |]. split; [assumption |]. split.
  - unfold refresh_weight_cache. rewrite Hwc, Z.eqb_refl.
    destruct (Z.eqb_spec (inv_weight t') 0); [contradiction | reflexivity].
  - intros Hc. destruct (refresh_weight_cache_coherent t w Hc) as (t2 & Hr2 & _ & Hi).
    rewrite Hr' in Hr2. injection Hr2 as <-. assumption.
Qed.

Lemma X1_refresh_weight_cache_idempotent_witness :
  weight_cached {| weight_cached := 100; inv_weight := inv_of 100 |} = clamp_weight 100 /\
  inv_weight {| weight_cached := 100; inv_weight := inv_of 100 |} <> 0 /\
  refresh_weight_cache (Some {| weight_cached := 100; inv_weight := inv_of 100 |}) 100
    = Some (Some {| weight_cached := 100; inv_weight := inv_of 100 |}) /\
  (tctx_coherent tctx_zero ->
   inv_weight {| weight_cached := 100; inv_weight := inv_of 100 |}
     = inv_of (clamp_weight 100)).
Proof.
  apply (X1_refresh_weight_cache_idempotent tctx_zero
           {| weight_cached := 100; inv_weight := inv_of 100 |} 100).
  - lia.
  - vm_compute. reflexivity.
Defined.

(** X2: [div_by_weight_cached] falls back to the exact quotient by the
    weight (zero read as one) when the task has no context, and, with a
    context, when the value is above [2^32 - 1]; in both cases the
    quotient is [val / w] with no rounding of the reciprocal. *)
Theorem X2_div_by_weight_cached_exact_fallback
    (val w : Z) (tctx : option eevdf_task_ctx) :
  tctx = None \/ U32_MAX < val ->
  exists tctx',
    div_by_weight_cached val w tctx = Some (val / clamp_weight w, tctx') /\
    (tctx = None <-> tctx' = None).
Proof.
  intros Hcase. unfold div_by_weight_cached, clamp_weight.
  set (w1 := if w =? 0 then 1 else w).
  assert (Hw1 : w1 <> 0) by apply clamp1_nonzero.
  destruct (refresh_weight_cache_total tctx w1) as (t1 & -> & Hnone). simpl_bind.
  destruct t1 as [t|].
  - destruct Hcase as [-> | Hbig]; [destruct Hnone as [Hn _]; discriminate (Hn eq_refl) |].
    destruct (Z.leb_spec val U32_MAX) as [|_]; [lia |].
    rewrite andb_false_r. rewrite udiv_Some by assumption. simpl_bind.
    eexists. split; [reflexivity | assumption].
  - rewrite udiv_Some by assumption. simpl_bind.
    eexists. split; [reflexivity | assumption].
Qed.

Lemma X2_div_by_weight_cached_exact_fallback_witness :
  exists tctx',
    div_by_weight_cached 5000000000 3 (Some tctx_zero)
      = Some (5000000000 / clamp_weight 3, tctx') /\
    (Some tctx_zero = None <-> tctx' = None).
Proof.
  apply (X2_div_by_weight_cached_exact_fallback 5000000000 3 (Some tctx_zero)).
  right. vm_compute. reflexivity.
Defined.

Lemma inv_of_pow2 k : 0 <= k <= 20 -> inv_of (2^k) = 2^(20 - k).
Proof.
  intros Hk.
  assert (Hp : 1 <= 2^k <= 2^20).
  { split; [pose proof (Z.pow_pos_nonneg 2 k); lia |].
    apply Z.pow_le_mono_r; lia. }
  rewrite inv_of_eq by assumption.
  assert (Hsplit : 2^20 = 2^(20 - k) * 2^k)
    by (rewrite <- Z.pow_add_r by lia; f_equal; lia).
  rewrite Hsplit at 1.
  rewrite Z.div_add_l by lia.
  rewrite (Z.div_small (2^k / 2)); [lia |].
  split; [apply Z.div_pos; lia |].
  apply Z.div_lt_upper_bound; lia.
Qed.

(** X3: for a weight that is a power of two up to [2^20] the cached
    reciprocal is exact: on a coherent context the fast path of
    [div_by_weight_cached] returns the exact quotient [val / 2^k] for every
    value up to [2^32 - 1]. *)
Theorem X3_reciprocal_exact_for_powers_of_two
    (k val : Z) (t : eevdf_task_ctx) :
  0 <= k <= 20 -> 0 <= val <= U32_MAX -> tctx_coherent t ->
  exists t',
    div_by_weight_cached val (2^k) (Some t) = Some (val / 2^k, Some t') /\
    inv_weight t' = 2^(20 - k).
Proof.
  intros Hk Hval Hc.
  assert (Hp : 1 <= 2^k <= 2^20).
  { split; [pose proof (Z.pow_pos_nonneg 2 k); lia |].
    apply Z.pow_le_mono_r; lia. }
  destruct (div_by_weight_cached_fast val (2^k) t ltac:(lia) Hval Hc)
    as (t' & Hd & _ & Hi).
  rewrite inv_of_pow2 in Hd, Hi by assumption.
  exists t'. split; [| assumption]. rewrite Hd. f_equal. f_equal.
  assert (Hsplit : 2^20 = 2^(20 - k) * 2^k)
    by (rewrite <- Z.pow_add_r by lia; f_equal; lia).
  rewrite Hsplit at 1.
  assert (0 < 2^(20 - k)) by (apply Z.pow_pos_nonneg; lia).
  rewrite (Z.mul_comm val), Z.div_mul_cancel_l by lia. reflexivity.
Qed.

Lemma X3_reciprocal_exact_for_powers_of_two_witness :
  exists t',
    div_by_weight_cached 4294967295 (2^3) (Some tctx_zero)
      = Some (4294967295 / 2^3, Some t') /\
    inv_weight t' = 2^(20 - 3).
Proof.
  apply (X3_reciprocal_exact_for_powers_of_two 3 4294967295 tctx_zero).
  - lia.
  - vm_compute. split; discriminate.
  - left. reflexivity.
Defined.

(** X4: [abs_s64_to_u64] returns the absolute value of every signed
    64-bit number without overflowing: the most negative one, [-2^63],
    gives [2^63], and the result never exceeds [2^63]. *)
Theorem X4_abs_s64_to_u64_total (v : Z) :
  - 2^63 <= v < 2^63 ->
  abs_s64_to_u64 v = Z.abs v /\
  0 <= abs_s64_to_u64 v <= 2^63 /\
  abs_s64_to_u64 (- 2^63) = 2^63.
Proof.
  intros Hv. rewrite abs_s64_to_u64_eq by assumption.
  split; [reflexivity |]. split; [lia |]. vm_compute. reflexivity.
Qed.

Lemma X4_abs_s64_to_u64_total_witness :
  abs_s64_to_u64 (- 20) = Z.abs (- 20) /\
  0 <= abs_s64_to_u64 (- 20) <= 2^63 /\
  abs_s64_to_u64 (- 2^63) = 2^63.
Proof. apply (X4_abs_s64_to_u64_total (- 20)). lia. Defined.

(** X5: [div_signed_u64] divides truncating toward zero: for a signed
    64-bit numerator and a non-zero u64 denominator it returns the
    quotient [num ÷ den] (so it is odd in the numerator and its magnitude
    never exceeds the numerator's), and for a zero denominator it returns 0
    instead of dividing. *)
Theorem X5_div_signed_u64_truncates (num den : Z) :
  - 2^63 <= num < 2^63 -> 0 < den < 2^64 ->
  div_signed_u64 num den = Some (Z.quot num den) /\
  Z.abs (Z.quot num den) <= Z.abs num /\
  div_signed_u64 num 0 = Some 0 /\
  (- 2^63 < num -> div_signed_u64 (- num) den = Some (- Z.quot num den)).
Proof.
  intros Hn Hd.
  assert (Hq : forall n, Z.sgn n * (Z.abs n / den) = Z.quot n den).
  { intros n. rewrite Z.quot_div by lia.
    rewrite (Z.sgn_pos den), (Z.abs_eq den) by lia. lia. }
  assert (Hdiv : forall n, - 2^63 <= n < 2^63 ->
                 div_signed_u64 n den = Some (Z.quot n den)).
  { intros n Hr. rewrite div_signed_u64_eq by (assumption || lia).
    destruct (Z.eqb_spec den 0); [lia |]. rewrite Hq. reflexivity. }
  split; [apply Hdiv; assumption |]. split.
  - rewrite <- Hq.
    pose proof (signed_quot_range num den Hn ltac:(lia)) as Hr.
    unfold signed_quot in Hr. lia.
  - split; [reflexivity |]. intros Hmin.
    rewrite Hdiv by lia. rewrite Z.quot_opp_l by lia. reflexivity.
Qed.

Lemma X5_div_signed_u64_truncates_witness :
  div_signed_u64 (- 20) 3 = Some (Z.quot (- 20) 3) /\
  Z.abs (Z.quot (- 20) 3) <= Z.abs (- 20) /\
  div_signed_u64 (- 20) 0 = Some 0 /\
  (- 2^63 < - 20 -> div_signed_u64 (- - 20) 3 = Some (- Z.quot (- 20) 3)).
Proof. apply (X5_div_signed_u64_truncates (- 20) 3); lia. Defined.

(** X6: [add_signed_vtime] saturates instead of wrapping: for a u64
    clock and a signed 64-bit delta the new [vtime_now] is [V + delta]
    clamped to [0, 2^64 - 1], it moves in the direction of the delta, and
    the weight sum, the capacity and the padding are untouched. *)
Theorem X6_add_signed_vtime_saturates (g : eevdf_ctx) (delta : Z) :
  0 <= vtime_now g < 2^64 -> - 2^63 <= delta < 2^63 ->
  let g' := add_signed_vtime g delta in
  vtime_now g' = Z.min U64_MAX (Z.max 0 (vtime_now g + delta)) /\
  0 <= vtime_now g' < 2^64 /\
  (0 <= delta -> vtime_now g <= vtime_now g') /\
  (delta <= 0 -> vtime_now g' <= vtime_now g) /\
  total_weight g' = total_weight g /\
  max_capacity g' = max_capacity g /\ ctx_pad g' = ctx_pad g.
Proof.
  intros HV Hd g'. subst g'. rewrite add_signed_vtime_eq by assumption.
  cbn [vtime_now total_weight max_capacity ctx_pad with_vtime_now].
  unfold U64_MAX. repeat split; lia.
Qed.

Lemma X6_add_signed_vtime_saturates_witness :
  let g' := add_signed_vtime (mk_ctx 100 5 1024) (- 120) in
  vtime_now g' = Z.min U64_MAX (Z.max 0 (100 + - 120)) /\
  0 <= vtime_now g' < 2^64 /\
  (0 <= - 120 -> 100 <= vtime_now g') /\
  (- 120 <= 0 -> vtime_now g' <= 100) /\
  total_weight g' = 5 /\
  max_capacity g' = 1024 /\ ctx_pad g' = 0.
Proof.
  apply (X6_add_signed_vtime_saturates (mk_ctx 100 5 1024) (- 120)).
  - vm_compute. split; [discriminate | reflexivity].
  - lia.
Defined.

(** X7: the class of a CPU is monotone in its capacity: a CPU whose
    capacity reaches the maximum is BIG, a CPU at least as capable as a BIG
    one is BIG, and an unset (zero) maximum is read as [CAPACITY_SCALE]. *)
Theorem X7_class_dsq_id_monotone (cap cap' max_cap : Z) :
  0 <= cap < 2^32 -> 0 <= cap' < 2^32 -> 0 <= max_cap < 2^32 ->
  (max_cap <> 0 -> max_cap <= cap -> class_dsq_id cap max_cap = EEVDF_DSQ_BIG) /\
  (cap <= cap' -> class_dsq_id cap max_cap = EEVDF_DSQ_BIG ->
   class_dsq_id cap' max_cap = EEVDF_DSQ_BIG) /\
  class_dsq_id cap 0 = class_dsq_id cap CAPACITY_SCALE /\
  (class_dsq_id cap max_cap = EEVDF_DSQ_BIG <->
   BIG_CAP_PCT * (if max_cap =? 0 then CAPACITY_SCALE else max_cap) <= 100 * cap).
Proof.
  intros Hc Hc' Hm.
  assert (Hcls : forall c, 0 <= c < 2^32 ->
            (class_dsq_id c max_cap = EEVDF_DSQ_BIG <->
             BIG_CAP_PCT * (if max_cap =? 0 then CAPACITY_SCALE else max_cap) <= 100 * c)).
  { intros c Hcr. unfold class_dsq_id, CAPACITY_SCALE, BIG_CAP_PCT.
    set (m := if max_cap =? 0 then 1024 else max_cap).
    assert (Hmr : 1 <= m < 2^32) by (unfold m; destruct (Z.eqb_spec max_cap 0); lia).
    rewrite !wrap64_small by lia.
    destruct (Z.geb_spec (c * 100) (m * 90)); split; intros; try lia;
      try reflexivity; discriminate. }
  split; [| split; [| split]].
  - intros Hnz Hle. apply Hcls; [assumption |].
    destruct (Z.eqb_spec max_cap 0); [contradiction |]. unfold BIG_CAP_PCT. lia.
  - intros Hle Hbig. apply Hcls; [assumption |].
    apply Hcls in Hbig; [| assumption]. lia.
  - reflexivity.
  - apply Hcls. assumption.
Qed.

Lemma X7_class_dsq_id_monotone_witness :
  (1024 <> 0 -> 1024 <= 922 -> class_dsq_id 922 1024 = EEVDF_DSQ_BIG) /\
  (922 <= 1024 -> class_dsq_id 922 1024 = EEVDF_DSQ_BIG ->
   class_dsq_id 1024 1024 = EEVDF_DSQ_BIG) /\
  class_dsq_id 922 0 = class_dsq_id 922 CAPACITY_SCALE /\
  (class_dsq_id 922 1024 = EEVDF_DSQ_BIG <->
   BIG_CAP_PCT * (if 1024 =? 0 then CAPACITY_SCALE else 1024) <= 100 * 922).
Proof. apply (X7_class_dsq_id_monotone 922 1024 1024); lia. Defined.

(** X8: before the agent has written anything usable, the system is
    homogeneous: when every entry of the capacity table is zero (or the
    CPU has no entry) and the maximum capacity is unset or
    [CAPACITY_SCALE], [get_cpu_cap] answers [CAPACITY_SCALE] for every CPU
    and every CPU is of class BIG. *)
Theorem X8_default_is_homogeneous (s : sched_state) (cpu : Z) :
  Forall (fun c => c = 0) (cpu_capacity s) ->
  max_cap_of (get_ctx s) = CAPACITY_SCALE ->
  get_cpu_cap s cpu = CAPACITY_SCALE /\
  class_dsq_id (get_cpu_cap s cpu) (max_cap_of (get_ctx s)) = EEVDF_DSQ_BIG.
Proof.
  intros Hz Hm.
  assert (Hcap : get_cpu_cap s cpu = CAPACITY_SCALE).
  { unfold get_cpu_cap. destruct (cpu_capacity s !! Z.to_nat cpu) as [c|] eqn:E;
      [| reflexivity].
    rewrite (Forall_lookup_1 _ _ _ _ Hz E). reflexivity. }
  rewrite Hcap, Hm. split; reflexivity.
Qed.

Lemma X8_default_is_homogeneous_witness :
  get_cpu_cap (mk_state (mk_ctx 0 0 0) [0; 0] [] []) 1 = CAPACITY_SCALE /\
  class_dsq_id (get_cpu_cap (mk_state (mk_ctx 0 0 0) [0; 0] [] []) 1)
    (max_cap_of (get_ctx (mk_state (mk_ctx 0 0 0) [0; 0] [] []))) = EEVDF_DSQ_BIG.
Proof.
  apply (X8_default_is_homogeneous (mk_state (mk_ctx 0 0 0) [0; 0] [] []) 1).
  - repeat constructor.
  - reflexivity.
Defined.

(** * Further properties of the handlers *)

(** X9: within the window of the wrap-safe comparison, [running] raises
    the clock to the task's virtual time and no further:
    [vtime_now := max(V, v_e)]; the weight sum and the capacity are
    untouched, the task is unchanged, and running the same task again
    changes nothing. *)
Theorem X9_running_takes_the_maximum
    (p : task_struct) (s : sched_state) (g : eevdf_ctx) :
  get_ctx s = Some g ->
  0 <= vtime_now g < 2^64 -> 0 <= scx_dsq_vtime p < 2^64 ->
  - 2^63 <= vtime_now g - scx_dsq_vtime p < 2^63 ->
  exists s' g',
    eevdf_running p s = Some (p, s') /\ get_ctx s' = Some g' /\
    vtime_now g' = Z.max (vtime_now g) (scx_dsq_vtime p) /\
    total_weight g' = total_weight g /\ max_capacity g' = max_capacity g /\
    exists s'', eevdf_running p s' = Some (p, s'') /\ get_ctx s'' = Some g'.
Proof.
  intros Hg HV Hve Hwin.
  destruct (eevdf_running_spec p s g Hg) as (s' & Hr & Hs').
  rewrite time_before_lt in Hs' by assumption.
  set (g' := if vtime_now g <? scx_dsq_vtime p
             then with_vtime_now g (scx_dsq_vtime p) else g) in *.
  assert (HV' : vtime_now g' = Z.max (vtime_now g) (scx_dsq_vtime p)).
  { unfold g'. destruct (Z.ltb_spec (vtime_now g) (scx_dsq_vtime p)); cbn; lia. }
  exists s', g'. split; [assumption |]. split; [assumption |].
  split; [assumption |].
  split; [unfold g'; destruct (_ <? _); reflexivity |].
  split; [unfold g'; destruct (_ <? _); reflexivity |].
  destruct (eevdf_running_spec p s' g' Hs') as (s'' & Hr2 & Hs'').
  exists s''. split; [assumption |]. rewrite Hs''.
  rewrite time_before_lt by lia.
  destruct (Z.ltb_spec (vtime_now g') (scx_dsq_vtime p)); [lia | reflexivity].
Qed.

Lemma X9_running_takes_the_maximum_witness :
  exists s' g',
    eevdf_running S4_task S4_state = Some (S4_task, s') /\ get_ctx s' = Some g' /\
    vtime_now g' = Z.max 100 120 /\
    total_weight g' = 5 /\ max_capacity g' = 1024 /\
    exists s'', eevdf_running S4_task s' = Some (S4_task, s'') /\ get_ctx s'' = Some g'.
Proof.
  apply (X9_running_takes_the_maximum S4_task S4_state (mk_ctx 100 5 1024)).
  - reflexivity.
  - vm_compute. split; [discriminate | reflexivity].
  - vm_compute. split; [discriminate | reflexivity].
  - vm_compute. split; [discriminate | reflexivity].
Defined.

Lemma with_fields_eta g :
  with_vtime_now (with_total_weight g (total_weight g)) (vtime_now g) = g.
Proof. destruct g; reflexivity. Qed.

Lemma sat_u64_id V : 0 <= V < 2^64 -> sat_u64 V = V.
Proof. intros H. unfold sat_u64, U64_MAX. lia. Qed.

Lemma sat_u64_range x : 0 <= sat_u64 x < 2^64.
Proof. unfold sat_u64, U64_MAX. lia. Qed.

Lemma signed_quot_0 W : signed_quot 0 W = 0.
Proof. reflexivity. Qed.

(** X10: enabling a task that carries no lag does not move the clock: a
    task with no service history ([dsq_vtime = 0]) starts at the current
    [V], a task already at [V] stays there, and in both cases [vtime_now]
    is unchanged while the weight (zero read as one) is added to the
    weight sum modulo [2^64]. *)
Theorem X10_enable_without_lag_keeps_clock
    (p : task_struct) (s : sched_state) (g : eevdf_ctx) :
  get_ctx s = Some g ->
  0 <= vtime_now g < 2^64 ->
  scx_dsq_vtime p = 0 \/ scx_dsq_vtime p = vtime_now g ->
  exists s' g',
    eevdf_enable p s = Some (set_dsq_vtime p (vtime_now g), s') /\
    get_ctx s' = Some g' /\
    vtime_now g' = vtime_now g /\
    total_weight g' = wrap64 (total_weight g + clamp_weight (scx_weight p)) /\
    max_capacity g' = max_capacity g.
Proof.
  intros Hg HV Hcase.
  destruct (eevdf_enable_spec p s g Hg HV) as (s' & Hr & Hs').
  assert (Hp' : enabled_task g p = set_dsq_vtime p (vtime_now g)).
  { unfold enabled_task. destruct (Z.eqb_spec (scx_dsq_vtime p) 0) as [|Hnz];
      [reflexivity |].
    destruct Hcase as [Hz | Heq]; [contradiction |].
    destruct p; cbn in *. subst. reflexivity. }
  rewrite Hp' in Hr, Hs'.
  assert (Hl : lag_of g (set_dsq_vtime p (vtime_now g)) = 0).
  { rewrite lag_of_exact; cbn [scx_dsq_vtime set_dsq_vtime]; lia. }
  rewrite Hl, signed_quot_0 in Hs'.
  change (s64_neg 0) with 0 in Hs'. rewrite Z.add_0_r, sat_u64_id in Hs' by assumption.
  eexists s', _. split; [exact Hr |]. split; [exact Hs' |].
  cbn [vtime_now total_weight max_capacity with_total_weight].
  unfold enable_sum.
  destruct (wrap64 (total_weight g + clamp_weight (scx_weight p)) =? 0);
    repeat split; reflexivity.
Qed.

Lemma X10_enable_without_lag_keeps_clock_witness :
  exists s' g',
    eevdf_enable fresh_task S4_state = Some (set_dsq_vtime fresh_task 100, s') /\
    get_ctx s' = Some g' /\
    vtime_now g' = 100 /\
    total_weight g' = wrap64 (5 + clamp_weight 1) /\
    max_capacity g' = 1024.
Proof.
  apply (X10_enable_without_lag_keeps_clock fresh_task S4_state (mk_ctx 100 5 1024)).
  - reflexivity.
  - vm_compute. split; [discriminate | reflexivity].
  - left. reflexivity.
Defined.

(** X11: the weight sum is restored by [enable] followed by [disable] of
    the same task: when [W + w] fits in 64 bits, [enable] stores [W + w]
    and the following [disable] stores [W] again (whatever happens to
    [V]), and [disable] deletes the task's storage. *)
Theorem X11_enable_disable_restores_weight_sum
    (p : task_struct) (s : sched_state) (g : eevdf_ctx) :
  get_ctx s = Some g ->
  0 <= vtime_now g < 2^64 -> 0 <= total_weight g ->
  0 <= scx_weight p ->
  total_weight g + clamp_weight (scx_weight p) < 2^64 ->
  exists p' s1 g1 s2 g2,
    eevdf_enable p s = Some (p', s1) /\ get_ctx s1 = Some g1 /\
    total_weight g1 = total_weight g + clamp_weight (scx_weight p) /\
    eevdf_disable p' s1 = Some (p', s2) /\ get_ctx s2 = Some g2 /\
    total_weight g2 = total_weight g /\
    task_ctx_map s2 !! pid p' = None.
Proof.
  intros Hg HV HW Hw Hfit.
  set (w := clamp_weight (scx_weight p)) in *.
  assert (Hw1 : 1 <= w) by (unfold w, clamp_weight; destruct (Z.eqb_spec (scx_weight p) 0); lia).
  destruct (eevdf_enable_spec p s g Hg HV) as (s1 & Hr1 & Hs1).
  fold w in Hs1. unfold enable_sum in Hs1.
  rewrite (wrap64_small (total_weight g + w)) in Hs1 by lia.
  destruct (Z.eqb_spec (total_weight g + w) 0) as [|_]; [lia |].
  set (g1 := with_total_weight _ _) in Hs1.
  assert (HV1 : 0 <= vtime_now g1 < 2^64) by (unfold g1; cbn; apply sat_u64_range).
  assert (HW1 : total_weight g1 = total_weight g + w) by reflexivity.
  assert (Hwp : clamp_weight (scx_weight (enabled_task g p)) = w).
  { unfold enabled_task. destruct (_ =? 0); reflexivity. }
  destruct (eevdf_disable_spec (enabled_task g p) s1 g1 Hs1 HV1 ltac:(lia))
    as (s2 & Hr2 & Hs2).
  rewrite Hwp, HW1 in Hs2. unfold disable_sum in Hs2.
  destruct (Z.geb_spec (total_weight g + w) w) as [_|]; [| lia].
  replace (total_weight g + w - w) with (total_weight g) in Hs2 by lia.
  rewrite (wrap64_small (total_weight g)) in Hs2 by lia.
  eexists _, s1, g1, s2, _.
  split; [exact Hr1 |]. split; [exact Hs1 |]. split; [exact HW1 |].
  split; [exact Hr2 |]. split; [exact Hs2 |].
  split. { destruct (total_weight g =? 0); reflexivity. }
  revert Hr2. unfold eevdf_disable. rewrite Hs1.
  set (ns := if total_weight g1 >=? _ then _ else _).
  destruct (ns =? 0); simpl_bind.
  - intros [= <-]. cbn [task_ctx_map set_task_ctx_map]. apply lookup_delete_eq.
  - destruct (div_signed_u64 _ _); simpl_bind; [| discriminate].
    intros [= <-]. cbn [task_ctx_map set_task_ctx_map]. apply lookup_delete_eq.
Qed.

Lemma X11_enable_disable_restores_weight_sum_witness :
  exists p' s1 g1 s2 g2,
    eevdf_enable S4_task S4_state = Some (p', s1) /\ get_ctx s1 = Some g1 /\
    total_weight g1 = 5 + clamp_weight 2 /\
    eevdf_disable p' s1 = Some (p', s2) /\ get_ctx s2 = Some g2 /\
    total_weight g2 = 5 /\
    task_ctx_map s2 !! pid p' = None.
Proof.
  apply (X11_enable_disable_restores_weight_sum S4_task S4_state (mk_ctx 100 5 1024)).
  - reflexivity.
  - vm_compute. split; [discriminate | reflexivity].
  - vm_compute. discriminate.
  - vm_compute. discriminate.
  - vm_compute. reflexivity.
Defined.

(** X12: [set_weight] to the weight the task already has is a no-op on
    the context: when the weight sum covers the task's weight, [W] and [V]
    (and the capacity) are exactly as before. *)
Theorem X12_set_weight_same_weight_is_noop
    (p : task_struct) (s : sched_state) (g : eevdf_ctx) :
  get_ctx s = Some g ->
  0 <= vtime_now g < 2^64 -> 0 <= total_weight g < 2^64 ->
  0 <= scx_weight p ->
  clamp_weight (scx_weight p) <= total_weight g ->
  exists s', eevdf_set_weight p (scx_weight p) s = Some (p, s') /\
             get_ctx s' = Some g.
Proof.
  intros Hg HV HW Hwp Hcover.
  destruct (eevdf_set_weight_spec p (scx_weight p) s g Hg HV HW) as (s' & Hr & Hs').
  set (w := clamp_weight (scx_weight p)) in *.
  assert (Hw1 : 1 <= w)
    by (unfold w, clamp_weight; destruct (Z.eqb_spec (scx_weight p) 0); lia).
  assert (HW2 : set_weight_sum (total_weight g) w w = total_weight g).
  { unfold set_weight_sum. destruct (Z.geb_spec (total_weight g) w); [| lia].
    rewrite (wrap64_small (total_weight g - w)) by lia.
    replace (total_weight g - w + w) with (total_weight g) by lia.
    apply wrap64_small. assumption. }
  rewrite HW2 in Hs'.
  assert (Hd : forall a, s64_sub a a = 0)
    by (intros a; unfold s64_sub; rewrite Z.sub_diag; reflexivity).
  rewrite Hd, Z.add_0_r, sat_u64_id, with_fields_eta in Hs' by assumption.
  exists s'. split; [assumption |]. rewrite Hs'.
  destruct ((total_weight g =? 0) || (total_weight g =? 0)); [| reflexivity].
  destruct g; reflexivity.
Qed.

Lemma X12_set_weight_same_weight_is_noop_witness :
  exists s', eevdf_set_weight S3_task (scx_weight S3_task) S3_state = Some (S3_task, s') /\
             get_ctx s' = Some S3_ctx.
Proof.
  apply (X12_set_weight_same_weight_is_noop S3_task S3_state S3_ctx).
  - reflexivity.
  - vm_compute. split; [discriminate | reflexivity].
  - vm_compute. split; [discriminate | reflexivity].
  - vm_compute. discriminate.
  - vm_compute. discriminate.
Defined.

(** X13: [select_cpu] returns the runtime's default pick except in one
    case: when the default pick is busy, its class is not the task's
    desired class, and the idle CPU the runtime then offers
    ([scx_bpf_pick_idle_cpu], non-negative) is of the desired class, it
    returns that idle CPU.  It inserts the task into the CPU-local queue,
    with the default slice, exactly when it has steered to the idle CPU or
    the default pick is idle and of the desired class; in every other case
    (a busy default pick already of the desired class included, whatever
    idle CPU exists) it inserts nothing and leaves the state as it was.
    It never touches the named queues, the context or the task storage. *)
Theorem X13_select_cpu_fast_path
    (slice : Z) (p : task_struct) (prev_cpu wake_flags : Z) (rt : cpu_pick)
    (s : sched_state) :
  exists desired cpu s',
    desired_dsq_for_task slice p (get_ctx s) (max_cap_of (get_ctx s)) s
      = Some desired /\
    eevdf_select_cpu slice p prev_cpu wake_flags rt s = Some (cpu, s') /\
    (dfl_idle rt = false -> cpu_class s (dfl_cpu rt) <> desired ->
     0 <= any_idle_cpu rt -> cpu_class s (any_idle_cpu rt) = desired ->
     cpu = any_idle_cpu rt /\ s' = scx_bpf_dsq_insert_local p slice 0 s) /\
    (dfl_idle rt = true \/ cpu_class s (dfl_cpu rt) = desired \/
     any_idle_cpu rt < 0 \/ cpu_class s (any_idle_cpu rt) <> desired ->
     cpu = dfl_cpu rt /\
     s' = if dfl_idle rt && bool_decide (cpu_class s (dfl_cpu rt) = desired)
          then scx_bpf_dsq_insert_local p slice 0 s else s) /\
    dsq_big s' = dsq_big s /\ dsq_little s' = dsq_little s /\
    global_data s' = global_data s /\ task_ctx_map s' = task_ctx_map s.
Proof.
  destruct (desired_dsq_for_task_total slice p (get_ctx s) (max_cap_of (get_ctx s)) s)
    as [d Hd].
  exists d. unfold eevdf_select_cpu. rewrite Hd. simpl_bind.
  fold (cpu_class s (dfl_cpu rt)).
  destruct (dfl_idle rt) eqn:Hidle; cbn [negb andb].
  - (* the default pick is idle *)
    destruct (bool_decide_reflect (d = cpu_class s (dfl_cpu rt))) as [Heq | Hne].
    + eexists _, _. split; [reflexivity |]. split; [reflexivity |].
      split; [intros; discriminate |].
      split; [|repeat split].
      intros _. split; [reflexivity |].
      rewrite bool_decide_eq_true_2 by congruence. reflexivity.
    + eexists _, _. split; [reflexivity |]. split; [reflexivity |].
      split; [intros; discriminate |].
      split; [|repeat split].
      intros _. split; [reflexivity |].
      rewrite bool_decide_eq_false_2 by congruence. reflexivity.
  - destruct (bool_decide_reflect (d = cpu_class s (dfl_cpu rt))) as [Heq | Hne];
      cbn [negb].
    + eexists _, _. split; [reflexivity |]. split; [reflexivity |].
      split; [intros _ Hc; congruence |].
      split; [|repeat split].
      intros _. split; reflexivity.
    + destruct (Z.geb_spec (any_idle_cpu rt) 0) as [Hge | Hlt].
      * assert (Hcl : class_dsq_id (get_cpu_cap s (wrap32 (any_idle_cpu rt)))
                        (max_cap_of (get_ctx s))
                      = cpu_class s (any_idle_cpu rt)).
        { unfold cpu_class. destruct (Z.geb_spec (any_idle_cpu rt) 0); [reflexivity | lia]. }
        rewrite Hcl.
        destruct (bool_decide_reflect (cpu_class s (any_idle_cpu rt) = d)) as [Hm | Hnm].
        -- cbn [andb]. rewrite Hm.
           destruct (bool_decide_reflect (d = d)) as [_ | Hc]; [| contradiction].
           eexists _, _. split; [reflexivity |]. split; [reflexivity |].
           split; [intros; split; reflexivity |].
           split; [|repeat split].
           intros [Hc | [Hc | [Hc | Hc]]]; (discriminate || congruence || lia).
        -- cbn [andb].
           eexists _, _. split; [reflexivity |]. split; [reflexivity |].
           split; [intros; contradiction |].
           split; [|repeat split].
           intros _. split; reflexivity.
      * cbn [andb].
        eexists _, _. split; [reflexivity |]. split; [reflexivity |].
        split; [intros; lia |].
        split; [|repeat split].
        intros _. split; reflexivity.
Qed.

Lemma X13_select_cpu_fast_path_witness :
  eevdf_select_cpu SLICE_20MS ahead_of_clock_task 0 0 busy_pick big_little_state
    = Some (1, scx_bpf_dsq_insert_local ahead_of_clock_task SLICE_20MS 0
                 big_little_state) /\
  cpu_class big_little_state 0 = EEVDF_DSQ_BIG /\
  cpu_class big_little_state 1 = EEVDF_DSQ_LITTLE.
Proof.
  destruct (X13_select_cpu_fast_path SLICE_20MS ahead_of_clock_task 0 0 busy_pick
              big_little_state) as (desired & cpu & s' & Hd & Hsel & Hsteer & _).
  assert (Hdes : desired = EEVDF_DSQ_LITTLE).
  { vm_compute in Hd. injection Hd as <-. reflexivity. }
  subst desired.
  destruct Hsteer as [-> ->];
    [reflexivity | vm_compute; discriminate | vm_compute; discriminate | reflexivity |].
  split; [exact Hsel |]. split; reflexivity.
Defined.

Lemma take_drop_two_queues {A} (k : nat) (L O : list A) :
  take k (L ++ O) ++ drop k L ++ drop (k - length L) O = L ++ O.
Proof.
  rewrite take_app. destruct (Nat.le_gt_cases k (length L)) as [Hle | Hgt].
  - replace (k - length L)%nat with 0%nat by lia. cbn [take drop].
    rewrite app_nil_r, app_assoc, take_drop. reflexivity.
  - rewrite take_ge, drop_ge by lia. cbn [app].
    rewrite <- app_assoc, take_drop. reflexivity.
Qed.

Lemma dsq_sorted_drop k q : dsq_sorted q -> dsq_sorted (drop k q).
Proof.
  unfold dsq_sorted. revert q. induction k as [|k IH]; intros q Hq; [exact Hq |].
  destruct q as [|x q]; [exact Hq |]. cbn [drop]. apply IH.
  inversion Hq; assumption.
Qed.

(** X14: [dispatch] neither drops nor duplicates a task: what it appends
    to the CPU-local queue, followed by what is left in the queue of the
    CPU's own class and then in the other queue, is exactly the two named
    queues as they were, in order; the named queues stay in key order; the
    context, the capacity table and the task storage are untouched; and
    with both named queues empty nothing changes. *)
Theorem X14_dispatch_conserves_tasks (cpu nr_slots : Z) (s : sched_state) :
  0 <= nr_slots ->
  let local := class_dsq_id (get_cpu_cap s (wrap32 cpu)) (max_cap_of (get_ctx s)) in
  let other := other_dsq local in
  let s' := (eevdf_dispatch cpu nr_slots s).2 in
  (exists moved,
      dsq_local s' = dsq_local s ++ moved /\
      moved ++ dsq_of local s' ++ dsq_of other s' = dsq_of local s ++ dsq_of other s) /\
  (dsq_sorted (dsq_big s) -> dsq_sorted (dsq_big s')) /\
  (dsq_sorted (dsq_little s) -> dsq_sorted (dsq_little s')) /\
  global_data s' = global_data s /\ cpu_capacity s' = cpu_capacity s /\
  task_ctx_map s' = task_ctx_map s /\
  (dsq_big s = [] -> dsq_little s = [] ->
   dsq_local s' = dsq_local s /\ dsq_big s' = [] /\ dsq_little s' = []).
Proof.
  intros Hslots local other s'.
  pose proof (eevdf_dispatch_loop cpu nr_slots s Hslots) as Hrun.
  cbn zeta in Hrun. fold local other in Hrun.
  subst s'. destruct (eevdf_dispatch cpu nr_slots s) as [it st]. cbn [snd].
  symmetry in Hrun.
  pose proof (dispatch_loop_spec local _ 0 DISPATCH_BATCH_MAX s it st Hrun) as Hspec.
  cbn zeta in Hspec. fold other in Hspec.
  set (k := Nat.min _ (length _)) in Hspec.
  destruct Hspec as (_ & Hq & Hl & Ho & Hg & Hc & Ht).
  assert (Hsort : forall id, dsq_sorted (dsq_of id s) -> dsq_sorted (dsq_of id st)).
  { intros id Hs. destruct local, id; cbn [other other_dsq dsq_of] in *;
      rewrite ?Hl, ?Ho; apply dsq_sorted_drop; assumption. }
  split.
  { exists (take k (dsq_of local s ++ dsq_of other s)).
    split; [assumption |]. rewrite Hl, Ho. apply take_drop_two_queues. }
  split; [apply (Hsort EEVDF_DSQ_BIG) |].
  split; [apply (Hsort EEVDF_DSQ_LITTLE) |].
  split; [assumption |]. split; [assumption |]. split; [assumption |].
  intros Hb Hlt.
  assert (HL : dsq_of local s = []) by (destruct local; assumption).
  assert (HO : dsq_of other s = []) by (unfold other; destruct local; assumption).
  rewrite HL, HO in *. cbn [app take] in Hq. rewrite take_nil, app_nil_r in Hq.
  rewrite drop_nil in Hl, Ho.
  split; [assumption |]. unfold other in *. destruct local; cbn in *; auto.
Qed.

Lemma X14_dispatch_conserves_tasks_witness :
  let s := big_cpu_state [entry_a] [entry_b] in
  let local := class_dsq_id (get_cpu_cap s (wrap32 0)) (max_cap_of (get_ctx s)) in
  let other := other_dsq local in
  let s' := (eevdf_dispatch 0 1 s).2 in
  (exists moved,
      dsq_local s' = dsq_local s ++ moved /\
      moved ++ dsq_of local s' ++ dsq_of other s' = dsq_of local s ++ dsq_of other s) /\
  (dsq_sorted (dsq_big s) -> dsq_sorted (dsq_big s')) /\
  (dsq_sorted (dsq_little s) -> dsq_sorted (dsq_little s')) /\
  global_data s' = global_data s /\ cpu_capacity s' = cpu_capacity s /\
  task_ctx_map s' = task_ctx_map s /\
  (dsq_big s = [] -> dsq_little s = [] ->
   dsq_local s' = dsq_local s /\ dsq_big s' = [] /\ dsq_little s' = []).
Proof.
  apply (X14_dispatch_conserves_tasks 0 1 (big_cpu_state [entry_a] [entry_b])).
  lia.
Defined.

(** X15: a task enqueued while both named queues are empty is the next
    task dispatched, on a CPU of either class: after [enqueue] and then
    [dispatch] on any CPU the CPU-local queue has gained exactly that
    task, with the default slice, and both named queues are empty
    again. *)
Theorem X15_enqueue_then_dispatch
    (slice : Z) (p : task_struct) (fl cpu nr_slots : Z)
    (s : sched_state) (g : eevdf_ctx) :
  get_ctx s = Some g -> 0 <= nr_slots ->
  dsq_big s = [] -> dsq_little s = [] ->
  exists p' s1 vd,
    eevdf_enqueue slice p fl s = Some (p', s1) /\
    let s2 := (eevdf_dispatch cpu nr_slots s1).2 in
    dsq_local s2 =
      dsq_local s ++ [{| e_pid := pid p; e_slice := slice; e_vtime := vd |}] /\
    dsq_big s2 = [] /\ dsq_little s2 = [].
Proof.
  intros Hg Hslots Hb Hl.
  destruct (eevdf_enqueue_spec slice p fl s g Hg) as (d & t & s0 & _ & Hs0 & Henq).
  set (p' := set_dsq_vtime p _) in *.
  set (dsq := desired_class _ _ _ _ _) in Henq.
  set (vd := wrap64 _) in Henq.
  set (s1 := scx_bpf_dsq_insert_vtime p' dsq slice vd fl s0) in *.
  exists p', s1, vd. split; [exact Henq |]. intros s2.
  assert (Hf0 : dsq_big s0 = [] /\ dsq_little s0 = [] /\ dsq_local s0 = dsq_local s).
  { rewrite Hs0.
    match goal with
    | |- context [put_task_ctx ?a ?b ?c] =>
        destruct (put_task_ctx_frame a b c) as (_ & _ & -> & -> & -> & _)
    end.
    destruct (get_task_ctx_frame p true s) as (_ & _ & -> & -> & -> & _). auto. }
  destruct Hf0 as (Hb0 & Hl0 & Hloc0).
  set (e := {| e_pid := pid p; e_slice := slice; e_vtime := vd |}).
  assert (Hq1 : dsq_of dsq s1 = [e] /\ dsq_of (other_dsq dsq) s1 = [] /\
                dsq_local s1 = dsq_local s).
  { unfold s1, scx_bpf_dsq_insert_vtime.
    destruct dsq; cbn; rewrite ?Hb0, ?Hl0, ?Hloc0; auto. }
  destruct Hq1 as (Hin & Hout & Hloc1). clearbody s1 dsq.
  pose proof (eevdf_dispatch_loop cpu nr_slots s1 Hslots) as Hrun. cbn zeta in Hrun.
  set (local := class_dsq_id _ _) in Hrun. clearbody local.
  subst s2. destruct (eevdf_dispatch cpu nr_slots s1) as [it st]. cbn [snd].
  symmetry in Hrun.
  pose proof (dispatch_loop_spec local _ 0 DISPATCH_BATCH_MAX s1 it st Hrun) as Hspec.
  cbn zeta in Hspec.
  assert (Hav : dsq_of local s1 ++ dsq_of (other_dsq local) s1 = [e]).
  { destruct local, dsq; cbn [other_dsq] in *; rewrite ?Hin, ?Hout; reflexivity. }
  rewrite Hav in Hspec.
  assert (Hk : Nat.min (Nat.min DISPATCH_BATCH_MAX
                          (Z.to_nat (Z.of_nat (dispatch_budget nr_slots) - 0)))
                 (length [e]) = 1%nat).
  { unfold dispatch_budget, DISPATCH_BATCH_MAX. cbn [length]. lia. }
  rewrite Hk in Hspec. destruct Hspec as (_ & Hq & HL & HO & _).
  rewrite Hloc1 in Hq. split; [exact Hq |].
  destruct local, dsq; cbn [other_dsq dsq_of] in *;
    rewrite ?Hin, ?Hout in HL; rewrite ?Hin, ?Hout in HO;
    cbn in HL, HO; auto.
Qed.

Lemma X15_enqueue_then_dispatch_witness :
  exists p' s1 vd,
    eevdf_enqueue SLICE_20MS S3_task 0 S3_state = Some (p', s1) /\
    let s2 := (eevdf_dispatch 0 1 s1).2 in
    dsq_local s2 =
      dsq_local S3_state ++ [{| e_pid := pid S3_task; e_slice := SLICE_20MS; e_vtime := vd |}] /\
    dsq_big s2 = [] /\ dsq_little s2 = [].
Proof.
  apply (X15_enqueue_then_dispatch SLICE_20MS S3_task 0 0 1 S3_state S3_ctx).
  - reflexivity.
  - lia.
  - reflexivity.
  - reflexivity.
Defined.

Lemma eevdf_init_eq ret_big ret_little s :
  eevdf_init ret_big ret_little s =
    (if ret_big =? 0 then ret_little else ret_big,
     match get_ctx s with
     | Some g =>
         if max_capacity g =? 0
         then put_ctx (with_max_capacity g CAPACITY_SCALE) s else s
     | None => s
     end).
Proof. unfold eevdf_init. destruct (ret_big =? 0); reflexivity. Qed.

(** X16: [init] fills in the maximum capacity only when it is still
    zero: it leaves a capacity the agent has set, the clock and the weight
    sum as they are, so the effective maximum [max_cap_of] is the same
    before and after and is what the context holds afterwards; a second
    [init] changes nothing; the queues are untouched; and it returns the
    error of the first queue creation that fails. *)
Theorem X16_init_defaults_capacity_once
    (ret_big ret_little : Z) (s : sched_state) (g : eevdf_ctx) :
  get_ctx s = Some g ->
  let r := eevdf_init ret_big ret_little s in
  exists g',
    get_ctx r.2 = Some g' /\
    max_capacity g' = max_cap_of (Some g) /\
    (max_capacity g <> 0 -> g' = g) /\
    vtime_now g' = vtime_now g /\ total_weight g' = total_weight g /\
    (eevdf_init ret_big ret_little r.2).2 = r.2 /\
    dsq_big r.2 = dsq_big s /\ dsq_little r.2 = dsq_little s /\
    dsq_local r.2 = dsq_local s /\
    r.1 = (if ret_big =? 0 then ret_little else ret_big).
Proof.
  intros Hg r. subst r. rewrite !eevdf_init_eq. cbn [fst snd]. rewrite Hg.
  unfold max_cap_of.
  destruct (Z.eqb_spec (max_capacity g) 0) as [Hz | Hnz].
  - exists (with_max_capacity g CAPACITY_SCALE).
    assert (Hput : get_ctx (put_ctx (with_max_capacity g CAPACITY_SCALE) s)
                   = Some (with_max_capacity g CAPACITY_SCALE))
      by (apply get_ctx_put_ctx; rewrite Hg; eauto).
    rewrite Hput. cbn [max_capacity with_max_capacity]. unfold CAPACITY_SCALE at 3.
    cbn [Z.eqb].
    split; [reflexivity |]. split; [reflexivity |].
    split; [intros; contradiction |]. repeat split.
  - exists g. rewrite Hg.
    destruct (Z.eqb_spec (max_capacity g) 0); [contradiction |].
    repeat split.
Qed.

Lemma X16_init_defaults_capacity_once_witness :
  let r := eevdf_init 0 0 (mk_state (mk_ctx 0 0 0) [] [] []) in
  exists g',
    get_ctx r.2 = Some g' /\
    max_capacity g' = max_cap_of (Some (mk_ctx 0 0 0)) /\
    (max_capacity (mk_ctx 0 0 0) <> 0 -> g' = mk_ctx 0 0 0) /\
    vtime_now g' = vtime_now (mk_ctx 0 0 0) /\
    total_weight g' = total_weight (mk_ctx 0 0 0) /\
    (eevdf_init 0 0 r.2).2 = r.2 /\
    dsq_big r.2 = dsq_big (mk_state (mk_ctx 0 0 0) [] [] []) /\
    dsq_little r.2 = dsq_little (mk_state (mk_ctx 0 0 0) [] [] []) /\
    dsq_local r.2 = dsq_local (mk_state (mk_ctx 0 0 0) [] [] []) /\
    r.1 = (if 0 =? 0 then 0 else 0).
Proof.
  apply (X16_init_defaults_capacity_once 0 0 (mk_state (mk_ctx 0 0 0) [] [] [])
           (mk_ctx 0 0 0)).
  reflexivity.
Defined.

(** * Further properties of the userspace agent *)

Lemma refresh_one_cpu_eq sysfs mc ch s cpu :
  refresh_one_cpu sysfs (mc, ch, s) cpu =
    (let cap := read_capacity (sysfs cpu) in
     (if cap >? mc then cap else mc,
      ch || negb (bool_decide (cpu_capacity s !! Z.to_nat (wrap32 cpu) = Some cap)),
      set_cpu_capacity (<[Z.to_nat (wrap32 cpu) := cap]> (cpu_capacity s)) s)).
Proof.
  unfold refresh_one_cpu. cbv zeta.
  destruct (cpu_capacity s !! Z.to_nat (wrap32 cpu)) as [old|] eqn:Hl.
  - destruct (Z.eqb_spec old (read_capacity (sysfs cpu))) as [-> | Hne].
    + rewrite bool_decide_eq_true_2 by reflexivity. cbn [negb]. rewrite orb_false_r.
      rewrite list_insert_id by exact Hl. destruct s; reflexivity.
    + rewrite bool_decide_eq_false_2 by congruence. cbn [negb]. rewrite orb_true_r.
      reflexivity.
  - rewrite bool_decide_eq_false_2 by congruence. cbn [negb]. rewrite orb_true_r.
    reflexivity.
Qed.

Lemma refresh_loop_spec sysfs s (n : nat) :
  Z.of_nat n <= 2^32 ->
  exists s',
    fold_left (refresh_one_cpu sysfs) (seqZ 0 (Z.of_nat n)) (0, false, s) =
      (max_read sysfs n, negb (table_fresh sysfs (cpu_capacity s) n), s') /\
    (forall i, cpu_capacity s' !! i = refreshed_entry sysfs (cpu_capacity s) n i) /\
    (table_fresh sysfs (cpu_capacity s) n = true -> s' = s).
Proof.
  induction n as [|n IH]; intros Hn.
  - exists s. cbn. split; [reflexivity |]. split; [|reflexivity].
    intros i. unfold refreshed_entry. rewrite bool_decide_eq_false_2 by lia. reflexivity.
  - destruct IH as (s1 & Hloop & Htbl & Hsame); [lia |].
    rewrite seqZ_S, fold_left_app, Hloop. cbn [fold_left].
    rewrite refresh_one_cpu_eq. cbv zeta. rewrite Z.add_0_l.
    assert (Hw : wrap32 (Z.of_nat n) = Z.of_nat n)
      by (apply wrap32_small; change (2^32) with 4294967296 in *; lia).
    rewrite Hw, Nat2Z.id.
    assert (He : cpu_capacity s1 !! n = cpu_capacity s !! n).
    { rewrite Htbl. unfold refreshed_entry.
      rewrite bool_decide_eq_false_2 by lia. reflexivity. }
    eexists. split; [|split].
    + cbn [max_read table_fresh]. rewrite negb_andb, He. reflexivity.
    + intros i. cbn [cpu_capacity set_cpu_capacity]. unfold refreshed_entry.
      destruct (decide (i = n)) as [-> | Hne].
      * rewrite bool_decide_eq_true_2 by lia.
        destruct (cpu_capacity s !! n) as [x|] eqn:Hx.
        -- rewrite list_lookup_insert_eq; [reflexivity |].
           apply lookup_lt_is_Some. rewrite He, ?Hx. eauto.
        -- cbn. apply lookup_ge_None. rewrite length_insert. apply lookup_ge_None.
           rewrite He, ?Hx. reflexivity.
      * rewrite list_lookup_insert_ne by congruence. rewrite Htbl.
        unfold refreshed_entry.
        destruct (decide (i < n)%nat).
        -- rewrite !bool_decide_eq_true_2 by lia. reflexivity.
        -- rewrite !bool_decide_eq_false_2 by lia. reflexivity.
    + cbn [table_fresh]. intros [Hf Hd]%andb_true_iff.
      apply bool_decide_eq_true in Hd. rewrite (Hsame Hf) in *.
      rewrite list_insert_id by exact Hd. destruct s; reflexivity.
Qed.

Lemma table_fresh_iff sysfs tbl n :
  table_fresh sysfs tbl n = true <->
  forall i, (i < n)%nat -> tbl !! i = Some (read_capacity (sysfs (Z.of_nat i))).
Proof.
  induction n as [|n IH]; cbn [table_fresh].
  - split; [intros _ i Hi; lia | reflexivity].
  - rewrite andb_true_iff, bool_decide_eq_true, IH. split.
    + intros [Hlt Heq] i Hi. destruct (decide (i = n)) as [-> | Hne]; [exact Heq |].
      apply Hlt. lia.
    + intros H. split; [intros i Hi; apply H; lia | apply H; lia].
Qed.

Lemma max_read_upper sysfs n i :
  (i < n)%nat -> read_capacity (sysfs (Z.of_nat i)) <= max_read sysfs n.
Proof.
  induction n as [|n IH]; [lia |]. intros Hi. cbn [max_read]. cbv zeta.
  destruct (Z.gtb_spec (read_capacity (sysfs (Z.of_nat n))) (max_read sysfs n)).
  - destruct (decide (i = n)) as [-> | Hne]; [lia |].
    assert (i < n)%nat by lia. specialize (IH H0). lia.
  - destruct (decide (i = n)) as [-> | Hne]; [lia |]. apply IH. lia.
Qed.

Lemma max_read_attained sysfs n :
  max_read sysfs n = 0 \/
  exists i, (i < n)%nat /\ read_capacity (sysfs (Z.of_nat i)) = max_read sysfs n.
Proof.
  induction n as [|n IH]; [left; reflexivity |]. cbn [max_read]. cbv zeta.
  destruct (Z.gtb_spec (read_capacity (sysfs (Z.of_nat n))) (max_read sysfs n)).
  - right. exists n. split; [lia | reflexivity].
  - destruct IH as [H0 | (i & Hi & Hr)]; [left; exact H0 |].
    right. exists i. split; [lia | exact Hr].
Qed.

Lemma seqZ_to_nat m n : seqZ m n = seqZ m (Z.of_nat (Z.to_nat n)).
Proof. unfold seqZ. rewrite Nat2Z.id. reflexivity. Qed.

(** What a refresh pass does, with the loop summarised. *)
Lemma refresh_cpu_capacities_spec sysfs ncpu force_log s :
  ncpu <= 2^32 ->
  let n := Z.to_nat ncpu in
  let mc := if max_read sysfs n =? 0 then 1024 else max_read sysfs n in
  let ctx := match global_data s !! 0%nat with Some c => c | None => ctx_zero end in
  exists s1,
    (forall i, cpu_capacity s1 !! i = refreshed_entry sysfs (cpu_capacity s) n i) /\
    (table_fresh sysfs (cpu_capacity s) n = true -> s1 = s) /\
    global_data s1 = global_data s /\
    refresh_cpu_capacities sysfs ncpu force_log s =
      if negb (max_capacity ctx =? mc)
      then (true, set_global_data
                    (<[0%nat := with_max_capacity ctx mc]> (global_data s1)) s1)
      else (negb (table_fresh sysfs (cpu_capacity s) n), s1).
Proof.
  intros Hn n mc ctx.
  destruct (refresh_loop_spec sysfs s n) as (s1 & Hloop & Htbl & Hsame).
  { subst n. change (2^32) with 4294967296 in *. lia. }
  exists s1. split; [exact Htbl |]. split; [exact Hsame |].
  pose proof (refresh_loop_frame sysfs (seqZ 0 (Z.of_nat n)) (0, false, s)) as [Hg _].
  rewrite Hloop in Hg. cbn [snd] in Hg. split; [exact Hg |].
  unfold refresh_cpu_capacities. rewrite (seqZ_to_nat 0 ncpu). fold n.
  rewrite Hloop. rewrite Hg. fold ctx. fold mc. reflexivity.
Qed.

Lemma refreshed_entry_length sysfs tbl tbl' n :
  (forall i, tbl' !! i = refreshed_entry sysfs tbl n i) -> length tbl' = length tbl.
Proof.
  intros H.
  assert (Hnone : forall i, tbl' !! i = None <-> tbl !! i = None).
  { intros i. rewrite H. unfold refreshed_entry.
    destruct (bool_decide (i < n)%nat); [|reflexivity].
    destruct (tbl !! i); cbn; split; congruence. }
  pose proof (proj1 (Hnone (length tbl')) (proj2 (lookup_ge_None _ _) (le_n _))) as H1.
  pose proof (proj2 (Hnone (length tbl)) (proj2 (lookup_ge_None _ _) (le_n _))) as H2.
  apply lookup_ge_None in H1, H2. lia.
Qed.

(** X17: after a refresh pass every slot of the capacity table that
    belongs to a possible CPU holds what the agent read for that CPU (1024
    when there is no sysfs file or nothing could be converted), the slots
    beyond the possible CPUs and the size of the table are as they were,
    and [max_capacity] in [global_data] is non-zero, at least every capacity
    read, and is itself one of them or the default 1024. *)
Theorem X17_refresh_publishes_capacities
    (sysfs : Z -> sysfs_file) (ncpu : Z) (force_log : bool)
    (s : sched_state) (g : eevdf_ctx) :
  ncpu <= 2^31 ->
  get_ctx s = Some g ->
  let s' := (refresh_cpu_capacities sysfs ncpu force_log s).2 in
  (forall cpu, 0 <= cpu < ncpu -> (Z.to_nat cpu < length (cpu_capacity s))%nat ->
     cpu_capacity s' !! Z.to_nat cpu = Some (read_capacity (sysfs cpu))) /\
  (forall i, ncpu <= Z.of_nat i -> cpu_capacity s' !! i = cpu_capacity s !! i) /\
  length (cpu_capacity s') = length (cpu_capacity s) /\
  exists g',
    get_ctx s' = Some g' /\ max_capacity g' <> 0 /\
    (forall cpu, 0 <= cpu < ncpu -> read_capacity (sysfs cpu) <= max_capacity g') /\
    (max_capacity g' = 1024 \/
     exists cpu, 0 <= cpu < ncpu /\ read_capacity (sysfs cpu) = max_capacity g').
Proof.
  intros Hn Hg s'.
  destruct (refresh_cpu_capacities_spec sysfs ncpu force_log s)
    as (s1 & Htbl & _ & Hgd & Heq).
  { change (2^31) with 2147483648 in Hn. change (2^32) with 4294967296. lia. }
  unfold get_ctx in Hg. rewrite Hg in Heq.
  set (n := Z.to_nat ncpu) in *. set (M := max_read sysfs n) in *.
  set (mc := if M =? 0 then 1024 else M) in *.
  assert (Hcap : cpu_capacity s' = cpu_capacity s1).
  { subst s'. rewrite Heq. destruct (negb (max_capacity g =? mc)); reflexivity. }
  assert (Hctx : exists g', get_ctx s' = Some g' /\ max_capacity g' = mc).
  { subst s'. rewrite Heq. unfold get_ctx.
    destruct (Z.eqb_spec (max_capacity g) mc) as [He | Hne]; cbn [negb snd].
    - exists g. rewrite Hgd. split; [exact Hg | exact He].
    - exists (with_max_capacity g mc). cbn [global_data set_global_data].
      rewrite Hgd. destruct (global_data s); [discriminate |]. split; reflexivity. }
  rewrite Hcap. split; [|split; [|split]].
  - intros cpu Hc Hlen. rewrite Htbl. unfold refreshed_entry.
    rewrite bool_decide_eq_true_2 by (subst n; lia).
    destruct (lookup_lt_is_Some_2 _ _ Hlen) as [x ->]. cbn.
    rewrite Z2Nat.id by lia. reflexivity.
  - intros i Hi. rewrite Htbl. unfold refreshed_entry.
    rewrite bool_decide_eq_false_2 by (subst n; lia). reflexivity.
  - exact (refreshed_entry_length sysfs _ _ n Htbl).
  - destruct Hctx as (g' & Hg' & Hmax). exists g'. split; [exact Hg' |].
    rewrite Hmax. split; [|split].
    + subst mc. destruct (Z.eqb_spec M 0); lia.
    + intros cpu Hc.
      pose proof (max_read_upper sysfs n (Z.to_nat cpu)) as Hu.
      rewrite Z2Nat.id in Hu by lia. fold M in Hu.
      assert (Hle : read_capacity (sysfs cpu) <= M) by (apply Hu; subst n; lia).
      subst mc. destruct (Z.eqb_spec M 0); lia.
    + destruct (max_read_attained sysfs n
                  : M = 0 \/ exists i, (i < n)%nat /\
                                read_capacity (sysfs (Z.of_nat i)) = M)
        as [H0 | (i & Hi & Hr)].
      * left. subst mc. rewrite H0. reflexivity.
      * subst mc. destruct (Z.eqb_spec M 0); [left; reflexivity |].
        right. exists (Z.of_nat i). split; [subst n; lia | exact Hr].
Qed.

Lemma X17_refresh_publishes_capacities_witness :
  let s' := (refresh_cpu_capacities hybrid_sysfs 4 true boot_state).2 in
  (forall cpu, 0 <= cpu < 4 -> (Z.to_nat cpu < length (cpu_capacity boot_state))%nat ->
     cpu_capacity s' !! Z.to_nat cpu = Some (read_capacity (hybrid_sysfs cpu))) /\
  (forall i, 4 <= Z.of_nat i -> cpu_capacity s' !! i = cpu_capacity boot_state !! i) /\
  length (cpu_capacity s') = length (cpu_capacity boot_state) /\
  exists g',
    get_ctx s' = Some g' /\ max_capacity g' <> 0 /\
    (forall cpu, 0 <= cpu < 4 -> read_capacity (hybrid_sysfs cpu) <= max_capacity g') /\
    (max_capacity g' = 1024 \/
     exists cpu, 0 <= cpu < 4 /\ read_capacity (hybrid_sysfs cpu) = max_capacity g').
Proof.
  apply (X17_refresh_publishes_capacities hybrid_sysfs 4 true boot_state (mk_ctx 0 0 0));
    [vm_compute; discriminate | reflexivity].
Defined.

(** X18: a refresh pass that answers [false] has written nothing.
    Provided the capacity table has a slot for every possible CPU and
    [global_data] has its entry, the converse holds too (a pass that left
    the maps as they were answers [false]) and the pass is idempotent: a
    second pass over the same sysfs content answers [false] and changes
    nothing, whatever the first pass found.  Without a slot for some
    possible CPU the pass answers [true] every time, changed or not. *)
Theorem X18_refresh_reports_real_changes
    (sysfs : Z -> sysfs_file) (ncpu : Z) (force_log force_log' : bool)
    (s : sched_state) :
  ncpu <= 2^31 ->
  let r := refresh_cpu_capacities sysfs ncpu force_log s in
  (r.1 = false -> r.2 = s) /\
  (ncpu <= Z.of_nat (length (cpu_capacity s)) -> is_Some (get_ctx s) ->
   (r.2 = s -> r.1 = false) /\
   refresh_cpu_capacities sysfs ncpu force_log' r.2 = (false, r.2)) /\
  (Z.of_nat (length (cpu_capacity s)) < ncpu -> r.1 = true).
Proof.
  intros Hn r.
  assert (Hn32 : ncpu <= 2^32)
    by (change (2^31) with 2147483648 in Hn; change (2^32) with 4294967296; lia).
  destruct (refresh_cpu_capacities_spec sysfs ncpu force_log s Hn32)
    as (s1 & Htbl & Hsame & Hgd & Heq).
  set (n := Z.to_nat ncpu) in *. set (M := max_read sysfs n) in *.
  set (mc := if M =? 0 then 1024 else M) in *.
  set (ctx := match global_data s !! 0%nat with Some c => c | None => ctx_zero end) in *.
  split; [|split].
  - subst r. rewrite Heq.
    destruct (negb (max_capacity ctx =? mc)); cbn [fst snd]; [discriminate |].
    intros Hf. apply Hsame. apply negb_false_iff. exact Hf.
  - intros Hlen [g Hg]. unfold get_ctx in Hg.
    assert (Hctx : ctx = g) by (subst ctx; rewrite Hg; reflexivity).
    rewrite Hctx in Heq. clear Hctx. clearbody ctx.
    assert (Hfresh1 : forall i, (i < n)%nat ->
              cpu_capacity s1 !! i = Some (read_capacity (sysfs (Z.of_nat i)))).
    { intros i Hi. rewrite Htbl. unfold refreshed_entry.
      rewrite bool_decide_eq_true_2 by exact Hi.
      destruct (lookup_lt_is_Some_2 (cpu_capacity s) i) as [x ->]; [subst n; lia |].
      reflexivity. }
    assert (Hback : s1 = s -> table_fresh sysfs (cpu_capacity s) n = true).
    { intros <-. apply table_fresh_iff. exact Hfresh1. }
    split.
    + subst r. rewrite Heq.
      destruct (Z.eqb_spec (max_capacity g) mc) as [He | Hne]; cbn [negb fst snd].
      * intros Hs. rewrite (Hback Hs). reflexivity.
      * intros Hs. exfalso.
        assert (Hgs : global_data
                  (set_global_data (<[0%nat:=with_max_capacity g mc]> (global_data s1)) s1)
                  !! 0%nat = Some g) by (rewrite Hs; exact Hg).
        cbn [global_data set_global_data] in Hgs. rewrite Hgd in Hgs.
        destruct (global_data s); [discriminate |]. cbn in Hgs.
        injection Hgs as Hgs. apply Hne. rewrite <- Hgs at 1. reflexivity.
    + set (s2 := r.2).
      assert (Hcap2 : cpu_capacity s2 = cpu_capacity s1).
      { subst s2 r. rewrite Heq. destruct (negb (max_capacity g =? mc)); reflexivity. }
      assert (Hg2 : exists g2, global_data s2 !! 0%nat = Some g2 /\ max_capacity g2 = mc).
      { subst s2 r. rewrite Heq.
        destruct (Z.eqb_spec (max_capacity g) mc) as [He | Hne]; cbn [negb snd].
        - exists g. rewrite Hgd. split; [exact Hg | exact He].
        - exists (with_max_capacity g mc). cbn [global_data set_global_data].
          rewrite Hgd. destruct (global_data s); [discriminate |]. split; reflexivity. }
      destruct Hg2 as (g2 & Hg2 & Hmax2).
      destruct (refresh_cpu_capacities_spec sysfs ncpu force_log' s2 Hn32)
        as (s3 & _ & Hsame3 & _ & Heq3).
      fold n in Heq3, Hsame3. fold M in Heq3. fold mc in Heq3.
      rewrite Hg2, Hmax2, Z.eqb_refl in Heq3. cbn [negb] in Heq3.
      assert (Hf2 : table_fresh sysfs (cpu_capacity s2) n = true).
      { apply table_fresh_iff. rewrite Hcap2. exact Hfresh1. }
      rewrite Heq3, Hf2, (Hsame3 Hf2). reflexivity.
  - intros Hshort. subst r. rewrite Heq.
    destruct (negb (max_capacity ctx =? mc)); cbn [fst]; [reflexivity |].
    apply negb_true_iff. apply not_true_is_false. intros Hf.
    rewrite table_fresh_iff in Hf.
    specialize (Hf (length (cpu_capacity s)) ltac:(subst n; lia)).
    rewrite (proj2 (lookup_ge_None _ _) (le_n _)) in Hf. discriminate.
Qed.

Lemma X18_refresh_reports_real_changes_witness :
  let r := refresh_cpu_capacities hybrid_sysfs 4 false boot_state in
  r.1 = true /\ refresh_cpu_capacities hybrid_sysfs 4 false r.2 = (false, r.2).
Proof.
  destruct (X18_refresh_reports_real_changes hybrid_sysfs 4 false false boot_state)
    as (_ & H & _); [vm_compute; discriminate |].
  destruct H as [_ H]; [vm_compute; discriminate | vm_compute; eauto |].
  split; [reflexivity | exact H].
Defined.

(** X19: [init] run after a refresh pass writes nothing: the pass leaves a
    non-zero [max_capacity], which [init] respects.  This is the order the
    agent's [main] relies on (refresh after load, before attach). *)
Theorem X19_init_after_refresh_keeps_capacity
    (sysfs : Z -> sysfs_file) (ncpu : Z) (force_log : bool)
    (ret_big ret_little : Z) (s : sched_state) :
  let s' := (refresh_cpu_capacities sysfs ncpu force_log s).2 in
  (eevdf_init ret_big ret_little s').2 = s' /\
  max_cap_of (get_ctx s') =
    match max_capacity <$> get_ctx s' with Some c => c | None => CAPACITY_SCALE end.
Proof.
  intros s'. subst s'. unfold refresh_cpu_capacities.
  pose proof (refresh_loop_frame sysfs (seqZ 0 ncpu) (0, false, s)) as [Hg _].
  destruct (fold_left (refresh_one_cpu sysfs) (seqZ 0 ncpu) (0, false, s))
    as [[mc ch] s1]. cbn [snd] in Hg.
  set (mc' := if mc =? 0 then 1024 else mc).
  assert (Hmc : mc' <> 0) by (subst mc'; destruct (Z.eqb_spec mc 0); lia).
  rewrite eevdf_init_eq. cbn [snd]. unfold max_cap_of, get_ctx.
  destruct (global_data s1 !! 0%nat) as [c|] eqn:Hc.
  - destruct (Z.eqb_spec (max_capacity c) mc') as [He | Hne]; cbn [negb snd].
    + rewrite Hc. cbn. destruct (Z.eqb_spec (max_capacity c) 0); [lia |].
      split; reflexivity.
    + cbn [global_data set_global_data].
      destruct (global_data s1); [discriminate |]. cbn.
      destruct (Z.eqb_spec mc' 0); [lia |]. split; reflexivity.
  - assert (Hnil : global_data s1 = []) by (destruct (global_data s1); [reflexivity | discriminate]).
    destruct (negb (max_capacity ctx_zero =? mc')); cbn [snd global_data set_global_data];
      rewrite ?Hnil; cbn; split; reflexivity.
Qed.

(** * The classical handlers, and how the heterogeneous ones differ *)

Lemma classic_get_ctx_put_ctx g c :
  is_Some (Classic.get_ctx c) -> Classic.get_ctx (Classic.put_ctx g c) = Some g.
Proof.
  unfold Classic.get_ctx, Classic.put_ctx. cbn. intros [g0 H].
  destruct (Classic.global_data c); [discriminate | reflexivity].
Qed.

Lemma classic_put_ctx_id g c : Classic.get_ctx c = Some g -> Classic.put_ctx g c = c.
Proof.
  unfold Classic.get_ctx, Classic.put_ctx. intros H.
  rewrite list_insert_id by exact H. destruct c; reflexivity.
Qed.

Lemma classic_put_ctx_twice g g' c :
  Classic.put_ctx g (Classic.put_ctx g' c) = Classic.put_ctx g c.
Proof.
  unfold Classic.put_ctx. cbn. rewrite list_insert_insert_eq. reflexivity.
Qed.

Lemma classic_running_spec p c gc :
  Classic.get_ctx c = Some gc ->
  exists c',
    Classic.eevdf_running p c = Some (p, c') /\
    Classic.get_ctx c' =
      Some (if scx_dsq_vtime p >? Classic.vtime_now gc
            then Classic.with_vtime_now gc (scx_dsq_vtime p) else gc).
Proof.
  intros Hg. unfold Classic.eevdf_running. rewrite Hg.
  destruct (scx_dsq_vtime p >? Classic.vtime_now gc).
  - eexists. split; [reflexivity |]. apply classic_get_ctx_put_ctx. rewrite Hg. eauto.
  - exists c. split; [reflexivity | exact Hg].
Qed.

(** X20: the classical [running] raises the clock to the plain unsigned
    maximum [max(V, v_e)] and leaves the weight sum alone; the
    heterogeneous [running] ends with the same clock and weight sum
    whenever [V] and [v_e] are less than [2^63] apart, the window of its
    wrap-safe comparison. *)
Theorem X20_classic_running_is_plain_maximum
    (p : task_struct) (s : sched_state) (c : Classic.sched_state)
    (g : eevdf_ctx) (gc : Classic.eevdf_ctx) :
  get_ctx s = Some g -> Classic.get_ctx c = Some gc ->
  Classic.vtime_now gc = vtime_now g ->
  Classic.total_weight gc = total_weight g ->
  0 <= vtime_now g < 2^64 -> 0 <= scx_dsq_vtime p < 2^64 ->
  exists s' c',
    eevdf_running p s = Some (p, s') /\
    Classic.eevdf_running p c = Some (p, c') /\
    classic_VW (Some (p, c')) =
      Some (Z.max (vtime_now g) (scx_dsq_vtime p), total_weight g) /\
    (- 2^63 <= vtime_now g - scx_dsq_vtime p < 2^63 -> same_clock s' c').
Proof.
  intros Hg Hgc HV HW HVr Hve.
  destruct (eevdf_running_spec p s g Hg) as (s' & Hr & Hs').
  destruct (classic_running_spec p c gc Hgc) as (c' & Hc & Hc').
  exists s', c'. split; [exact Hr |]. split; [exact Hc |].
  unfold classic_VW. cbn [mbind option_bind snd]. rewrite Hc'. cbn [fmap option_fmap option_map].
  rewrite HV. split.
  - destruct (Z.gtb_spec (scx_dsq_vtime p) (vtime_now g)); cbn; rewrite ?HV, HW;
      f_equal; f_equal; lia.
  - intros Hwin. unfold same_clock. rewrite Hs', Hc', HV.
    rewrite time_before_lt by assumption.
    do 2 eexists. split; [reflexivity |]. split; [reflexivity |].
    destruct (Z.ltb_spec (vtime_now g) (scx_dsq_vtime p)),
             (Z.gtb_spec (scx_dsq_vtime p) (vtime_now g)); try lia; cbn; auto.
Qed.

Lemma X20_classic_running_is_plain_maximum_witness :
  exists s' c',
    eevdf_running S4_task S4_state = Some (S4_task, s') /\
    Classic.eevdf_running S4_task (classic_ctx_state 100 5) = Some (S4_task, c') /\
    classic_VW (Some (S4_task, c')) = Some (120, 5) /\
    same_clock s' c'.
Proof.
  destruct (X20_classic_running_is_plain_maximum S4_task S4_state
              (classic_ctx_state 100 5) (mk_ctx 100 5 1024)
              {| Classic.vtime_now := 100; Classic.total_weight := 5 |})
    as (s' & c' & H1 & H2 & H3 & H4);
    try reflexivity; try (vm_compute; split; [discriminate | reflexivity]).
  exists s', c'. split; [exact H1 |]. split; [exact H2 |]. split; [exact H3 |].
  apply H4. vm_compute. split; [discriminate | reflexivity].
Defined.

(** X21: in the classical scheduler [enable] followed by [disable] is a
    round trip: [enable] starts the task at the current clock and adds
    its weight to the sum, and, when the sum fits in 64 bits, [disable]
    leaves the scheduler state exactly as it was before [enable]; neither
    moves the clock. *)
Theorem X21_classic_enable_disable_round_trip
    (p : task_struct) (c : Classic.sched_state) (gc : Classic.eevdf_ctx) :
  Classic.get_ctx c = Some gc ->
  0 <= Classic.total_weight gc -> 0 <= scx_weight p ->
  Classic.total_weight gc + scx_weight p < 2^64 ->
  let p' := set_dsq_vtime p (Classic.vtime_now gc) in
  exists c1,
    Classic.eevdf_enable p c = Some (p', c1) /\
    classic_VW (Some (p', c1)) =
      Some (Classic.vtime_now gc, Classic.total_weight gc + scx_weight p) /\
    Classic.eevdf_disable p' c1 = Some (p', c).
Proof.
  intros Hg HW Hw Hsum p'.
  unfold Classic.eevdf_enable. rewrite Hg. cbv zeta. fold p'.
  replace (scx_weight p') with (scx_weight p) by (destruct p; reflexivity).
  rewrite (wrap64_small (Classic.total_weight gc + scx_weight p)) by lia.
  eexists. split; [reflexivity |].
  assert (Hg1 : Classic.get_ctx
            (Classic.put_ctx
               (Classic.with_total_weight gc (Classic.total_weight gc + scx_weight p)) c)
            = Some (Classic.with_total_weight gc (Classic.total_weight gc + scx_weight p)))
    by (apply classic_get_ctx_put_ctx; rewrite Hg; eauto).
  split.
  - unfold classic_VW. cbn [mbind option_bind snd]. rewrite Hg1. reflexivity.
  - unfold Classic.eevdf_disable. rewrite Hg1.
    replace (scx_weight p') with (scx_weight p) by (destruct p; reflexivity).
    cbn [Classic.total_weight Classic.with_total_weight Classic.vtime_now].
    destruct (Z.geb_spec (Classic.total_weight gc + scx_weight p) (scx_weight p)); [|lia].
    replace (Classic.total_weight gc + scx_weight p - scx_weight p)
      with (Classic.total_weight gc) by lia.
    rewrite wrap64_small by lia. rewrite classic_put_ctx_twice.
    replace (Classic.with_total_weight
               (Classic.with_total_weight gc (Classic.total_weight gc + scx_weight p))
               (Classic.total_weight gc)) with gc
      by (destruct gc; reflexivity).
    rewrite classic_put_ctx_id by exact Hg. reflexivity.
Qed.

Lemma X21_classic_enable_disable_round_trip_witness :
  exists c1,
    Classic.eevdf_enable S4_task (classic_ctx_state 100 5)
      = Some (set_dsq_vtime S4_task 100, c1) /\
    classic_VW (Some (set_dsq_vtime S4_task 100, c1)) = Some (100, 5 + 2) /\
    Classic.eevdf_disable (set_dsq_vtime S4_task 100) c1
      = Some (set_dsq_vtime S4_task 100, classic_ctx_state 100 5).
Proof.
  apply (X21_classic_enable_disable_round_trip S4_task (classic_ctx_state 100 5)
           {| Classic.vtime_now := 100; Classic.total_weight := 5 |});
    [reflexivity | vm_compute; discriminate | vm_compute; discriminate | reflexivity].
Defined.

Lemma to_s64_congr a b : wrap64 a = wrap64 b -> to_s64 a = to_s64 b.
Proof. intros H. unfold to_s64. rewrite H. reflexivity. Qed.

Lemma wrap64_to_s64 x : wrap64 (to_s64 x) = wrap64 x.
Proof.
  unfold to_s64. destruct (wrap64 x <? 2^63).
  - unfold wrap64. apply Z.mod_mod. lia.
  - unfold wrap64. replace (x mod 2^64 - 2^64) with (x mod 2^64 + (-1) * 2^64) by lia.
    rewrite Z.mod_add by lia. apply Z.mod_mod. lia.
Qed.

(** The classical [abs_lag / sum * sign] is the signed truncated quotient. *)
Lemma classic_adjust_eq l W :
  - 2^63 <= l < 2^63 -> 0 < W < 2^64 ->
  to_s64 (to_s64 (wrap64 (if l <? 0 then s64_neg l else l) / W)
          * (if l <? 0 then -1 else 1)) = signed_quot l W.
Proof.
  intros Hl HW.
  assert (Habs : wrap64 (if l <? 0 then s64_neg l else l) = Z.abs l).
  { destruct (Z.ltb_spec l 0).
    - unfold s64_neg. rewrite wrap64_to_s64. rewrite wrap64_small; lia.
    - rewrite wrap64_small; lia. }
  rewrite Habs.
  pose proof (signed_quot_s64 l W Hl ltac:(lia)) as Hr.
  rewrite <- (to_s64_signed (signed_quot l W)) by exact Hr.
  apply to_s64_congr. unfold signed_quot.
  replace (if l <? 0 then -1 else 1) with (if l =? 0 then 1 else Z.sgn l)
    by (destruct (Z.ltb_spec l 0), (Z.eqb_spec l 0); lia).
  destruct (Z.eqb_spec l 0) as [-> | Hne].
  - cbn [Z.abs Z.sgn]. rewrite Z.div_0_l by lia. reflexivity.
  - unfold wrap64.
    rewrite (Z.mul_comm (Z.sgn l)).
    rewrite <- (Z.mul_mod_idemp_l (to_s64 _)) by lia.
    rewrite <- (Z.mul_mod_idemp_l (Z.abs l / W)) by lia.
    f_equal. f_equal. apply wrap64_to_s64.
Qed.

(** The classical application of [diff] to the clock is a wrapping sum. *)
Lemma classic_apply_diff V d :
  (if d >=? 0 then wrap64 (V + wrap64 d) else wrap64 (V - wrap64 (s64_neg d)))
  = wrap64 (V + d).
Proof.
  destruct (d >=? 0); unfold wrap64.
  - apply Z.add_mod_idemp_r. lia.
  - fold (wrap64 (s64_neg d)). unfold s64_neg. rewrite wrap64_to_s64. unfold wrap64.
    rewrite Zminus_mod_idemp_r. f_equal. lia.
Qed.

Lemma classic_set_weight_spec p nw c gc :
  Classic.get_ctx c = Some gc ->
  0 <= Classic.total_weight gc < 2^64 ->
  let V := Classic.vtime_now gc in
  let W := Classic.total_weight gc in
  let W2 := set_weight_sum W (scx_weight p) nw in
  let l := s64_sub (to_s64 V) (to_s64 (scx_dsq_vtime p)) in
  exists c',
    Classic.eevdf_set_weight p nw c = Some (p, c') /\
    Classic.get_ctx c' =
      Some {| Classic.vtime_now :=
                if (W =? 0) || (W2 =? 0) || (scx_weight p =? 0) then V
                else wrap64 (V + s64_sub (signed_quot l W) (signed_quot l W2));
              Classic.total_weight := W2 |}.
Proof.
  intros Hg HW V W W2 l.
  assert (Hput : forall x, Classic.get_ctx (Classic.put_ctx x c) = Some x)
    by (intros x; apply classic_get_ctx_put_ctx; rewrite Hg; eauto).
  assert (HW2 : Classic.total_weight
            (Classic.with_total_weight
               (if Classic.total_weight gc >=? scx_weight p
                then Classic.with_total_weight gc
                       (wrap64 (Classic.total_weight gc - scx_weight p))
                else gc)
               (wrap64 (Classic.total_weight
                          (if Classic.total_weight gc >=? scx_weight p
                           then Classic.with_total_weight gc
                                  (wrap64 (Classic.total_weight gc - scx_weight p))
                           else gc) + nw))) = W2).
  { unfold W2, set_weight_sum, W. destruct (Classic.total_weight gc >=? scx_weight p);
      reflexivity. }
  assert (HV2 : forall x, Classic.vtime_now
            (Classic.with_total_weight
               (if Classic.total_weight gc >=? scx_weight p
                then Classic.with_total_weight gc
                       (wrap64 (Classic.total_weight gc - scx_weight p))
                else gc) x) = V).
  { intros x. destruct (Classic.total_weight gc >=? scx_weight p); reflexivity. }
  unfold Classic.eevdf_set_weight. rewrite Hg. cbv zeta.
  rewrite HW2. fold W. fold V. rewrite !HV2. fold l.
  set (g2 := Classic.with_total_weight _ _) in *.
  assert (Hg2 : g2 = {| Classic.vtime_now := V; Classic.total_weight := W2 |}).
  { rewrite <- HW2, <- (HV2 (Classic.total_weight g2)). subst g2.
    destruct (Classic.total_weight gc >=? scx_weight p); reflexivity. }
  destruct ((W =? 0) || (W2 =? 0) || (scx_weight p =? 0)) eqn:Hz.
  - eexists. split; [reflexivity |]. rewrite Hput. rewrite Hg2. reflexivity.
  - apply orb_false_iff in Hz as [Hz _]. apply orb_false_iff in Hz as [Hz1 Hz2].
    apply Z.eqb_neq in Hz1, Hz2.
    assert (HW2r : 0 <= W2 < 2^64) by (unfold W2, set_weight_sum; apply wrap64_range).
    assert (Hl : - 2^63 <= l < 2^63) by (unfold l, s64_sub; apply to_s64_range).
    rewrite !udiv_Some by assumption. cbn [mbind option_bind].
    rewrite !classic_adjust_eq by (try assumption; unfold W in *; lia).
    pose proof (classic_apply_diff V (s64_sub (signed_quot l W) (signed_quot l W2)))
      as Ha.
    destruct (s64_sub (signed_quot l W) (signed_quot l W2) >=? 0);
      (eexists; split; [reflexivity |]); rewrite Hput, Hg2;
      cbn [Classic.with_vtime_now Classic.vtime_now Classic.total_weight];
      rewrite Ha; reflexivity.
Qed.

(** X22: on a task and a new weight that are both non-zero, the
    heterogeneous and the classical [set_weight] store the same weight
    sum and apply the same shift [lag/W - lag/W'] to the same clock; they
    differ only in that the heterogeneous one saturates the result at [0]
    and [2^64 - 1] where the classical one wraps modulo [2^64].  When the
    shifted clock stays in range they leave the same [(V, W)]. *)
Theorem X22_set_weight_differs_from_classic_by_saturation
    (p : task_struct) (nw : Z) (s : sched_state) (c : Classic.sched_state)
    (g : eevdf_ctx) (gc : Classic.eevdf_ctx) :
  get_ctx s = Some g -> Classic.get_ctx c = Some gc ->
  Classic.vtime_now gc = vtime_now g ->
  Classic.total_weight gc = total_weight g ->
  0 <= vtime_now g < 2^64 -> 0 <= total_weight g < 2^64 ->
  scx_weight p <> 0 -> nw <> 0 ->
  let W2 := set_weight_sum (total_weight g) (scx_weight p) nw in
  let x := vtime_now g + set_weight_shift (lag_of g p) (total_weight g) W2 in
  VW_after (eevdf_set_weight p nw s) = Some (sat_u64 x, W2) /\
  classic_VW (Classic.eevdf_set_weight p nw c) = Some (wrap64 x, W2) /\
  (0 <= x < 2^64 ->
   VW_after (eevdf_set_weight p nw s) =
   classic_VW (Classic.eevdf_set_weight p nw c)).
Proof.
  intros Hg Hgc HV HW HVr HWr Hw Hnw W2 x.
  destruct (eevdf_set_weight_spec p nw s g Hg HVr HWr) as (s' & Hr & Hs').
  destruct (classic_set_weight_spec p nw c gc Hgc) as (c' & Hc & Hc');
    [rewrite HW; exact HWr |].
  rewrite HV, HW in Hc'. fold (lag_of g p) in Hc'.
  unfold clamp_weight in Hs'.
  destruct (Z.eqb_spec (scx_weight p) 0) as [|_]; [contradiction |].
  destruct (Z.eqb_spec nw 0) as [|_]; [contradiction |].
  fold W2 in Hs', Hc'. rewrite orb_false_r in Hc'.
  assert (Hhet : VW_after (eevdf_set_weight p nw s) = Some (sat_u64 x, W2)).
  { rewrite Hr. unfold VW_after. cbn [mbind option_bind snd]. rewrite Hs'.
    unfold x, set_weight_shift.
    destruct ((total_weight g =? 0) || (W2 =? 0)); cbn.
    - rewrite Z.add_0_r, sat_u64_id by assumption. reflexivity.
    - reflexivity. }
  assert (Hcl : classic_VW (Classic.eevdf_set_weight p nw c) = Some (wrap64 x, W2)).
  { rewrite Hc. unfold classic_VW. cbn [mbind option_bind snd]. rewrite Hc'.
    unfold x, set_weight_shift.
    destruct ((total_weight g =? 0) || (W2 =? 0)); cbn.
    - rewrite Z.add_0_r, wrap64_small by assumption. reflexivity.
    - reflexivity. }
  split; [exact Hhet |]. split; [exact Hcl |].
  intros Hx. rewrite Hhet, Hcl, sat_u64_id, wrap64_small by assumption. reflexivity.
Qed.

Lemma X22_set_weight_differs_from_classic_by_saturation_witness :
  VW_after (eevdf_set_weight S3_task 4 S3_state) = Some (1000000 + 8334, 12) /\
  classic_VW (Classic.eevdf_set_weight S3_task 4 (classic_ctx_state 1000000 10))
    = Some (1000000 + 8334, 12).
Proof.
  destruct (X22_set_weight_differs_from_classic_by_saturation S3_task 4 S3_state
              (classic_ctx_state 1000000 10) S3_ctx
              {| Classic.vtime_now := 1000000; Classic.total_weight := 10 |})
    as (H1 & H2 & _).
  - reflexivity.
  - reflexivity.
  - reflexivity.
  - reflexivity.
  - vm_compute. split; [discriminate | reflexivity].
  - vm_compute. split; [discriminate | reflexivity].
  - vm_compute. discriminate.
  - discriminate.
  - split; [exact H1 | exact H2].
Defined.

Lemma get_task_ctx_absent p s :
  task_ctx_map s !! pid p = None -> get_task_ctx p false s = (None, s).
Proof. intros H. unfold get_task_ctx. rewrite H. reflexivity. Qed.

(** X23: on a CPU of full capacity (1024) and for a task without cached
    weight, [stopping] charges the task exactly what the classical
    [stopping] charges, [consumed * 100 / weight] (zero weight read as
    one), provided [consumed * 102400] fits in 64 bits.  The classical
    handler leaves the scheduler state alone; the heterogeneous one also
    advances the clock by [consumed * 100 / W] when the weight sum [W] is
    not zero. *)
Theorem X23_stopping_matches_classic_at_full_capacity
    (slice : Z) (p : task_struct) (runnable : bool) (cpu : Z)
    (s : sched_state) (c : Classic.sched_state) :
  get_cpu_cap s cpu = CAPACITY_SCALE ->
  task_ctx_map s !! pid p = None ->
  let consumed := wrap64 (slice - scx_slice p) in
  consumed * 102400 < 2^64 ->
  let p' := set_dsq_vtime p
              (wrap64 (scx_dsq_vtime p + consumed * 100 / clamp_weight (scx_weight p))) in
  Classic.eevdf_stopping slice p runnable c = Some (p', c) /\
  exists s',
    eevdf_stopping slice p runnable cpu s = Some (p', s') /\
    get_ctx s' =
      match get_ctx s with
      | Some g =>
          Some (if total_weight g =? 0 then g
                else with_vtime_now g
                       (wrap64 (vtime_now g + consumed * 100 / total_weight g)))
      | None => None
      end.
Proof.
  intros Hcap Hno consumed Hfit p'.
  assert (Hc : 0 <= consumed < 2^64) by apply wrap64_range.
  assert (Hw : clamp_weight (scx_weight p) <> 0)
    by (unfold clamp_weight; destruct (Z.eqb_spec (scx_weight p) 0); lia).
  split.
  - unfold Classic.eevdf_stopping. cbv zeta. fold consumed.
    fold (clamp_weight (scx_weight p)).
    rewrite udiv_Some by exact Hw. cbn [mbind option_bind].
    unfold SCALE. rewrite (wrap64_small (consumed * 100)) by lia. reflexivity.
  - destruct (eevdf_stopping_spec slice p runnable cpu s) as (d & tctx' & s' & Hd & Hr & Hs').
    rewrite Hcap in *. rewrite get_task_ctx_absent in Hd by exact Hno. cbn [fst] in Hd.
    assert (Hsvc : svc_vtime_of slice p CAPACITY_SCALE = consumed * 100).
    { unfold svc_vtime_of, CAPACITY_SCALE, SCALE. fold consumed.
      rewrite (wrap64_small (consumed * 1024)) by lia.
      rewrite (wrap64_small (consumed * 1024 * 100)) by lia.
      replace (consumed * 1024 * 100) with (consumed * 100 * 1024) by lia.
      apply Z.div_mul. lia. }
    rewrite Hsvc in *.
    unfold div_by_weight_cached, refresh_weight_cache in Hd.
    cbn [mbind option_bind] in Hd.
    fold (clamp_weight (clamp_weight (scx_weight p))) in Hd.
    assert (Hcc : clamp_weight (clamp_weight (scx_weight p))
                  = clamp_weight (scx_weight p)).
    { unfold clamp_weight at 1.
      destruct (Z.eqb_spec (clamp_weight (scx_weight p)) 0);
        [contradiction | reflexivity]. }
    rewrite Hcc in Hd.
    rewrite udiv_Some in Hd by exact Hw. cbn [mbind option_bind] in Hd.
    injection Hd as <- _.
    exists s'. split; [exact Hr | exact Hs'].
Qed.

Lemma X23_stopping_matches_classic_at_full_capacity_witness :
  Classic.eevdf_stopping SLICE_20MS ran_5ms_task true (classic_ctx_state 1000 3)
    = Some (set_dsq_vtime ran_5ms_task (1000 + 5000000 * 100 / 3),
            classic_ctx_state 1000 3) /\
  exists s',
    eevdf_stopping SLICE_20MS ran_5ms_task true 0 (homog_state 1000)
      = Some (set_dsq_vtime ran_5ms_task (1000 + 5000000 * 100 / 3), s') /\
    (vtime_now <$> get_ctx s') = Some (1000 + 5000000 * 100 / 3).
Proof.
  destruct (X23_stopping_matches_classic_at_full_capacity SLICE_20MS ran_5ms_task
              true 0 (homog_state 1000) (classic_ctx_state 1000 3))
    as (H1 & s' & H2 & H3);
    [reflexivity | reflexivity | reflexivity |].
  split; [exact H1 |]. exists s'. split; [exact H2 |]. rewrite H3. reflexivity.
Defined.

(** * The latency report of the agent *)

Lemma zsum_app (l1 l2 : list Z) :
  foldr Z.add 0 (l1 ++ l2) = foldr Z.add 0 l1 + foldr Z.add 0 l2.
Proof. induction l1 as [|x l1 IH]; cbn; [reflexivity | rewrite IH; lia]. Qed.

Lemma zsum_nonneg (l : list Z) : Forall (Z.le 0) l -> 0 <= foldr Z.add 0 l.
Proof. induction 1; cbn; lia. Qed.

Lemma zsum_take_le (l : list Z) n :
  Forall (Z.le 0) l -> foldr Z.add 0 (take n l) <= foldr Z.add 0 l.
Proof.
  intros H. revert n. induction H as [|x l Hx Hl IH]; intros [|n]; cbn; try lia.
  - pose proof (zsum_nonneg l Hl). lia.
  - specialize (IH n). lia.
Qed.

Lemma zsum_lookup_le (l : list Z) i x :
  Forall (Z.le 0) l -> l !! i = Some x -> x <= foldr Z.add 0 l.
Proof.
  intros H. revert i. induction H as [|y l Hy Hl IH]; intros [|i]; cbn; try discriminate.
  - intros [= ->]. pose proof (zsum_nonneg l Hl). lia.
  - intros Hi. specialize (IH i Hi). lia.
Qed.

(** A wrapping accumulation is the wrapped sum. *)
Lemma fold_wrap64_sum {A} (f : A -> Z) (l : list A) (acc : Z) :
  wrap64 acc = acc ->
  fold_left (λ acc c, wrap64 (acc + f c)) l acc =
    wrap64 (acc + foldr Z.add 0 (f <$> l)).
Proof.
  revert acc. induction l as [|c l IH]; intros acc Hacc; cbn.
  - rewrite Z.add_0_r. symmetry. exact Hacc.
  - rewrite IH by (unfold wrap64; apply Z.mod_mod; lia).
    unfold wrap64. rewrite Z.add_mod_idemp_l by lia. f_equal. lia.
Qed.

Lemma sum_cpus_eq ncpu hist i vals :
  hist !! i = Some vals ->
  sum_cpus ncpu vals 0 = wrap64 (bucket_count ncpu hist i).
Proof.
  intros H. unfold sum_cpus, bucket_count. rewrite H.
  rewrite (fold_wrap64_sum (λ c, default 0 (vals !! Z.to_nat c))) by reflexivity.
  reflexivity.
Qed.

(** The first loop of [read_latency_p95], after [n] keys. *)
Lemma read_buckets_spec ncpu hist (n : nat) :
  (n <= 64)%nat ->
  fold_left (read_bucket ncpu hist) (seqZ 0 (Z.of_nat n)) (replicate 64 0, 0) =
    (((λ i, wrap64 (bucket_count ncpu hist i)) <$> seq 0 n) ++ replicate (64 - n) 0,
     wrap64 (foldr Z.add 0 ((λ i, wrap64 (bucket_count ncpu hist i)) <$> seq 0 n))).
Proof.
  induction n as [|n IH]; intros Hn; [reflexivity |].
  rewrite seqZ_S, fold_left_app, IH by lia. cbn [fold_left]. rewrite Z.add_0_l.
  set (B := λ i, wrap64 (bucket_count ncpu hist i)).
  assert (Hlen : length (B <$> seq 0 n) = n) by (rewrite length_fmap, length_seq; reflexivity).
  replace (64 - n)%nat with (S (64 - S n)) by lia. cbn [replicate].
  rewrite seq_S, fmap_app, zsum_app, <- app_assoc. cbn [fmap list_fmap foldr app Nat.add].
  unfold read_bucket. rewrite Nat2Z.id.
  destruct (hist !! n) as [vals|] eqn:Hh.
  - rewrite lookup_app_r by lia. rewrite Hlen, Nat.sub_diag. cbn [lookup list_lookup default].
    unfold id. rewrite (sum_cpus_eq ncpu hist n vals Hh).
    rewrite insert_app_r_alt by lia. rewrite Hlen, Nat.sub_diag. cbn [insert list_insert].
    change (wrap64 (bucket_count ncpu hist n)) with (B n).
    f_equal. rewrite Z.add_0_r. unfold wrap64 at 1 2 3.
    rewrite Z.add_mod_idemp_l by lia. reflexivity.
  - assert (HB : B n = 0) by (unfold B, bucket_count; rewrite Hh; reflexivity).
    rewrite HB. f_equal. f_equal. lia.
Qed.

(** The second loop: on counts that do not overflow it stops at the first
    bucket whose running count reaches 95% of the total. *)
Lemma find_p95_spec (bs : list Z) (i0 pre T : Z) :
  Forall (Z.le 0) bs -> 0 <= pre -> pre + foldr Z.add 0 bs = T ->
  0 < T -> T * 100 < 2^64 -> 100 * pre < 95 * T ->
  exists k : nat,
    (k < length bs)%nat /\
    find_p95 bs i0 pre T = Some (i0 + Z.of_nat k) /\
    95 * T <= 100 * (pre + foldr Z.add 0 (take (S k) bs)) /\
    forall j, (j < k)%nat -> 100 * (pre + foldr Z.add 0 (take (S j) bs)) < 95 * T.
Proof.
  intros Hnn. revert i0 pre. induction Hnn as [|b bs Hb Hbs IH];
    intros i0 pre Hpre Hsum HT Hfit Hlow; cbn [foldr] in Hsum.
  - lia.
  - pose proof (zsum_nonneg bs Hbs) as Hz.
    cbn [find_p95]. cbv zeta.
    rewrite (wrap64_small (pre + b)) by lia.
    rewrite (wrap64_small ((pre + b) * 100)) by lia.
    rewrite (wrap64_small (T * 95)) by lia.
    destruct (Z.geb_spec ((pre + b) * 100) (T * 95)) as [Hge | Hlt].
    + exists 0%nat. cbn [length firstn foldr Z.of_nat]. rewrite take_0. cbn [foldr].
      split; [lia |]. split; [f_equal; lia |]. split; [lia |]. intros j Hj. lia.
    + destruct (IH (i0 + 1) (pre + b)) as (k & Hk & Hf & Hreach & Hbelow); try lia.
      exists (S k). cbn [length]. split; [lia |].
      split; [rewrite Hf; f_equal; lia |].
      split.
      * cbn [firstn foldr]. cbn [firstn] in Hreach. lia.
      * intros [|j] Hj.
        -- cbn [firstn foldr]. rewrite take_0. cbn [foldr]. lia.
        -- specialize (Hbelow j ltac:(lia)). cbn [firstn foldr]. cbn [firstn] in Hbelow. lia.
Qed.

Lemma bucket_count_nonneg ncpu hist i :
  Forall (Forall (Z.le 0)) hist -> 0 <= bucket_count ncpu hist i.
Proof.
  intros H. unfold bucket_count.
  lazymatch goal with
  | |- context [match ?t with Some _ => _ | None => _ end] =>
      destruct t as [vals|] eqn:Hh; [|lia]
  end.
  apply zsum_nonneg. apply Forall_fmap, Forall_forall. intros c _. cbn.
  destruct (vals !! Z.to_nat c) as [x|] eqn:Hx; cbn; [|lia].
  rewrite Forall_lookup in H. specialize (H i vals Hh).
  rewrite Forall_lookup in H. exact (H _ _ Hx).
Qed.

(** X24: the latency report finds the 95th percentile bucket.  When the
    histogram holds non-negative counts, at least one sample, and [100]
    times the number of samples fits in 64 bits, the agent prints the
    number of samples and a bucket [b < 64] such that the buckets [0 .. b]
    hold at least 95% of the samples while, for every [j < b], the buckets
    [0 .. j] hold less than 95%. *)
Theorem X24_p95_bucket_is_least_reaching_95_percent
    (ncpu : Z) (hist : percpu_map) :
  Forall (Forall (Z.le 0)) hist ->
  let T := cum_count ncpu hist 63 in
  0 < T -> T * 100 < 2^64 ->
  exists b : nat,
    read_latency_p95 true ncpu hist = Some (Samples T (Some (Z.of_nat b))) /\
    (b < 64)%nat /\
    95 * T <= 100 * cum_count ncpu hist b /\
    forall j, (j < b)%nat -> 100 * cum_count ncpu hist j < 95 * T.
Proof.
  intros Hnn T HT Hfit.
  set (bl := bucket_count ncpu hist <$> seq 0 64).
  assert (Hbl : Forall (Z.le 0) bl).
  { apply Forall_fmap, Forall_forall. intros i _. apply bucket_count_nonneg, Hnn. }
  assert (HTs : foldr Z.add 0 bl = T) by reflexivity.
  assert (Hw : (λ i, wrap64 (bucket_count ncpu hist i)) <$> seq 0 64 = bl).
  { apply list_fmap_ext. intros i x Hx. apply wrap64_small.
    split; [apply bucket_count_nonneg, Hnn |].
    assert (Hi : bl !! i = Some (bucket_count ncpu hist x))
      by (unfold bl; rewrite list_lookup_fmap, Hx; reflexivity).
    pose proof (zsum_lookup_le bl i _ Hbl Hi). lia. }
  destruct (find_p95_spec bl 0 0 T Hbl ltac:(lia) ltac:(lia) HT Hfit ltac:(lia))
    as (k & Hk & Hf & Hreach & Hbelow).
  assert (Hlen : length bl = 64%nat) by reflexivity.
  assert (Hcum : forall j, (j < 64)%nat ->
            foldr Z.add 0 (take (S j) bl) = cum_count ncpu hist j).
  { intros j Hj. unfold bl, cum_count. rewrite <- fmap_take, take_seq.
    replace (S j `min` 64)%nat with (S j) by lia. reflexivity. }
  exists k. split; [|split; [lia | split]].
  - unfold read_latency_p95. cbn [negb].
    change (Z.to_nat LAT_BUCKETS) with 64%nat.
    change LAT_BUCKETS with (Z.of_nat 64).
    rewrite (read_buckets_spec ncpu hist 64) by lia.
    rewrite Hw. cbn [Nat.sub replicate]. rewrite app_nil_r, HTs.
    rewrite (wrap64_small T) by lia.
    destruct (Z.eqb_spec T 0); [lia |]. rewrite Hf. reflexivity.
  - rewrite <- Hcum by lia. lia.
  - intros j Hj. rewrite <- Hcum by lia. specialize (Hbelow j Hj). lia.
Qed.

Lemma X24_p95_bucket_is_least_reaching_95_percent_witness :
  exists b : nat,
    read_latency_p95 true 2 sample_hist = Some (Samples 100 (Some (Z.of_nat b))) /\
    (b < 64)%nat /\
    95 * 100 <= 100 * cum_count 2 sample_hist b /\
    forall j, (j < b)%nat -> 100 * cum_count 2 sample_hist j < 95 * 100.
Proof.
  apply (X24_p95_bucket_is_least_reaching_95_percent 2 sample_hist).
  - vm_compute. repeat constructor; discriminate.
  - reflexivity.
  - reflexivity.
Defined.

Lemma zsum_zero (l : list Z) : Forall (λ x, x = 0) l -> foldr Z.add 0 l = 0.
Proof. induction 1 as [|x l Hx Hl IH]; cbn; [reflexivity | lia]. Qed.

Lemma reset_loop_lookup (z : list Z) (hist : list (list Z)) (n i : nat) :
  fold_left (λ h k, <[Z.to_nat k := z]> h) (seqZ 0 (Z.of_nat n)) hist !! i =
    if bool_decide (i < n)%nat then (λ _, z) <$> hist !! i else hist !! i.
Proof.
  induction n as [|n IH].
  - rewrite bool_decide_eq_false_2 by lia. reflexivity.
  - rewrite seqZ_S, fold_left_app. cbn [fold_left]. rewrite Z.add_0_l, Nat2Z.id.
    set (h := fold_left _ _ hist) in *.
    destruct (decide (i = n)) as [-> | Hne].
    + rewrite bool_decide_eq_true_2 by lia.
      rewrite bool_decide_eq_false_2 in IH by lia.
      destruct (hist !! n) as [x|] eqn:Hx.
      * rewrite list_lookup_insert_eq; [reflexivity |].
        apply lookup_lt_is_Some. rewrite IH. eauto.
      * cbn. apply lookup_ge_None. rewrite length_insert. apply lookup_ge_None.
        exact IH.
    + rewrite list_lookup_insert_ne by congruence. rewrite IH.
      destruct (decide (i < n)%nat).
      * rewrite !bool_decide_eq_true_2 by lia. reflexivity.
      * rewrite !bool_decide_eq_false_2 by lia. reflexivity.
Qed.

(** X25: right after [reset_latency_hist] the report finds no samples,
    whatever the histogram held and for any number of CPUs; the reset
    keeps the keys of the map, and without its buffer it does nothing. *)
Theorem X25_reset_then_report_has_no_samples (ncpu : Z) (hist : percpu_map) :
  read_latency_p95 true ncpu (reset_latency_hist true ncpu hist) = Some NoSamples /\
  length (reset_latency_hist true ncpu hist) = length hist /\
  reset_latency_hist false ncpu hist = hist.
Proof.
  set (hist' := reset_latency_hist true ncpu hist).
  assert (Hlk : forall i, hist' !! i =
            if bool_decide (i < 64)%nat
            then (λ _, replicate (Z.to_nat ncpu) 0) <$> hist !! i else hist !! i).
  { intros i. unfold hist', reset_latency_hist. cbn [negb].
    change LAT_BUCKETS with (Z.of_nat 64). apply reset_loop_lookup. }
  assert (Hzero : forall i, (i < 64)%nat -> bucket_count ncpu hist' i = 0).
  { intros i Hi. unfold bucket_count. rewrite Hlk, bool_decide_eq_true_2 by exact Hi.
    destruct (hist !! i); cbn; [|reflexivity].
    apply zsum_zero, Forall_fmap, Forall_forall. intros c _. cbn.
    destruct (replicate (Z.to_nat ncpu) 0 !! Z.to_nat c) as [x|] eqn:Hx; [|reflexivity].
    apply lookup_replicate in Hx as [-> _]. reflexivity. }
  split; [|split].
  - unfold read_latency_p95. cbn [negb].
    change (Z.to_nat LAT_BUCKETS) with 64%nat.
    change LAT_BUCKETS with (Z.of_nat 64).
    rewrite (read_buckets_spec ncpu hist' 64) by lia.
    assert (Hw : (λ i, wrap64 (bucket_count ncpu hist' i)) <$> seq 0 64
                 = (λ _, 0) <$> seq 0 64).
    { apply list_fmap_ext. intros i x Hx.
      apply lookup_seq in Hx as [-> Hx]. rewrite Hzero by lia. reflexivity. }
    rewrite Hw. reflexivity.
  - assert (Hnone : forall i, hist' !! i = None <-> hist !! i = None).
    { intros i. rewrite Hlk. destruct (bool_decide (i < 64)%nat); [|reflexivity].
      destruct (hist !! i); cbn; split; congruence. }
    pose proof (proj1 (Hnone (length hist')) (proj2 (lookup_ge_None _ _) (le_n _))) as H1.
    pose proof (proj2 (Hnone (length hist)) (proj2 (lookup_ge_None _ _) (le_n _))) as H2.
    apply lookup_ge_None in H1, H2. lia.
  - reflexivity.
Qed.

(** * The histograms of the benchmark tracer *)

Lemma land_bit_eqb (val : Z) (i : nat) :
  (Z.land val (Z.shiftl 1 (Z.of_nat i)) =? 0) = negb (Z.testbit val (Z.of_nat i)).
Proof.
  rewrite Z.shiftl_1_l.
  destruct (Z.testbit val (Z.of_nat i)) eqn:Hb; cbn [negb].
  - apply Z.eqb_neq. intros H0.
    assert (Hbit : Z.testbit (Z.land val (2 ^ Z.of_nat i)) (Z.of_nat i) = true)
      by (rewrite Z.land_spec, Hb, Z.pow2_bits_true by lia; reflexivity).
    rewrite H0, Z.bits_0 in Hbit. discriminate.
  - apply Z.eqb_eq. apply Z.bits_inj'. intros k Hk.
    rewrite Z.land_spec, Z.bits_0, Z.pow2_bits_eqb by lia.
    destruct (Z.eqb_spec (Z.of_nat i) k) as [<- | Hne].
    + rewrite Hb. reflexivity.
    + apply andb_false_r.
Qed.

Lemma mod_pow2_succ (val : Z) (i : nat) :
  val mod 2 ^ Z.of_nat (S i) =
    val mod 2 ^ Z.of_nat i +
    (if Z.testbit val (Z.of_nat i) then 2 ^ Z.of_nat i else 0).
Proof.
  rewrite Nat2Z.inj_succ, Z.pow_succ_r by lia.
  rewrite (Z.mul_comm 2), Z.rem_mul_r by lia.
  f_equal.
  destruct (Z.testbit val (Z.of_nat i)) eqn:Hb.
  - apply Z.testbit_true in Hb; [|lia]. rewrite Hb. lia.
  - apply Z.testbit_false in Hb; [|lia]. rewrite Hb. lia.
Qed.

Lemma log2_scan_spec (val : Z) (n : nat) :
  log2_scan val n =
    if val mod 2 ^ Z.of_nat n =? 0 then 0 else Z.log2 (val mod 2 ^ Z.of_nat n).
Proof.
  induction n as [|i IH].
  - cbn [log2_scan]. change (2 ^ Z.of_nat 0) with 1. rewrite Z.mod_1_r. reflexivity.
  - cbn [log2_scan]. rewrite land_bit_eqb, negb_involutive, mod_pow2_succ.
    pose proof (Z.mod_pos_bound val (2 ^ Z.of_nat i) ltac:(lia)) as Hr.
    destruct (Z.testbit val (Z.of_nat i)).
    + destruct (Z.eqb_spec (val mod 2 ^ Z.of_nat i + 2 ^ Z.of_nat i) 0); [lia |].
      symmetry. apply Z.log2_unique; [lia |].
      rewrite Z.pow_succ_r by lia. lia.
    + rewrite Z.add_0_r. exact IH.
Qed.

Lemma log2_bucket_eq (val : Z) :
  log2_bucket val =
    if val mod 2^32 =? 0 then 0 else Z.log2 (val mod 2^32).
Proof.
  unfold log2_bucket. destruct (Z.eqb_spec val 0) as [-> | Hne]; [reflexivity |].
  cbv zeta. rewrite log2_scan_spec. change (Z.of_nat 32) with 32.
  pose proof (Z.mod_pos_bound val (2^32) ltac:(lia)) as Hr.
  destruct (Z.eqb_spec (val mod 2^32) 0); [reflexivity |].
  assert (Z.log2 (val mod 2^32) < 32) by (apply Z.log2_lt_pow2; lia).
  unfold HIST_BUCKETS. destruct (Z.ltb_spec (Z.log2 (val mod 2^32)) 32); [reflexivity | lia].
Qed.

Lemma log2_bucket_range (val : Z) : 0 <= log2_bucket val < 32.
Proof.
  rewrite log2_bucket_eq.
  pose proof (Z.mod_pos_bound val (2^32) ltac:(lia)) as Hr.
  destruct (Z.eqb_spec (val mod 2^32) 0); [lia |].
  split; [apply Z.log2_nonneg | apply Z.log2_lt_pow2; lia].
Qed.

(** X26: the benchmark's [log2_bucket] is the base-2 logarithm of the
    low 32 bits of the value, [0] when those bits are all zero: it is
    always a valid bucket index below 32; for [0 < val < 2^32] it is the
    [b] with [2^b <= val < 2^(b+1)]; and bits 32 and up are ignored, so a
    latency that is a multiple of [2^32] ns lands in bucket 0. *)
Theorem X26_log2_bucket_reads_low_32_bits (val : Z) :
  0 <= log2_bucket val < 32 /\
  log2_bucket val = log2_bucket (val mod 2^32) /\
  (0 < val < 2^32 ->
   2 ^ log2_bucket val <= val < 2 ^ (log2_bucket val + 1)) /\
  (val mod 2^32 = 0 -> log2_bucket val = 0).
Proof.
  split; [apply log2_bucket_range |]. split; [|split].
  - rewrite !log2_bucket_eq. rewrite Z.mod_mod by lia. reflexivity.
  - intros Hr. rewrite log2_bucket_eq, Z.mod_small by lia.
    destruct (Z.eqb_spec val 0); [lia |].
    pose proof (Z.log2_spec val ltac:(lia)) as Hs.
    rewrite <- Z.add_1_r in Hs. exact Hs.
  - intros H0. rewrite log2_bucket_eq, H0. reflexivity.
Qed.

Lemma X26_log2_bucket_reads_low_32_bits_witness :
  log2_bucket 5000 = 12 /\ log2_bucket (2^32) = 0 /\ log2_bucket (2^32 + 5000) = 12.
Proof.
  destruct (X26_log2_bucket_reads_low_32_bits (2^32 + 5000)) as (_ & H & _).
  split; [reflexivity |]. split; [reflexivity |]. rewrite H. reflexivity.
Defined.

Lemma zsum_insert (l : list Z) (i : nat) (c x : Z) :
  l !! i = Some c -> foldr Z.add 0 (<[i := x]> l) = foldr Z.add 0 l - c + x.
Proof.
  revert i. induction l as [|y l IH]; intros [|i] H; try discriminate.
  - injection H as ->. cbn. lia.
  - change (<[S i := x]> (y :: l)) with (y :: <[i := x]> l).
    cbn [foldr]. rewrite (IH i H). lia.
Qed.

Lemma foldr_min_init (d x : Z) (l : list Z) :
  foldr Z.min (Z.min d x) l = Z.min d (foldr Z.min x l).
Proof. induction l as [|y l IH]; cbn; [reflexivity | rewrite IH; lia]. Qed.

Lemma foldr_max_init (d x : Z) (l : list Z) :
  foldr Z.max (Z.max d x) l = Z.max d (foldr Z.max x l).
Proof. induction l as [|y l IH]; cbn; [reflexivity | rewrite IH; lia]. Qed.

Lemma least_sample_snoc (ds : list Z) (d : Z) :
  least_sample (ds ++ [d]) =
    match ds with [] => d | _ => Z.min d (least_sample ds) end.
Proof.
  destruct ds as [|x r]; [reflexivity |].
  cbn [app least_sample]. rewrite foldr_app. cbn [foldr]. apply foldr_min_init.
Qed.

Lemma least_sample_pos (ds : list Z) :
  Forall (λ d, 0 < d < 2^64) ds -> ds <> [] -> 0 < least_sample ds.
Proof.
  destruct ds as [|x r]; [congruence |]. intros H _.
  apply Forall_cons in H as [Hx Hr]. cbn [least_sample].
  induction Hr as [|y r Hy Hr IH]; cbn; lia.
Qed.

Lemma record_latency_holds (type d : Z) (hists : list hist) (h : hist) (ds : list Z) :
  hists !! Z.to_nat type = Some h ->
  hist_holds h ds ->
  Forall (λ d, 0 < d < 2^64) ds -> 0 < d < 2^64 ->
  Z.of_nat (length ds) + 1 < 2^64 ->
  exists h',
    record_latency type d hists !! Z.to_nat type = Some h' /\
    hist_holds h' (ds ++ [d]) /\
    forall j, j <> Z.to_nat type -> record_latency type d hists !! j = hists !! j.
Proof.
  intros Hh (Hlen & Hnn & Hcnt & Hsum & Htot & Hmin & Hmax) Hds Hd Hfit.
  unfold record_latency. rewrite Hh. cbv zeta.
  pose proof (log2_bucket_range d) as Hslot.
  unfold HIST_BUCKETS.
  destruct (Z.ltb_spec (log2_bucket d) 32) as [_ | ?]; [|lia].
  destruct (lookup_lt_is_Some_2 (bucket h) (Z.to_nat (log2_bucket d))) as [cnt Hc];
    [lia |].
  rewrite Hc.
  assert (Hcr : 0 <= cnt <= Z.of_nat (length ds)).
  { split.
    - rewrite Forall_lookup in Hnn. exact (Hnn _ _ Hc).
    - rewrite <- Hsum. exact (zsum_lookup_le _ _ _ Hnn Hc). }
  eexists. split; [|split].
  - apply list_lookup_insert_eq. apply lookup_lt_is_Some. rewrite Hh. eauto.
  - unfold hist_holds. cbn [bucket count total_ns min_ns max_ns].
    rewrite length_insert, length_app. cbn [length].
    rewrite (wrap64_small (cnt + 1)) by lia.
    split; [exact Hlen |].
    split; [apply Forall_insert; [exact Hnn | lia] |].
    split; [rewrite Hcnt, wrap64_small by lia; lia |].
    split; [rewrite (zsum_insert _ _ cnt) by exact Hc; lia |].
    split.
    + rewrite Htot, zsum_app. cbn [foldr]. unfold wrap64.
      rewrite Z.add_mod_idemp_l by lia. f_equal. lia.
    + split.
      * rewrite least_sample_snoc, Hmin. destruct ds as [|x r].
        -- reflexivity.
        -- pose proof (least_sample_pos (x :: r) Hds ltac:(congruence)) as Hp.
           destruct (Z.eqb_spec (least_sample (x :: r)) 0); [lia |]. cbn [orb].
           destruct (Z.ltb_spec d (least_sample (x :: r))); lia.
      * rewrite foldr_app. cbn [foldr]. rewrite foldr_max_init, Hmax.
        destruct (Z.gtb_spec d (foldr Z.max 0 ds)); lia.
  - intros j Hj. apply list_lookup_insert_ne. congruence.
Qed.

Lemma record_all_holds (type : Z) (samples : list Z) :
  forall (hists : list hist) (h : hist) (ds : list Z),
  hists !! Z.to_nat type = Some h ->
  hist_holds h ds ->
  Forall (λ d, 0 < d < 2^64) ds -> Forall (λ d, 0 < d < 2^64) samples ->
  Z.of_nat (length ds + length samples) < 2^64 ->
  exists h',
    record_all type samples hists !! Z.to_nat type = Some h' /\
    hist_holds h' (ds ++ samples) /\
    forall j, j <> Z.to_nat type -> record_all type samples hists !! j = hists !! j.
Proof.
  induction samples as [|d samples IH]; intros hists h ds Hh Hinv Hds Hs Hfit.
  - exists h. rewrite app_nil_r. split; [exact Hh |]. split; [exact Hinv | reflexivity].
  - apply Forall_cons in Hs as [Hd Hs]. cbn [length] in Hfit.
    destruct (record_latency_holds type d hists h ds Hh Hinv Hds Hd ltac:(lia))
      as (h1 & Hh1 & Hinv1 & Hframe1).
    destruct (IH (record_latency type d hists) h1 (ds ++ [d]) Hh1 Hinv1) as
      (h' & Hh' & Hinv' & Hframe').
    + apply Forall_app. split; [exact Hds | constructor; [exact Hd | constructor]].
    + exact Hs.
    + rewrite length_app. cbn [length]. lia.
    + exists h'. unfold record_all in *. cbn [fold_left].
      split; [exact Hh' |]. split.
      * rewrite <- app_assoc in Hinv'. exact Hinv'.
      * intros j Hj. rewrite Hframe' by exact Hj. apply Hframe1. exact Hj.
Qed.

(** X27: starting from an empty histogram, after any run of non-zero
    samples of one latency type the tracer's histogram for that type
    holds their number in [count], as many entries over its buckets as
    samples, their sum modulo [2^64] in [total_ns], the least of them in
    [min_ns] and the greatest in [max_ns]; the histograms of the other
    latency types are not touched. *)
Theorem X27_record_latency_summarises_samples
    (type : Z) (samples : list Z) (hists : list hist) :
  hists !! Z.to_nat type = Some hist_zero ->
  Forall (λ d, 0 < d < 2^64) samples ->
  Z.of_nat (length samples) < 2^64 ->
  exists h,
    record_all type samples hists !! Z.to_nat type = Some h /\
    count h = Z.of_nat (length samples) /\
    foldr Z.add 0 (bucket h) = Z.of_nat (length samples) /\
    total_ns h = wrap64 (foldr Z.add 0 samples) /\
    min_ns h = least_sample samples /\
    max_ns h = foldr Z.max 0 samples /\
    forall j, j <> Z.to_nat type -> record_all type samples hists !! j = hists !! j.
Proof.
  intros Hh Hs Hfit.
  destruct (record_all_holds type samples hists hist_zero [] Hh) as
    (h & Hh' & (_ & _ & Hcnt & Hsum & Htot & Hmin & Hmax) & Hframe).
  - unfold hist_holds, hist_zero. cbn [bucket count total_ns min_ns max_ns].
    repeat split. apply Forall_forall. intros x Hx.
    apply elem_of_replicate in Hx as [-> _]. lia.
  - constructor.
  - exact Hs.
  - cbn [length Nat.add]. exact Hfit.
  - exists h. cbn [app] in *. repeat split; assumption.
Qed.

Lemma X27_record_latency_summarises_samples_witness :
  exists h,
    record_all 1 [5000; 300; 70000] fresh_hists !! 1%nat = Some h /\
    count h = 3 /\ foldr Z.add 0 (bucket h) = 3 /\
    total_ns h = 75300 /\ min_ns h = 300 /\ max_ns h = 70000.
Proof.
  destruct (X27_record_latency_summarises_samples 1 [5000; 300; 70000] fresh_hists)
    as (h & H1 & H2 & H3 & H4 & H5 & H6 & _).
  - reflexivity.
  - repeat constructor.
  - reflexivity.
  - exists h. repeat split; assumption.
Defined.
